(** * GridZer0: the confirm-then-process workflow of the Discord bot

    A shallow embedding of the handlers of the bot (bot.py and the modules
    under handlers/) together with the properties their specification states.

    Python coroutines are embedded in a small state-and-exception monad.
    Every awaited call into discord.py, PyMuPDF or ffmpeg is answered by a
    [world]: a function of the log of calls made so far, so that a theorem
    over all worlds covers every way the platform can answer.  A Python
    [str] is a [string] read one character per code point, which holds the
    code points up to U+00FF; the classes of characters are Python's on
    that range, those of Unicode.  The f-strings that become message
    contents are kept as lists of fragments; the symbols of the bot past
    U+00FF stand in the literal fragments only, which are compared as
    wholes and never measured. *)

From Stdlib Require Import String Ascii List ZArith QArith Bool Lia.
From Stdlib Require Import DecimalString.
From stdpp Require Import gmap.
Import ListNotations.

Local Open Scope string_scope.
Local Open Scope list_scope.

(** ** Python strings *)

Module Py.

Definition len (s : string) : nat := String.length s.

(** [s[:n]] *)
Definition take (n : nat) (s : string) : string := substring 0 n s.

(** [s[n:]] *)
Definition drop (n : nat) (s : string) : string :=
  substring n (String.length s - n) s.

(** The code point of [c] lies between [lo] and [hi]. *)
Definition in_range (lo hi : nat) (c : ascii) : bool :=
  let n := nat_of_ascii c in (lo <=? n)%nat && (n <=? hi)%nat.

(** [c.lower()]: the letters A-Z and, past ASCII, U+00C0-U+00DE but for the
    sign U+00D7 have their lower case 32 code points further. *)
Definition lower_char (c : ascii) : ascii :=
  if in_range 65 90 c
     || (in_range 192 222 c && negb (Nat.eqb (nat_of_ascii c) 215))
  then ascii_of_nat (nat_of_ascii c + 32) else c.

(** [s.lower()] *)
Fixpoint lower (s : string) : string :=
  match s with
  | EmptyString => EmptyString
  | String c r => String (lower_char c) (lower r)
  end.

(** [c.isspace()], the class [\s] of [re]: the ASCII white space, the
    separators U+001C-U+001F, U+0085 and the no-break space U+00A0. *)
Definition isspace (c : ascii) : bool :=
  in_range 9 13 c || in_range 28 32 c || in_range 133 133 c
  || in_range 160 160 c.

(** [c.isdecimal()], the class [\d] of [re]: below U+0100, the digits 0-9. *)
Definition isdecimal (c : ascii) : bool := in_range 48 57 c.

(** [c.isalnum()]: letters and numbers; below U+0100 these are the ASCII
    ones, the ordinal indicators, the micro sign, the superscripts 1-3,
    the fractions, and the letters U+00C0-U+00FF but for the two signs
    U+00D7 and U+00F7. *)
Definition isalnum (c : ascii) : bool :=
  in_range 48 57 c || in_range 65 90 c || in_range 97 122 c
  || in_range 170 170 c || in_range 178 179 c || in_range 181 181 c
  || in_range 185 186 c || in_range 188 190 c || in_range 192 214 c
  || in_range 216 246 c || in_range 248 255 c.

(** The class [\w] of [re] *)
Definition isword (c : ascii) : bool := isalnum c || Ascii.eqb c "_".

(** [s.startswith(p)] *)
Definition startswith (p s : string) : bool := String.prefix p s.

(** [s.endswith(p)] *)
Definition endswith (p s : string) : bool :=
  (String.length p <=? String.length s)%nat
  && String.eqb (drop (String.length s - String.length p) s) p.

(** [p in s] *)
Fixpoint contains (p s : string) : bool :=
  String.prefix p s
  || match s with
     | EmptyString => false
     | String _ r => contains p r
     end.

(** [s.rfind(c)] for a one-character [c]; -1 when absent *)
Fixpoint rfind_from (i : Z) (c : ascii) (s : string) (last : Z) : Z :=
  match s with
  | EmptyString => last
  | String d r => rfind_from (i + 1) c r (if Ascii.eqb c d then i else last)
  end.

Definition rfind (c : ascii) (s : string) : Z := rfind_from 0 c s (-1).

Fixpoint all_dots (s : string) : bool :=
  match s with
  | EmptyString => true
  | String c r => Ascii.eqb c "." && all_dots r
  end.

(** [os.path.splitext(p)], which is genericpath._splitext: the path is cut
    at its last dot, unless that dot comes before the last separator or
    has only dots between the separator and itself.  The separator is "/"
    where [os.path] is posixpath; where it is ntpath ([nt]), the backslash
    is one too, and the last of the two counts. *)
Definition splitext (nt : bool) (p : string) : string * string :=
  let sepIndex :=
    if nt then Z.max (rfind "\" p) (rfind "/" p) else rfind "/" p in
  let dotIndex := rfind "." p in
  if (sepIndex <? dotIndex)%Z then
    if all_dots (substring (Z.to_nat (sepIndex + 1))
                           (Z.to_nat (dotIndex - sepIndex - 1)) p)
    then (p, EmptyString)
    else (take (Z.to_nat dotIndex) p, drop (Z.to_nat dotIndex) p)
  else (p, EmptyString).

(** [str(n)] for a natural number *)
Definition str_of_nat (n : nat) : string :=
  NilZero.string_of_uint (Nat.to_uint n).

End Py.

(** ** Thread names

    Every workflow cuts the name of the thread it is about to create in the
    same way (pdf_handler.py 105-107, docx_handler.py 300-303,
    image_handler.py 115-116, mp4_handler.py 177-179):

      if len(thread_name) > 100:
          thread_name = thread_name[:97] + "..."  *)

Definition thread_name (name : string) : string :=
  if (100 <? Py.len name)%nat then Py.take 97 name ++ "..." else name.

(** ** The platform: channels, messages, exceptions *)

(** A message is posted in a text channel or inside a thread;
    [isinstance(c, discord.Thread)] is [is_thread c]. *)
Inductive chan := TextChannel (id : N) | Thread (id : N).

Definition chan_id (c : chan) : N :=
  match c with TextChannel i | Thread i => i end.

Definition is_thread (c : chan) : bool :=
  match c with Thread _ => true | TextChannel _ => false end.

(** [a != b] on discord objects: another class, or another id. *)
Definition chan_neb (a b : chan) : bool :=
  negb (Bool.eqb (is_thread a) (is_thread b) && N.eqb (chan_id a) (chan_id b)).

(** The six content kinds of the dispatcher. *)
Inductive kind := pdf | docx | image_batch | video | youtube_link | referral_link.

(** The exception classes the handlers tell apart.  [Forbidden] and
    [NotFound] derive from [HTTPException]; all of them from [Exception]. *)
Inductive pyclass :=
  Forbidden | NotFound | HTTPException | TimeoutError | ValueError
| AttributeError | Exception.

Definition pyclass_eqb (c d : pyclass) : bool :=
  match c, d with
  | Forbidden, Forbidden | NotFound, NotFound | HTTPException, HTTPException
  | TimeoutError, TimeoutError | ValueError, ValueError
  | AttributeError, AttributeError | Exception, Exception => true
  | _, _ => false
  end.

Definition subclass (c d : pyclass) : bool :=
  match d with
  | Exception => true
  | HTTPException =>
      match c with Forbidden | NotFound | HTTPException => true | _ => false end
  | _ => pyclass_eqb c d
  end.

(** An exception object: its class, [e.code] and [str(e)].  The exceptions
    of discord.py carry [response], [status], [code] and [text]; none of
    the classes above has an attribute [retry_after]. *)
Record exn := mk_exn {
  cls : pyclass;
  code : Z;
  str : string
}.

Definition isinstance (e : exn) (c : pyclass) : bool := subclass (cls e) c.

(** [ValueError(msg)] and [Exception(msg)] as the handlers raise them. *)
Definition value_error (msg : string) : exn := mk_exn ValueError 0 msg.
Definition exception (msg : string) : exn := mk_exn Exception 0 msg.
Definition timeout_error : exn := mk_exn TimeoutError 0 EmptyString.

(** The [AttributeError] of an attribute read on an object that lacks it. *)
Definition attribute_error (msg : string) : exn := mk_exn AttributeError 0 msg.

(** [message.guild.me] and [channel.guild.me] where the guild is [None]. *)
Definition no_guild : exn :=
  attribute_error "'NoneType' object has no attribute 'me'".

(** The content of a message: an f-string kept as its fragments. *)
Inductive frag :=
| Lit (s : string)          (* literal text *)
| Val (s : string)          (* an interpolated string: a file name, str(e) *)
| Num (n : Z)               (* an interpolated integer *)
| MB (bytes : N)            (* a size formatted in megabytes *)
| Mention (c : chan).       (* c.mention *)

Definition text := list frag.

Definition is_mention (f : frag) : bool :=
  match f with Mention _ => true | _ => false end.

(** The text shows a mention of some channel or thread. *)
Definition mentions (t : text) : bool := existsb is_mention t.

Record attachment := {
  att_id : N;
  filename : string;
  size : N
}.

(** The permissions of the bot in a channel, as [permissions_for] gives
    them. *)
Record permissions := {
  send_messages : bool;
  attach_files : bool;
  create_public_threads : bool;
  manage_threads : bool;
  manage_messages : bool
}.

(** An incoming message.  [author_is_bot] tells whether the author is the
    bot itself.  [bot_member] is [channel.guild.me], the member the bot is
    in the guild of the message, with its permissions in the channel;
    it is [None] for a message that has no guild, a direct message: every
    channel of discord.py 2 has the attribute [guild], which is [None]
    there, so that reading [.me] raises [AttributeError]. *)
Record message := {
  msg_id : N;
  author_is_bot : bool;
  channel : chan;
  content : string;
  attachments : list attachment;
  bot_member : option permissions
}.

(** A message found by [channel.history]. *)
Record hmsg := {
  h_id : N;
  h_author_bot : bool;
  h_thread_created : bool;   (* msg.type == MessageType.thread_created *)
  h_after : bool;            (* msg.created_at > message.created_at *)
  h_content : string
}.

(** What PyMuPDF makes of the bytes of an attachment: [None] when
    [fitz.open] raises, else one flag per page telling whether the page
    renders (watermark, pixmap, PNG bytes) without an exception. *)
Definition pdf_bytes := option (list bool).

(** What [convert_docx_to_images] makes of the bytes: [None] when python-docx
    or Pillow raise, else the number of page images. *)
Definition docx_bytes := option nat.

Inductive view_arg :=
| KeepView                  (* edit(content=...) *)
| NoView                    (* edit(..., view=None) *)
| WithView (k : kind).      (* edit(..., view=view) *)

(** The YouTube API answer kept by [get_video_details]. *)
Record video_details := {
  yt_title : string;
  yt_description : string
}.

(** The three ways [get_website_metadata] fetches a page. *)
Inductive strategy := Standard | Mobile | Selenium.

(** What [extract_metadata_from_html] reads in a page. *)
Record page_data := {
  p_title : option string;
  p_description : option string;
  p_image : option string;
  p_favicon : option string
}.

(** A [discord.Embed] as [create_referral_embed] fills it. *)
Inductive color := red | blue.

Record embed := {
  e_title : string;
  e_description : string;
  e_url : string;
  e_color : color;
  e_image : option string;
  e_footer : string;
  e_icon : option string
}.

(** ** Awaited calls

    One constructor per call that leaves the handler, indexed by the type
    of its result. *)
Inductive call : Type -> Type :=
| Send (c : chan) (content : text) : call unit
| SendFile (c : chan) (caption : text) (file : string) : call unit
| Reply (content : text) : call unit
| EditStatus (content : option text) (v : view_arg) : call unit
| DeleteStatus : call unit
| DeleteSource : call unit
| DeleteThread (t : chan) : call unit
| DeleteMessage (id : N) : call unit
| History (c : chan) (after_source : bool) : call (list hmsg)
| CreateThread (parent : chan) (name : string) : call N
| ReadPdf (a : attachment) : call pdf_bytes
| ReadDocx (a : attachment) : call docx_bytes
| Defer : call unit
| EditInteraction : call unit
| Sleep (d : Q) : call unit
(* mp4_handler.py: the attachment written to a file, ffmpeg, the file system *)
| ReadVideo (a : attachment) : call unit
| RunFfmpeg : call unit                 (* process_video(input, output) *)
| OutputSize : call N                   (* os.path.getsize(output_file) *)
(* lines 259-296: ffmpeg -i and the duration read in its output; the
   answer is os.path.getsize(input_file) and int(total_seconds / 180) *)
| ProbeVideo : call (N * nat)
(* lines 338-341: ffmpeg cuts segment i; the size of the file *)
| CutSegment (i : nat) : call N
(* lines 362-365: ffmpeg compresses segment i; the size of the file *)
| CompressSegment (i : nat) : call N
(* line 383: ffmpeg compresses segment i once more *)
| FinalSegment (i : nat) : call unit
| SegmentSize (i : nat) : call N        (* os.path.getsize(segment_file) *)
(* youtube_handler.py *)
| GetVideoDetails (video_id : string) : call (option video_details)
(* referral_handler.py *)
| Fetch (st : strategy) (url : string) : call string
| Soup (html url : string) : call page_data
| SendEmbed (c : chan) (e : embed) : call unit
(* bot.py: ctx.send(embed=embed) with the embed of the help command *)
| SendHelp (c : chan) : call unit.

Inductive answer (A : Type) :=
| Returns (a : A)
| Raises (e : exn).
Arguments Returns {A} a.
Arguments Raises {A} e.

(** The log of a run, oldest call first.  [Pending c]: the deadline of the
    enclosing [asyncio.wait_for] passed while [c] was awaited. *)
Inductive event :=
| Called {A : Type} (c : call A) (r : answer A)
| Pending {A : Type} (c : call A).

(** The platform seen from a handler: what each call answers, given the
    calls made before it, and whether the deadline of a running [wait_for]
    passes while the call is pending.  [os_path_nt] tells whether
    [os.path] is ntpath, as it is on Windows.  [command] is the name of
    the command discord.py finds in a message ([get_context]): none when
    the author is a bot, when the text does not start with the prefix
    "!", or when the word after the prefix names no command. *)
Record world := {
  reply : forall A, list event -> call A -> answer A;
  deadline : forall A, list event -> call A -> bool;
  os_path_nt : bool;
  command : message -> option string
}.

(** ** The monad of coroutines *)

(** The state a coroutine runs in: the log, and the two module-level sets
    [_processed_pdf_messages] (message ids) and [processed_files]
    (attachment ids). *)
Record state := {
  log : list event;
  processed_pdf_messages : gset N;
  processed_files : gset N
}.

Definition initial : state :=
  {| log := []; processed_pdf_messages := ∅; processed_files := ∅ |}.

Definition record (ev : event) (s : state) : state :=
  {| log := log s ++ [ev];
     processed_pdf_messages := processed_pdf_messages s;
     processed_files := processed_files s |}.

(** A coroutine returns, raises an [Exception], or is cancelled by the
    deadline of a [wait_for] ([asyncio.CancelledError], which
    [except Exception] does not catch). *)
Inductive res (A : Type) :=
| Ret (a : A)
| Raise (e : exn)
| Cancel.
Arguments Ret {A} a.
Arguments Raise {A} e.
Arguments Cancel {A}.

Definition M (A : Type) : Type := state -> res A * state.

Definition ret {A} (a : A) : M A := fun s => (Ret a, s).

Definition bind {A B} (m : M A) (k : A -> M B) : M B :=
  fun s =>
    match m s with
    | (Ret a, s') => k a s'
    | (Raise e, s') => (Raise e, s')
    | (Cancel, s') => (Cancel, s')
    end.

Definition raise {A} (e : exn) : M A := fun s => (Raise e, s).

Declare Scope coroutine_scope.
Delimit Scope coroutine_scope with M.
Notation "x <- m ;; k" := (bind m (fun x => k))
  (at level 100, m at next level, k at level 200, right associativity)
  : coroutine_scope.
Notation "m ;; k" := (bind m (fun _ => k))
  (at level 100, k at level 200, right associativity) : coroutine_scope.
Local Open Scope coroutine_scope.

(** [try: m  except Exception as e: h e], followed by [k] when [m] returns.
    The handler is the one of the [try] statement at the point reached, so
    it can be given the local variables bound so far. *)
Definition try_then {A B} (m : M A) (h : exn -> M B) (k : A -> M B) : M B :=
  fun s =>
    match m s with
    | (Ret a, s') => k a s'
    | (Raise e, s') => h e s'
    | (Cancel, s') => (Cancel, s')
    end.

(** [try: m  except Exception as e: h e] *)
Definition try_except {A} (m : M A) (h : exn -> M A) : M A :=
  try_then m h ret.

(** [try: m  finally: f] *)
Definition try_finally {A} (m : M A) (f : M unit) : M A :=
  fun s =>
    match m s with
    | (r, s') =>
        match f s' with
        | (Ret _, s'') => (r, s'')
        | (Raise e, s'') => (Raise e, s'')
        | (Cancel, s'') => (Cancel, s'')
        end
    end.

(** [await asyncio.wait_for(m, timeout)]: a cancellation of [m] by the
    deadline comes out as [TimeoutError]. *)
Definition wait_for {A} (m : M A) : M A :=
  fun s =>
    match m s with
    | (Cancel, s') => (Raise timeout_error, s')
    | r => r
    end.

Section Awaits.

Variable w : world.

(** [await c] with no deadline running. *)
Definition await {A} (c : call A) : M A :=
  fun s =>
    match reply w A (log s) c with
    | Returns a => (Ret a, record (Called c (Returns a)) s)
    | Raises e => (Raise e, record (Called c (Raises e)) s)
    end.

(** [await c] inside a [wait_for]. *)
Definition await_within {A} (c : call A) : M A :=
  fun s =>
    if deadline w A (log s) c then (Cancel, record (Pending c) s)
    else await c s.

(** [await asyncio.sleep(d)]: never raises. *)
Definition sleep (d : Q) : M unit :=
  fun s => (Ret tt, record (Called (Sleep d) (Returns tt)) s).

Definition sleep_within (d : Q) : M unit :=
  fun s =>
    if deadline w unit (log s) (Sleep d) then (Cancel, record (Pending (Sleep d)) s)
    else sleep d s.

End Awaits.

(** ** ThreadCreator: [create_thread_with_retry]

    The method is written out four times (pdf_handler.py 214-246,
    docx_handler.py 357-421, image_handler.py 172-236, mp4_handler.py
    438-490).  The retry loop is the same in the four; the search for the
    "thread created" notification differs between the PDF view and the
    three others. *)

Module ThreadCreator.

Definition max_retries : nat := 3.

(** pdf_handler.py 229: a message of a bot, later than the source, whose
    lowered content has "thread". *)
Definition is_notification_pdf (m : hmsg) : bool :=
  h_author_bot m && h_after m && Py.contains "thread" (Py.lower (h_content m)).

(** docx_handler.py 390-397 (and the image and video views): the system
    message type, or a bot message telling that the thread was started. *)
Definition is_notification (name : string) (m : hmsg) : bool :=
  h_thread_created m
  || (h_author_bot m
      && Py.contains "started a thread" (h_content m)
      && Py.contains name (h_content m)).

Section WithWorld.

Variable w : world.
(** the view that runs the method: [pdf] for [PDFOptionsView] *)
Variable k : kind.
(** [self.message.channel] *)
Variable parent : chan.

Definition notification (name : string) (m : hmsg) : bool :=
  match k with
  | pdf => is_notification_pdf m
  | _ => is_notification name m
  end.

(** The inner [try] after a successful creation: scan the last ten
    messages, delete the first notification found; every exception is
    logged and dropped. *)
Definition suppress_notification (name : string) : M unit :=
  try_except
    (msgs <- await w (History parent (match k with pdf => true | _ => false end)) ;;
     match find (notification name) (firstn 10 msgs) with
     | Some m => await w (DeleteMessage (h_id m))
     | None => ret tt
     end)
    (fun _ => ret tt).

(** The [for attempt in range(max_retries)] loop, over the attempt
    numbers still to run. *)
Fixpoint attempts (name : string) (todo : list nat) (retry_delay : Z)
  : M (option chan) :=
  match todo with
  | [] => ret None
  | attempt :: rest =>
      try_then
        (await w (CreateThread parent name))
        (fun e =>
           if isinstance e Forbidden then
             if (attempt =? max_retries - 1)%nat then ret None
             else
               (sleep (inject_Z retry_delay) ;;
                attempts name rest (retry_delay * 2))
           else ret None)
        (fun id =>
           sleep 2 ;;
           suppress_notification name ;;
           ret (Some (Thread id)))
  end.

Definition create_thread_with_retry (name : string) : M (option chan) :=
  attempts name (seq 0 max_retries) 2.

End WithWorld.

End ThreadCreator.

(** ** ChoicePrompt: the two buttons of a view

    [PDFOptionsView], [DOCXOptionsView], [ImageBatchView],
    [LocationOptionsView] and [YouTubeOptionsView] carry the same two
    callbacks, which differ in the workflow they start. *)

Module ChoicePrompt.

(** The fields of the view the callbacks read and write. *)
Record view := {
  button_clicked : bool;
  disabled : bool            (* item.disabled of the two buttons *)
}.

(** [__init__] *)
Definition new_view : view := {| button_clicked := false; disabled := false |}.

Inductive choice := create_thread | post_here.

Definition use_thread (c : choice) : bool :=
  match c with create_thread => true | post_here => false end.

Section WithWorld.

Variable w : world.
(** [process_pdf], [process_docx], [process_images], [process_video] or
    [process_youtube], by the flag [use_thread]. *)
Variable process : bool -> M unit.

(** The callback of either button.  The view is a shared object: the
    callback returns it as it leaves it, also when it raises. *)
Definition press (c : choice) (v : view) : M unit * view :=
  if button_clicked v then
    (await w Defer, v)
  else
    (await w EditInteraction ;; process (use_thread c),
     {| button_clicked := true; disabled := true |}).

(** A series of presses on one view.  An exception that leaves a
    callback ends that callback only: discord.py logs it, and the view
    goes on receiving presses. *)
Fixpoint presses (cs : list choice) (v : view) (s : state) : view * state :=
  match cs with
  | [] => (v, s)
  | c :: rest =>
      let (m, v') := press c v in
      presses rest v' (snd (m s))
  end.

End WithWorld.

End ChoicePrompt.

(** ** Reading a log *)

Module Log.

(** The state after the events [evs] have been added to the log. *)
Definition extend (evs : list event) (s : state) : state :=
  {| log := log s ++ evs;
     processed_pdf_messages := processed_pdf_messages s;
     processed_files := processed_files s |}.

(** The answer to a thread creation. *)
Definition creation (ev : event) : option (answer N) :=
  match ev with
  | @Called A c r =>
      match c in call T return answer T -> option (answer N) with
      | CreateThread _ _ => fun r => Some r
      | _ => fun _ => None
      end r
  | Pending _ => None
  end.

(** The duration of a sleep. *)
Definition slept (ev : event) : option Q :=
  match ev with
  | Called (Sleep d) _ => Some d
  | _ => None
  end.

(** A thread creation or a sleep, in the order of the log; every other
    event is left out. *)
Definition attempt (ev : event) : option (answer N + Q) :=
  match creation ev with
  | Some r => Some (inl r)
  | None =>
      match slept ev with
      | Some d => Some (inr d)
      | None => None
      end
  end.

(** The creations [outs] with what is waited around them: after each
    creation but the last, the next of [delays]; after a last creation
    that succeeded, 2 seconds; after a last creation that failed,
    nothing. *)
Fixpoint schedule (outs : list (answer N)) (delays : list Q)
  : list (answer N + Q) :=
  match outs, delays with
  | [], _ => []
  | [r], _ =>
      inl r :: match r with Returns _ => [inr 2%Q] | Raises _ => [] end
  | r :: rest, d :: ds => inl r :: inr d :: schedule rest ds
  | r :: rest, [] => inl r :: schedule rest []
  end.

(** The name of a file that reached the channel [c]: a [send(file=...)]
    that returned. *)
Definition delivered_to (c : chan) (ev : event) : option string :=
  match ev with
  | Called (SendFile c' _ f) (Returns _) =>
      if chan_neb c' c then None else Some f
  | _ => None
  end.

(** A file was handed to [send], whatever came of it. *)
Definition is_upload (ev : event) : bool :=
  match ev with
  | Called (SendFile _ _ _) _ | Pending (SendFile _ _ _) => true
  | _ => false
  end.

(** A press that is acknowledged and nothing more:
    [interaction.response.defer()]. *)
Definition is_defer (ev : event) : bool :=
  match ev with
  | Called Defer _ => true
  | _ => false
  end.

(** A page was fetched: one of the three strategies returned. *)
Definition fetched (ev : event) : bool :=
  match ev with
  | Called (Fetch _ _) (Returns _) => true
  | _ => false
  end.

(** The file the event hands to [send], if any, goes to the channel [c]. *)
Definition to_channel (c : chan) (ev : event) : bool :=
  match ev with
  | Called (SendFile c' _ _) _ | Pending (SendFile c' _ _) => negb (chan_neb c' c)
  | _ => true
  end.

(** The event does not ask for a status that mentions a thread. *)
Definition no_mention (ev : event) : bool :=
  match ev with
  | Called (EditStatus (Some t) _) _ => negb (mentions t)
  | _ => true
  end.

(** What every event of a workflow that fell back to the channel [c] has
    to satisfy. *)
Definition fallback_ok (c : chan) (ev : event) : bool :=
  to_channel c ev && no_mention ev.

(** The event uploads nothing, leaves the status message alone and does
    not delete the source message. *)
Definition quiet (ev : event) : bool :=
  match ev with
  | Called (EditStatus _ _) _ | Called DeleteStatus _
  | Called DeleteSource _ => false
  | _ => negb (is_upload ev)
  end.

(** The source message is being deleted: the last step of a workflow that
    has not failed. *)
Definition deletes_source (ev : event) : bool :=
  match ev with
  | Called DeleteSource _ => true
  | _ => false
  end.

(** The source message is left alone. *)
Definition keeps_source (ev : event) : bool := negb (deletes_source ev).

(** Nothing is uploaded. *)
Definition no_upload (ev : event) : bool := negb (is_upload ev).


(** [e] is what the page loop takes for a rate limit: an [HTTPException]
    of code 429. *)
Definition is_rate_limit (e : exn) : bool :=
  isinstance e HTTPException && (code e =? 429)%Z.

(** A file was refused for another reason than a rate limit. *)
Definition hard_fail (ev : event) : bool :=
  match ev with
  | Called (SendFile _ _ _) (Raises e) => negb (is_rate_limit e)
  | _ => false
  end.

(** Nothing is uploaded after a file was refused for another reason than
    a rate limit. *)
Fixpoint halts (evs : list event) : bool :=
  match evs with
  | [] => true
  | ev :: rest =>
      (if hard_fail ev then forallb no_upload rest else true) && halts rest
  end.

(** A file reached its target. *)
Definition is_delivery (ev : event) : bool :=
  match ev with
  | Called (SendFile _ _ _) (Returns _) => true
  | _ => false
  end.

(** The name of a file handed to [send]. *)
Definition uploaded (ev : event) : option string :=
  match ev with
  | Called (SendFile _ _ f) _ | Pending (SendFile _ _ f) => Some f
  | _ => None
  end.

(** An upload was refused with an [HTTPException]. *)
Definition refused (ev : event) : bool :=
  match ev with
  | Called (SendFile _ _ _) (Raises e) => isinstance e HTTPException
  | _ => false
  end.

(** The exception a call raised. *)
Definition raised (ev : event) : option exn :=
  match ev with
  | Called _ (Raises e) => Some e
  | _ => None
  end.

(** The number of events that satisfy [p]. *)
Definition count (p : event -> bool) (evs : list event) : nat :=
  length (List.filter p evs).

(** The thread [t] was deleted. *)
Definition deletes_thread (t : chan) (ev : event) : bool :=
  match ev with
  | Called (DeleteThread t') _ => negb (chan_neb t' t)
  | _ => false
  end.

(** No thread is deleted. *)
Definition keeps_threads (ev : event) : bool :=
  match ev with
  | Called (DeleteThread _) _ | Pending (DeleteThread _) => false
  | _ => true
  end.

(** What a call does to the status message: [Some (Some t)] when the
    status is edited to the content [t], [Some None] when it is deleted. *)
Definition status_change (ev : event) : option (option text) :=
  match ev with
  | Called (EditStatus (Some t) _) (Returns _) => Some (Some t)
  | Called DeleteStatus (Returns _) => Some None
  | _ => None
  end.

(** Every content the status message was given, oldest first; [None]
    stands for its deletion. *)
Definition statuses (evs : list event) : list (option text) :=
  omap status_change evs.

(** The status message as the run leaves it. *)
Definition final_status (evs : list event) : option (option text) :=
  last (statuses evs).

(** No content shown in the status message mentions a thread. *)
Definition never_mentions (evs : list event) : bool :=
  forallb (fun st => match st with Some t => negb (mentions t) | None => true end)
          (statuses evs).


(** What a run that uploads files, or a part of it, has to satisfy:
    nothing is uploaded after a refusal that is not a rate limit, such a
    refusal is raised, and none has occurred when the run returns. *)
Definition stops {A} (r : res A) (evs : list event) : Prop :=
  halts evs = true
  /\ (existsb hard_fail evs = true -> exists e, r = Raise e)
  /\ (forall u, r = Ret u -> existsb hard_fail evs = false).


(** The status the PDF workflow asks for when it has failed. *)
Definition failure_status (ev : event) : bool :=
  match ev with
  | Called (EditStatus (Some (Lit s :: _)) _) _ =>
      String.eqb s "⚠️ Permission error: "
      || String.eqb s "❌ PDF processing timed out after 5 minutes."
      || String.eqb s "❌ Error processing PDF: "
  | _ => false
  end.

(** Nothing is uploaded after a refusal that is not a rate limit, and
    after such a refusal the workflow asks for its failure status. *)
Definition fails_cleanly (evs : list event) : Prop :=
  halts evs = true
  /\ (existsb hard_fail evs = true -> existsb failure_status evs = true).

End Log.

(** A world in which no thread can be created: every call of
    [create_thread] raises. *)
Definition creation_fails (w : world) : Prop :=
  forall l parent name, exists e, reply w N l (CreateThread parent name) = Raises e.

(** ** Worlds to run the handlers in *)

Module Worlds.

(** Every call succeeds: a new thread gets the id 7000, the attachment is
    a document of two pages, the history is empty, a converted video has
    6 MB, a video that has to be cut has 30 MB and lasts less than three
    minutes, a segment has 4 MB, a page has a title, no deadline passes. *)
Definition calm_reply (A : Type) (c : call A) : answer A :=
  match c in call T return answer T with
  | Send _ _ | SendFile _ _ _ | Reply _ | EditStatus _ _ | DeleteStatus
  | DeleteSource | DeleteThread _ | DeleteMessage _ | Defer
  | EditInteraction | Sleep _ => Returns tt
  | ReadVideo _ | RunFfmpeg | SendEmbed _ _ | SendHelp _
  | FinalSegment _ => Returns tt
  | History _ _ => Returns []
  | CreateThread _ _ => Returns 7000%N
  | ReadPdf _ => Returns (Some [true; true])
  | ReadDocx _ => Returns (Some 2)
  | OutputSize => Returns (6 * 1024 * 1024)%N
  | ProbeVideo => Returns ((30 * 1024 * 1024)%N, 0)
  | CutSegment _ | CompressSegment _ | SegmentSize _ =>
      Returns (4 * 1024 * 1024)%N
  | GetVideoDetails _ =>
      Returns (Some {| yt_title := "A video"; yt_description := "About it" |})
  | Fetch _ _ => Returns "<html><title>A page</title></html>"
  | Soup _ _ =>
      Returns {| p_title := Some "A page"; p_description := None;
                 p_image := None; p_favicon := None |}
  end.

(** The command of a message of the examples: "help" for the text "!help",
    alone or followed by a blank, of an author that is not the bot. *)
Definition help_invoked (m : message) : option string :=
  if negb (author_is_bot m)
     && (String.eqb (content m) "!help" || Py.startswith "!help " (content m))
  then Some "help" else None.

(** A world with the answers [r], in which no deadline passes, on a
    system where [os.path] is posixpath. *)
Definition answering (r : forall A, list event -> call A -> answer A) : world :=
  {| reply := r;
     deadline := fun _ _ _ => false;
     os_path_nt := false;
     command := help_invoked |}.

Definition calm : world := answering (fun A _ c => calm_reply A c).

(** The same on Windows. *)
Definition calm_nt : world :=
  {| reply := fun A _ c => calm_reply A c;
     deadline := fun _ _ _ => false;
     os_path_nt := true;
     command := help_invoked |}.

(** discord.py's [Forbidden]: HTTP 403, JSON error code 50013. *)
Definition forbidden : exn :=
  mk_exn Forbidden 50013 "403 Forbidden (error code: 50013): Missing Permissions".

(** A world in which the bot may not create threads. *)
Definition no_threads : world :=
  answering (fun A _ c =>
       match c in call T return answer T with
       | CreateThread _ _ => Raises forbidden
       | c' => calm_reply _ c'
       end).

End Worlds.

(** ** Configuration

    The values the modules read from the environment when they are loaded. *)
Record config := {
  MAX_FILE_SIZE : N;                  (* MAX_PDF_SIZE, by default 8 MB *)
  REFERRAL_CHANNEL_ID : option N;     (* None when unset or empty *)
  SELENIUM_AVAILABLE : bool           (* whether selenium could be imported *)
}.

Definition default_config : config :=
  {| MAX_FILE_SIZE := 8 * 1024 * 1024;
     REFERRAL_CHANNEL_ID := None;
     SELENIUM_AVAILABLE := false |}.

(** [', '.join(l)] *)
Fixpoint join (sep : string) (l : list string) : string :=
  match l with
  | [] => EmptyString
  | [a] => a
  | a :: rest => a ++ sep ++ join sep rest
  end.

(** The names of the permissions that are missing, in the order of the
    checks, each check paired with the name it reports. *)
Definition missing (checks : list (bool * string)) : list string :=
  map snd (List.filter (fun c => negb (fst c)) checks).

(** [_processed_pdf_messages.add(id)] and [.remove(id)] *)
Definition add_processed_pdf (id : N) : M unit :=
  fun s => (Ret tt,
            {| log := log s;
               processed_pdf_messages := {[id]} ∪ processed_pdf_messages s;
               processed_files := processed_files s |}).

Definition remove_processed_pdf (id : N) : M unit :=
  fun s => (Ret tt,
            {| log := log s;
               processed_pdf_messages := processed_pdf_messages s ∖ {[id]};
               processed_files := processed_files s |}).

Definition add_processed_file (id : N) : M unit :=
  fun s => (Ret tt,
            {| log := log s;
               processed_pdf_messages := processed_pdf_messages s;
               processed_files := {[id]} ∪ processed_files s |}).

Definition in_processed_pdf (id : N) : M bool :=
  fun s => (Ret (bool_decide (id ∈ processed_pdf_messages s)), s).

Definition in_processed_files (id : N) : M bool :=
  fun s => (Ret (bool_decide (id ∈ processed_files s)), s).

(** ** Image batches: image_handler.py *)

Module Image.

Definition IMAGE_EXTENSIONS : list string :=
  [".png"; ".jpg"; ".jpeg"; ".gif"; ".webp"; ".bmp"; ".tiff"].

(** [ext in IMAGE_EXTENSIONS] for the extension [os.path.splitext] cuts
    off the lowered file name *)
Definition is_image (nt : bool) (a : attachment) : bool :=
  existsb (String.eqb (snd (Py.splitext nt (Py.lower (filename a)))))
          IMAGE_EXTENSIONS.

Definition image_attachments (nt : bool) (m : message) : list attachment :=
  List.filter (is_image nt) (attachments m).

(** The permissions [handle_image_batch] checks, each with the name it
    reports. *)
Definition checks (p : permissions) : list (bool * string) :=
  [(send_messages p, "Send Messages");
   (attach_files p, "Attach Files");
   (manage_messages p, "Manage Messages")].

Section WithWorld.

Variable w : world.

Definition handle_image_batch (m : message) : M bool :=
  match attachments m with
  | [] => ret false
  | _ =>
      let images := image_attachments (os_path_nt w) m in
      if (length images <? 2)%nat then ret false
      else
        match bot_member m with
        | None => raise no_guild
        | Some p =>
            match missing (checks p) with
            | _ :: _ as missing_permissions =>
                await w (Send (channel m)
                   [Lit "⚠️ Bot lacks required permissions: ";
                    Val (join ", " missing_permissions);
                    Lit ". Please ensure the bot has these permissions in this channel."]) ;;
                ret false
            | [] =>
                try_except
                  (await w (Send (channel m)
                     [Lit "Found "; Num (Z.of_nat (length images));
                      Lit " images. Choose an option:"]) ;;
                   await w (EditStatus None (WithView image_batch)) ;;
                   ret true)
                  (fun _ => ret false)
            end
        end
  end.

End WithWorld.

End Image.

(** ** PDF documents: pdf_handler.py *)

Module Pdf.

(** [f"page_{i}.png"] *)
Definition page_file (i : nat) : string :=
  "page_" ++ Py.str_of_nat i ++ ".png".

Definition fallback_warning : text :=
  [Lit "⚠️ Could not create thread. Posted PDF in current channel instead."].

(** [e.retry_after] for an [HTTPException] [e] *)
Definition no_retry_after : exn :=
  attribute_error "'HTTPException' object has no attribute 'retry_after'".

(** [get_first_page]: whether the first page could be rendered; every
    exception (an empty document included) gives [None]. *)
Definition get_first_page (b : pdf_bytes) : bool :=
  match b with
  | Some (true :: _) => true
  | _ => false
  end.

Section WithWorld.

Variable w : world.
Variable cfg : config.

(** Lines 50-58: send one page.  The handler of [HTTPException] raises
    the exception again unless its code is 429.  For the code 429 it
    first writes a log line with [e.retry_after], which no [HTTPException]
    has: the read raises [AttributeError], and the sleep and the second
    send of lines 55-56 are never reached. *)
Definition send_page (target : chan) (i : nat) : M unit :=
  try_except
    (await_within w (SendFile target [] (page_file i)))
    (fun e =>
       if isinstance e HTTPException then
         if (code e =? 429)%Z then raise no_retry_after
         else raise e
       else raise e).

(** The loop [for i, page in enumerate(doc, start=1)], at page [i]. *)
Fixpoint upload_pages (target : chan) (use_thread : bool) (start_idx : nat)
    (i : nat) (pages : list bool) : M unit :=
  match pages with
  | [] => ret tt
  | renders :: rest =>
      (if (i <=? start_idx)%nat && use_thread then ret tt
       else if renders then send_page target i
       else raise (exception "page cannot be rendered")) ;;
      upload_pages target use_thread start_idx (S i) rest
  end.

(** Lines 27-31: [start_idx = 1 if use_thread and isinstance(target,
    discord.Thread) else 0], the pages the loop leaves to the caller. *)
Definition start_idx (target : chan) (use_thread : bool) : nat :=
  if use_thread && is_thread target then 1 else 0.

(** The ways [send_page] can go, by its result and the one event it adds
    to the log: the page is sent; or the deadline passes during the send;
    or the send is refused, and an exception is raised. *)
Definition page_run (target : chan) (i : nat) (r : res unit)
    (evs : list event) : Prop :=
  let send := SendFile target [] (page_file i) in
  (r = Ret tt /\ evs = [Called send (Returns tt)])
  \/ (r = Cancel /\ evs = [Pending send])
  \/ (exists e,
        r = Raise (if Log.is_rate_limit e then no_retry_after else e)
        /\ evs = [Called send (Raises e)]).

Definition convert_and_upload_pdf (b : pdf_bytes) (target : chan)
    (use_thread : bool) : M bool :=
  try_except
    (match b with
     | None => raise (exception "cannot open document")
     | Some pages =>
         upload_pages target use_thread (start_idx target use_thread) 1 pages ;;
         ret true
     end)
    (fun _ => ret false).

Section View.

(** [self.message] and [self.attachment] of the view *)
Variable m : message.
Variable a : attachment.

Definition safe_edit_processing_msg (content : text) : M unit :=
  try_except
    (sleep (1 # 2) ;;
     await w (EditStatus (Some content) KeepView))
    (fun _ => await w (Send (channel m) content)).

(** The three [except] clauses of [process_pdf]; [target] is the local
    variable of that name, [None] while it is not bound yet. *)
Definition on_error (use_thread : bool) (target : option chan) (e : exn)
  : M unit :=
  if isinstance e Forbidden then
    safe_edit_processing_msg [Lit "⚠️ Permission error: "; Val (str e)]
  else if isinstance e TimeoutError then
    safe_edit_processing_msg [Lit "❌ PDF processing timed out after 5 minutes."]
  else
    safe_edit_processing_msg [Lit "❌ Error processing PDF: "; Val (str e)] ;;
    match target with
    | Some t =>
        if use_thread && is_thread t then
          try_except (await w (DeleteThread t)) (fun _ => ret tt)
        else ret tt
    | None => ret tt
    end.

(** Lines 101-118: the target and the final message. *)
Definition resolve_target (use_thread : bool) : M (chan * option text) :=
  if use_thread then
    try_except
      (t <- ThreadCreator.create_thread_with_retry w pdf (channel m)
              (thread_name (filename a)) ;;
       match t with
       | None => ret (channel m, Some fallback_warning)
       | Some t => ret (t, Some [Mention t])
       end)
      (fun _ => ret (channel m, Some fallback_warning))
  else ret (channel m, None).

(** Lines 120-151: the first page of a new thread, the other pages,
    the final status and the deletion of the source message. *)
Definition deliver (use_thread : bool) (b : pdf_bytes) (target : chan)
    (final_message : option text) : M unit :=
  (if use_thread && is_thread target && chan_neb target (channel m) then
     if get_first_page b then await w (SendFile target [] "page_1.png")
     else ret tt
   else ret tt) ;;
  success <- wait_for (convert_and_upload_pdf b target use_thread) ;;
  (if success then ret tt
   else raise (value_error "Failed to convert/upload PDF")) ;;
  sleep (1 # 2) ;;
  try_except
    (match final_message with
     | Some t => await w (EditStatus (Some t) KeepView)
     | None => await w DeleteStatus
     end)
    (fun e =>
       if isinstance e NotFound then
         match final_message with
         | Some t => await w (Send (channel m) t)
         | None => ret tt
         end
       else raise e) ;;
  try_except (await w DeleteSource) (fun _ => ret tt).

Definition process_pdf (use_thread : bool) : M unit :=
  try_finally
    (try_then
       (await w (EditStatus (Some [Lit "Converting PDF to images..."]) NoView) ;;
        await w (ReadPdf a))
       (on_error use_thread None)
       (fun b =>
          try_then
            (resolve_target use_thread)
            (on_error use_thread (Some (channel m)))
            (fun '(target, final_message) =>
               try_except
                 (deliver use_thread b target final_message)
                 (on_error use_thread (Some target)))))
    (remove_processed_pdf (msg_id m)).

End View.

Definition is_pdf (a : attachment) : bool :=
  Py.endswith ".pdf" (Py.lower (filename a)).

(** The permissions [handle_pdf] checks, each with the name it reports. *)
Definition checks (p : permissions) : list (bool * string) :=
  [(send_messages p, "Send Messages");
   (attach_files p, "Attach Files");
   (create_public_threads p, "Create Public Threads");
   (manage_threads p, "Manage Threads")].

Definition handle_pdf (m : message) : M bool :=
  seen <- in_processed_pdf (msg_id m) ;;
  if seen : bool then ret true
  else
    match List.filter is_pdf (attachments m) with
    | [] => ret false
    | a :: _ =>
        add_processed_pdf (msg_id m) ;;
        if (MAX_FILE_SIZE cfg <? size a)%N then
          await w (Send (channel m)
             [Lit "⚠️ PDF too large: "; Val (filename a); Lit " (max ";
              Num (Z.of_N (MAX_FILE_SIZE cfg / 1024 / 1024)); Lit "MB)"]) ;;
          remove_processed_pdf (msg_id m) ;;
          ret true
        else
          match bot_member m with
          | None => raise no_guild
          | Some p =>
              match missing (checks p) with
              | _ :: _ as missing_permissions =>
                  await w (Send (channel m)
                     [Lit "⚠️ Bot lacks required permissions: ";
                      Val (join ", " missing_permissions); Lit "."]) ;;
                  remove_processed_pdf (msg_id m) ;;
                  ret true
              | [] =>
                  try_except
                    (await w (Send (channel m)
                                [Lit "Choose an option for this PDF:"]) ;;
                     await w (EditStatus None (WithView pdf)) ;;
                     ret true)
                    (fun _ => remove_processed_pdf (msg_id m) ;; ret false)
              end
          end
    end.

End WithWorld.

End Pdf.

(** ** Word documents: docx_handler.py *)

Module Docx.

Definition fallback_warning : text :=
  [Lit "⚠️ Could not create thread. Posted DOCX in current channel instead."].

Section WithWorld.

Variable w : world.

(** The loop of [post_images] over [images[start_idx:]], at page [i]
    with [n] images left. *)
Fixpoint post_rest (target : chan) (i n : nat) : M unit :=
  match n with
  | 0 => ret tt
  | S n' =>
      await w (SendFile target [] (Pdf.page_file i)) ;;
      sleep (1 # 2) ;;
      post_rest target (S i) n'
  end.

(** [post_images(target, images, use_thread)] for [k] images *)
Definition post_images (target : chan) (k : nat) (use_thread : bool) : M unit :=
  try_except
    (let start_idx := if use_thread && is_thread target then 1 else 0 in
     (if use_thread && is_thread target && (0 <? k)%nat then
        await w (SendFile target [] "page_1.png")
      else ret tt) ;;
     post_rest target (start_idx + 1) (k - start_idx))
    (fun e => raise (exception ("Error posting images: " ++ str e))).

Section View.

Variable m : message.
Variable a : attachment.

(** The two [except] clauses of [process_docx]. *)
Definition on_error (use_thread : bool) (target : option chan) (e : exn)
  : M unit :=
  if isinstance e Forbidden then
    await w (EditStatus (Some [Lit "⚠️ Permission error: "; Val (str e)]) KeepView)
  else
    await w (EditStatus (Some [Lit "❌ Error processing DOCX: "; Val (str e)]) KeepView) ;;
    match target with
    | Some t =>
        if use_thread && is_thread t then
          try_except (await w (DeleteThread t)) (fun _ => ret tt)
        else ret tt
    | None => ret tt
    end.

(** Lines 291-295: the conversion comes first. *)
Definition convert : M nat :=
  await w (EditStatus (Some [Lit "Converting DOCX to images..."]) NoView) ;;
  b <- await w (ReadDocx a) ;;
  match b with
  | Some (S k) => ret (S k)
  | _ => raise (value_error
                  "Failed to convert DOCX to images or document is empty")
  end.

Definition resolve_target (use_thread : bool) : M (chan * option text) :=
  if use_thread then
    try_except
      (t <- ThreadCreator.create_thread_with_retry w docx (channel m)
              (thread_name (filename a)) ;;
       match t with
       | None => ret (channel m, Some fallback_warning)
       | Some t => ret (t, Some [Mention t])
       end)
      (fun _ => ret (channel m, Some fallback_warning))
  else ret (channel m, None).

Definition deliver (use_thread : bool) (k : nat) (target : chan)
    (final_message : option text) : M unit :=
  post_images target k use_thread ;;
  match final_message with
  | Some t => await w (EditStatus (Some t) KeepView)
  | None => await w DeleteStatus
  end ;;
  try_except (await w DeleteSource) (fun _ => ret tt).

Definition process_docx (use_thread : bool) : M unit :=
  try_then convert
    (on_error use_thread None)
    (fun k =>
       try_then
         (resolve_target use_thread)
         (on_error use_thread None)
         (fun '(target, final_message) =>
            try_except
              (deliver use_thread k target final_message)
              (on_error use_thread (Some target)))).

End View.

Definition is_docx (a : attachment) : bool :=
  Py.endswith ".docx" (Py.lower (filename a)).

(** The permissions [handle_docx] checks, each with the name it reports. *)
Definition checks (p : permissions) : list (bool * string) :=
  [(send_messages p, "Send Messages");
   (attach_files p, "Attach Files")].

Definition handle_docx (m : message) : M bool :=
  match List.filter is_docx (attachments m) with
  | [] => ret false
  | a :: _ =>
      if (8 * 1024 * 1024 <? size a)%N then
        await w (Send (channel m)
           [Lit "⚠️ DOCX too large: "; Val (filename a); Lit " (max 8MB)"]) ;;
        ret true
      else
        match bot_member m with
        | None => raise no_guild
        | Some p =>
            match missing (checks p) with
            | _ :: _ as missing_permissions =>
                await w (Send (channel m)
                   [Lit "⚠️ Bot lacks required permissions: ";
                    Val (join ", " missing_permissions);
                    Lit ". Please ensure the bot has these permissions in this channel."]) ;;
                ret true
            | [] =>
                try_except
                  (await w (Send (channel m)
                              [Lit "Choose an option for this DOCX:"]) ;;
                   await w (EditStatus None (WithView docx)) ;;
                   ret true)
                  (fun _ => ret false)
            end
        end
  end.

End WithWorld.

End Docx.

(** ** Videos: mp4_handler.py *)

Module Mp4.

Definition MAX_FILE_SIZE_BYTES : N := 500 * 1024 * 1024.
(** [processed_size <= DISCORD_SIZE_LIMIT_MB], on the size in bytes *)
Definition DISCORD_SIZE_LIMIT_BYTES : N := 25 * 1024 * 1024.

Definition newline : string := String (ascii_of_nat 10) EmptyString.

(** [re.search(r'\.(mov|mp4)$', name, re.IGNORECASE)]: the extension ends
    the name, or comes just before a final newline. *)
Definition is_video (a : attachment) : bool :=
  let f := Py.lower (filename a) in
  Py.endswith ".mov" f || Py.endswith ".mp4" f
  || Py.endswith (".mov" ++ newline) f || Py.endswith (".mp4" ++ newline) f.

(** Line 159: the name of the converted file. *)
Definition mp4_name (name : string) : string :=
  let dot := Py.rfind "." name in
  if (0 <=? dot)%Z then Py.take (Z.to_nat dot) name ++ ".mp4"
  else name ++ ".mp4".

(** Lines 398-399: [f"{base_name}_part{i+1}of{segments}.mp4"] *)
Definition segment_name (nt : bool) (file_name : string) (i segments : nat)
  : string :=
  fst (Py.splitext nt file_name) ++ "_part" ++ Py.str_of_nat (i + 1)
    ++ "of" ++ Py.str_of_nat segments ++ ".mp4".

Definition fallback_warning : text :=
  [Lit "⚠️ Could not create thread. Posting video in channel instead..."].

(** [MAX_SEGMENT_SIZE_MB], in bytes *)
Definition MAX_SEGMENT_SIZE_BYTES : N := 8 * 1024 * 1024.

(** Lines 281-288: the number of segments, for the size of the input file
    in bytes and [int(total_seconds / 180)].  The size in megabytes is a
    float, but an exact one, so that [int(file_size_mb / 8)] is the
    quotient of the integers. *)
Definition segment_count (input_size : N) (duration_based_segments : nat)
  : nat :=
  let segments :=
    Nat.max 6 (Nat.min (N.to_nat (input_size / MAX_SEGMENT_SIZE_BYTES)) 15) in
  let segments := Nat.max segments duration_based_segments in
  Nat.min segments 20.

(** Line 404: the caption of a segment; line 410: the notice sent when
    the segment was refused. *)
Definition caption (i segments : nat) : text :=
  [Lit "Video part "; Num (Z.of_nat (i + 1)); Lit " of ";
   Num (Z.of_nat segments)].

Definition failure_notice (i segments : nat) (segment_size : N) : text :=
  [Lit "⚠️ Failed to upload segment "; Num (Z.of_nat (i + 1)); Lit " of ";
   Num (Z.of_nat segments); Lit " (Size: "; MB segment_size; Lit "MB)"].

(** Line 235: [str(e)[:500] + '...' if len(str(e)) > 500 else str(e)] *)
Definition error_msg (e : exn) : string :=
  if (500 <? Py.len (str e))%nat then Py.take 500 (str e) ++ "..." else str e.

(** Every upload that was refused with an [HTTPException] is followed at
    once by the notice for its segment, sent to the same target. *)
Fixpoint notified (evs : list event) : Prop :=
  match evs with
  | [] => True
  | ev :: rest =>
      match ev with
      | Called (SendFile target cap _) (Raises e) =>
          isinstance e HTTPException = true ->
          exists i segments segment_size r,
            cap = caption i segments
            /\ head rest
               = Some (Called (Send target
                                 (failure_notice i segments segment_size)) r)
      | _ => True
      end
      /\ notified rest
  end.

(** What a run of the loop over the segments [first], [first + 1], ...
    comes to.  The segments handed to [send] are the first [n] of the
    [todo] of the loop, each of them once; every refusal with an
    [HTTPException] is followed by its notice.  When the loop returns,
    every segment was handed to [send], and the result adds the segments
    that were delivered to [successful].  The loop raises only what its
    last call raised, and an upload refused with an [HTTPException] is
    never that call. *)
Definition segments_run (nt : bool) (file_name : string)
    (segments first todo successful : nat) (r : res nat) (evs : list event)
  : Prop :=
  exists n,
    n <= todo
    /\ omap Log.uploaded evs
       = map (fun i => segment_name nt file_name i segments) (seq first n)
    /\ notified evs
    /\ (forall k, r = Ret k ->
          n = todo /\ k = successful + Log.count Log.is_delivery evs)
    /\ (forall e, r = Raise e ->
          exists pre ev,
            evs = pre ++ [ev]
            /\ Log.raised ev = Some e /\ Log.refused ev = false)
    /\ r <> Cancel.

Section WithWorld.

Variable w : world.

Section View.

Variable m : message.
Variable a : attachment.

Definition edit (t : text) : M unit := await w (EditStatus (Some t) KeepView).

(** Lines 316-388: segment [i] and the [todo - 1] after it are cut, and
    compressed once or twice when they have more than 8 MB. *)
Fixpoint make_segments (segments i todo : nat) : M unit :=
  match todo with
  | 0 => ret tt
  | S todo' =>
      edit [Lit "Creating segment "; Num (Z.of_nat (i + 1)); Lit " of ";
            Num (Z.of_nat segments); Lit "..."] ;;
      segment_size <- await w (CutSegment i) ;;
      (if (MAX_SEGMENT_SIZE_BYTES <? segment_size)%N then
         edit [Lit "Further compressing segment "; Num (Z.of_nat (i + 1));
               Lit "..."] ;;
         compressed_size <- await w (CompressSegment i) ;;
         if (MAX_SEGMENT_SIZE_BYTES <? compressed_size)%N then
           edit [Lit "Final compression for segment ";
                 Num (Z.of_nat (i + 1)); Lit "..."] ;;
           await w (FinalSegment i)
         else ret tt
       else ret tt) ;;
      make_segments segments (S i) todo'
  end.

(** Lines 391-410: the upload of segment [i] and of the [todo - 1]
    after it; the result is [successful_uploads]. *)
Fixpoint upload_segments (file_name : string) (target : chan)
    (segments i todo successful : nat) : M nat :=
  match todo with
  | 0 => ret successful
  | S todo' =>
      sz <- await w (SegmentSize i) ;;
      edit [Lit "Uploading segment "; Num (Z.of_nat (i + 1)); Lit " of ";
            Num (Z.of_nat segments); Lit " ("; MB sz; Lit "MB)..."] ;;
      sent <- try_except
                (await w (SendFile target (caption i segments)
                            (segment_name (os_path_nt w) file_name i segments)) ;;
                 ret true)
                (fun e =>
                   if isinstance e HTTPException then
                     await w (Send target (failure_notice i segments sz)) ;;
                     ret false
                   else raise e) ;;
      upload_segments file_name target segments (S i) todo'
        (if sent : bool then S successful else successful)
  end.

Definition handle_large_video (file_name : string) (target : chan)
    (use_thread : bool) (thread_ref : option chan) : M unit :=
  try_except
    (edit [Lit "Video too large for Discord. Creating shorter clips..."] ;;
     probe <- await w ProbeVideo ;;
     let segments := segment_count (fst probe) (snd probe) in
     make_segments segments 0 segments ;;
     successful <- upload_segments file_name target segments 0 segments 0 ;;
     await w (Send target
        [Lit "⚠️ **WARNING**: Do not download or share these video segments outside the server."]) ;;
     match thread_ref with
     | Some t =>
         if use_thread then
           if (successful =? segments)%nat then edit [Mention t]
           else edit [Mention t; Lit " (Uploaded ";
                      Num (Z.of_nat successful); Lit " of ";
                      Num (Z.of_nat segments); Lit " segments)"]
         else await w DeleteStatus
     | None => await w DeleteStatus
     end ;;
     try_except (await w DeleteSource) (fun _ => ret tt))
    (fun e =>
       edit [Lit "❌ Could not process large video: "; Val (Py.take 100 (str e))]).

(** Lines 234-243: the [except] clause of [process_video]. *)
Definition on_error (use_thread : bool) (thread_ref : option chan) (e : exn)
  : M unit :=
  edit [Lit "❌ Error processing video: "; Val (error_msg e)] ;;
  match thread_ref with
  | Some t =>
      if use_thread then
        try_except (await w (DeleteThread t)) (fun _ => ret tt)
      else ret tt
  | None => ret tt
  end.

(** Lines 147-172: the conversion comes first; the result is the size
    of the converted file. *)
Definition convert : M N :=
  await w (EditStatus
             (Some [Lit "Processing "; Val (filename a);
                    Lit "... This may take a few minutes."]) NoView) ;;
  await w (ReadVideo a) ;;
  try_except
    (edit [Lit "Processing video... This may take a few minutes."] ;;
     await w RunFfmpeg)
    (fun e => raise (exception ("Processing failed: " ++ str e))) ;;
  processed_size <- await w OutputSize ;;
  edit [Lit "Video processed. Preparing to post ("; MB processed_size;
        Lit "MB)..."] ;;
  ret processed_size.

(** Lines 200-232, for the target and the thread reference reached. *)
Definition upload (use_thread : bool) (processed_size : N)
    (target : chan) (thread_ref : option chan) : M unit :=
  let file_name := mp4_name (filename a) in
  if (processed_size <=? DISCORD_SIZE_LIMIT_BYTES)%N then
    try_except
      (edit [Lit "Uploading video ("; MB processed_size; Lit "MB)..."] ;;
       await w (SendFile target [] file_name) ;;
       await w (Send target
          [Lit "⚠️ **WARNING**: Do not download or share this video outside the server."]) ;;
       try_except (await w DeleteSource)
         (fun e => if isinstance e Forbidden then ret tt else raise e) ;;
       match thread_ref with
       | Some t => if use_thread then edit [Mention t] else await w DeleteStatus
       | None => await w DeleteStatus
       end)
      (fun e =>
         if isinstance e HTTPException then
           handle_large_video file_name target use_thread thread_ref
         else raise e)
  else handle_large_video file_name target use_thread thread_ref.

(** Lines 175-198 followed by the upload.  [thread_ref] is bound as
    soon as [create_thread_with_retry] returns, so the handler of the
    outer [try] sees it from there on. *)
Definition resolve_and_upload (use_thread : bool) (processed_size : N)
  : M unit :=
  let continue target thread_ref :=
    try_except (upload use_thread processed_size target thread_ref)
               (on_error use_thread thread_ref) in
  let fall_back thread_ref :=
    try_then (edit fallback_warning)
             (on_error use_thread thread_ref)
             (fun _ => continue (channel m) thread_ref) in
  if use_thread then
    try_then
      (ThreadCreator.create_thread_with_retry w video (channel m)
         (thread_name (mp4_name (filename a))))
      (fun _ => fall_back None)
      (fun t =>
         match t with
         | None =>
             try_then (edit fallback_warning)
                      (fun _ => fall_back None)
                      (fun _ => continue (channel m) None)
         | Some th =>
             try_then (edit [Lit "Created thread. Preparing video..."])
                      (fun _ => fall_back (Some th))
                      (fun _ => continue th (Some th))
         end)
  else continue (channel m) None.

Definition process_video (use_thread : bool) : M unit :=
  try_then convert
    (on_error use_thread None)
    (resolve_and_upload use_thread).

End View.

(** The loop of [handle_mp4] over the attachments. *)
Fixpoint first_video (m : message) (l : list attachment) : M bool :=
  match l with
  | [] => ret false
  | a :: rest =>
      if is_video a then
        seen <- in_processed_files (att_id a) ;;
        if seen : bool then
          await w (Reply [Lit "This video has already been processed recently."]) ;;
          ret true
        else if (MAX_FILE_SIZE_BYTES <? size a)%N then
          await w (Reply [Lit "⚠️ Video is too large ("; MB (size a);
                          Lit "MB). Maximum size is "; Num 500; Lit "MB."]) ;;
          ret true
        else
          add_processed_file (att_id a) ;;
          await w (Send (channel m)
             [Lit "Video detected: "; Val (filename a); Lit " (";
              MB (size a); Lit "MB)"]) ;;
          await w (EditStatus
             (Some [Lit "Video: "; Val (filename a); Lit " ("; MB (size a);
                    Lit "MB)"; Lit newline;
                    Lit "Choose where to post the watermarked version:"])
             (WithView video)) ;;
          ret true
      else first_video m rest
  end.

(** [message.author == message.guild.me] comes first: it raises for a
    message that has no guild. *)
Definition handle_mp4 (m : message) : M bool :=
  match bot_member m with
  | None => raise no_guild
  | Some _ =>
      if author_is_bot m then ret false
      else first_video m (attachments m)
  end.

End WithWorld.

End Mp4.

(** ** YouTube links: youtube_handler.py *)

Module Youtube.

(** [[a-zA-Z0-9_-]] *)
Definition id_char (c : ascii) : bool :=
  Py.in_range 97 122 c || Py.in_range 65 90 c || Py.in_range 48 57 c
  || Ascii.eqb c "_" || Ascii.eqb c "-".

Fixpoint all_chars (p : ascii -> bool) (s : string) : bool :=
  match s with
  | EmptyString => true
  | String c r => p c && all_chars p r
  end.

(** [([a-zA-Z0-9_-]{11})] at the head of [s] *)
Definition id11 (s : string) : option string :=
  let v := Py.take 11 s in
  if (Py.len v =? 11)%nat && all_chars id_char v then Some v else None.

(** The part of [YOUTUBE_REGEX] that is not optional, at the head of [s]:
    [(?:youtube\.com/watch\?v=|youtu\.be/)([a-zA-Z0-9_-]{11})] *)
Definition id_at (s : string) : option string :=
  if Py.startswith "youtube.com/watch?v=" s then id11 (Py.drop 20 s)
  else if Py.startswith "youtu.be/" s then id11 (Py.drop 9 s)
  else None.

(** [re.findall(YOUTUBE_REGEX, content)[0]], when there is a match: the
    optional scheme and "www." come right before the part that is not
    optional, so the leftmost match is the one of the leftmost such part. *)
Fixpoint first_video_id (s : string) : option string :=
  match id_at s with
  | Some v => Some v
  | None =>
      match s with
      | EmptyString => None
      | String _ r => first_video_id r
      end
  end.

Section WithWorld.

Variable w : world.

(** [get_video_details]: every exception gives [None]. *)
Definition get_video_details (video_id : string) : M (option video_details) :=
  try_except (await w (GetVideoDetails video_id)) (fun _ => ret None).

Definition handle_youtube (m : message) : M bool :=
  match first_video_id (content m) with
  | None => ret false
  | Some video_id =>
      await w (Send (channel m) [Lit "Getting video information..."]) ;;
      video <- get_video_details video_id ;;
      match video with
      | None =>
          await w (EditStatus
             (Some [Lit "Couldn't get information about this YouTube video."])
             KeepView) ;;
          ret false
      | Some v =>
          await w (EditStatus
             (Some [Lit "Video: "; Val (yt_title v); Lit Mp4.newline;
                    Lit "Choose an option:"])
             (WithView youtube_link)) ;;
          ret true
      end
  end.

End WithWorld.

End Youtube.

(** ** Referral links: referral_handler.py *)

Module Referral.

(** [\w]: the pattern is a [str], so the class is the one of Unicode. *)
Definition word_char (c : ascii) : bool := Py.isword c.

(** [[\da-fA-F]] *)
Definition hex_char (c : ascii) : bool :=
  Py.isdecimal c || Py.in_range 97 102 c || Py.in_range 65 70 c.

(** [\s], of Unicode as well *)
Definition space_char (c : ascii) : bool := Py.isspace c.

(** One round of [(?:[-\w.]|(?:%[\da-fA-F]{2}))] at the head of [s]. *)
Definition host_start (s : string) : bool :=
  match s with
  | String c r =>
      Ascii.eqb c "-" || word_char c || Ascii.eqb c "."
      || (Ascii.eqb c "%"
          && match r with
             | String h1 (String h2 _) => hex_char h1 && hex_char h2
             | _ => false
             end)
  | EmptyString => false
  end.

(** [[^\s]*] at the head of [s] *)
Fixpoint until_space (s : string) : string :=
  match s with
  | EmptyString => EmptyString
  | String c r => if space_char c then EmptyString else String c (until_space r)
  end.

(** [URL_REGEX] at the head of [s]: after the scheme and one round of the
    host group, the match runs to the next white space. *)
Definition url_at (s : string) : option string :=
  if Py.startswith "http://" s && host_start (Py.drop 7 s) then Some (until_space s)
  else if Py.startswith "https://" s && host_start (Py.drop 8 s) then Some (until_space s)
  else None.

(** [re.findall(URL_REGEX, content)[0]], when there is a match *)
Fixpoint first_url (s : string) : option string :=
  match url_at s with
  | Some u => Some u
  | None =>
      match s with
      | EmptyString => None
      | String _ r => first_url r
      end
  end.

(** The dictionary [get_website_metadata] returns: the key 'error' is
    present or not, the six others always are. *)
Record metadata := {
  title : option string;
  description : option string;
  image : option string;
  favicon : option string;
  domain : string;
  url : string;
  error : option string
}.

(** The truth value of [d.get(key)]: a string that is not empty. *)
Definition truthy (o : option string) : bool :=
  match o with
  | Some s => negb (String.eqb s EmptyString)
  | None => false
  end.

(** [a or b] on such values *)
Definition or_else (a : option string) (b : string) : string :=
  match a with
  | Some s => if String.eqb s EmptyString then b else s
  | None => b
  end.

Definition create_referral_embed (u : string) (md : metadata) : embed :=
  {| e_title := or_else (title md) "Visit Website";
     e_description := or_else (description md) "No description available";
     e_url := u;
     e_color := match error md with Some _ => red | None => blue end;
     e_image := if truthy (image md) then image md else None;
     e_footer := match error md with
                 | Some e => domain md ++ " • " ++ e
                 | None => domain md
                 end;
     e_icon := if truthy (favicon md) then favicon md else None |}.

(** Lines 358-360: fields missing in [md] are taken from the mobile page. *)
Definition merge (md mobile : metadata) : metadata :=
  let pick a b := if negb (truthy a) && truthy b then b else a in
  {| title := pick (title md) (title mobile);
     description := pick (description md) (description mobile);
     image := pick (image md) (image mobile);
     favicon := favicon md;
     domain := domain md;
     url := url md;
     error := error md |}.

Definition fallback (dom u : string) : metadata :=
  if Py.contains "blofin.com" dom then
    {| title := Some "Blofin - Crypto Exchange Platform";
       description := Some "Blofin is a cryptocurrency exchange platform. This link appears to be a referral link. The website restricts automated access, but you can click to visit directly.";
       image := None; favicon := None; domain := dom; url := u;
       error := Some "403 Forbidden" |}
  else
    {| title := Some ("Visit " ++ dom)%string;
       description := Some "This website restricts automated access. Click the link to visit directly.";
       image := None; favicon := None; domain := dom; url := u;
       error := Some "403 Forbidden" |}.

Section WithWorld.

Variable w : world.
Variable cfg : config.
(** [urlparse(url).netloc]; [None] when [urlparse] raises [ValueError] *)
Variable urlparse_netloc : string -> option string.

(** The three fetch functions: every exception gives [None]. *)
Definition fetch (st : strategy) (u : string) : M (option string) :=
  try_except (html <- await w (Fetch st u) ;; ret (Some html))
             (fun _ => ret None).

Definition extract_metadata_from_html (html : option string) (dom u : string)
  : M (option metadata) :=
  if truthy html then
    try_except
      (p <- await w (Soup (or_else html EmptyString) u) ;;
       ret (Some {| title := p_title p; description := p_description p;
                    image := p_image p; favicon := p_favicon p;
                    domain := dom; url := u; error := None |}))
      (fun _ => ret None)
  else ret None.

(** [not html or not metadata or not metadata.get('title')] *)
Definition incomplete (html : option string) (md : option metadata) : bool :=
  negb (truthy html)
  || match md with Some d => negb (truthy (title d)) | None => true end.

Definition get_website_metadata (u : string) : M metadata :=
  match urlparse_netloc u with
  | None => raise (value_error "Invalid IPv6 URL")
  | Some dom =>
      html <- fetch Standard u ;;
      md <- extract_metadata_from_html html dom u ;;
      both <-
        (if incomplete html md then
           html <- fetch Mobile u ;;
           mobile <- extract_metadata_from_html html dom u ;;
           ret (html,
                match mobile with
                | Some mb =>
                    match md with
                    | None => Some mb
                    | Some d => Some (merge d mb)
                    end
                | None => md
                end)
         else ret (html, md)) ;;
      let html := fst both in
      let md := snd both in
      md <-
        (if incomplete html md && SELENIUM_AVAILABLE cfg then
           html <- fetch Selenium u ;;
           sel <- extract_metadata_from_html html dom u ;;
           ret (match sel with Some d => Some d | None => md end)
         else ret md) ;;
      match md with
      | Some d => if truthy (title d) then ret d else ret (fallback dom u)
      | None => ret (fallback dom u)
      end
  end.

Definition handle_referral (m : message) (referral_channel_id : N) : M bool :=
  if negb (N.eqb (chan_id (channel m)) referral_channel_id) then ret false
  else
    match first_url (content m) with
    | None => ret false
    | Some u =>
        match urlparse_netloc u with
        | None => raise (value_error "Invalid IPv6 URL")
        | Some dom =>
            await w (Send (channel m) [Lit "Processing referral link..."]) ;;
            try_except
              ((if Py.contains "blofin.com" dom then
                  await w (EditStatus
                     (Some [Lit "⚠️ Fetching preview for "; Val dom;
                            Lit " (this site is known to block automated access)..."])
                     KeepView)
                else ret tt) ;;
               md <- get_website_metadata u ;;
               let em := create_referral_embed u md in
               match error md with
               | Some e =>
                   (if String.eqb e "403 Forbidden" then
                      if Py.contains "blofin.com" dom then
                        await w (EditStatus
                           (Some [Lit "⚠️ Blofin.com blocks automated access. This appears to be a referral link. Click to visit directly."])
                           KeepView)
                      else
                        await w (EditStatus
                           (Some [Lit "⚠️ This website blocks automated access, but you can still click the link to visit directly."])
                           KeepView)
                    else
                      await w (EditStatus
                         (Some [Lit "⚠️ Limited preview available due to access restrictions."])
                         KeepView)) ;;
                   await w (SendEmbed (channel m) em)
               | None =>
                   await w (SendEmbed (channel m) em) ;;
                   await w DeleteStatus
               end ;;
               try_except (await w DeleteSource) (fun _ => ret tt) ;;
               ret true)
              (fun e =>
                 await w (EditStatus
                    (Some [Lit "❌ Error processing referral link: "; Val (str e)])
                    KeepView) ;;
                 ret false)
        end
    end.

End WithWorld.

End Referral.

(** ** The dispatcher: bot.py *)

Module Bot.

Section WithWorld.

Variable w : world.
Variable cfg : config.
Variable urlparse_netloc : string -> option string.

(** Lines 58-66: the handlers of attachments, by priority. *)
Definition dispatch_attachments (m : message) : M unit :=
  match attachments m with
  | [] => ret tt
  | _ =>
      images_handled <- Image.handle_image_batch w m ;;
      if images_handled : bool then ret tt
      else
        pdf_handled <- Pdf.handle_pdf w cfg m ;;
        if pdf_handled : bool then ret tt
        else Docx.handle_docx w m ;; ret tt
  end.

(** Lines 69-73: the handlers run on every message, by priority. *)
Definition dispatch_links (m : message) : M unit :=
  mp4_handled <- Mp4.handle_mp4 w m ;;
  if mp4_handled : bool then ret tt
  else
    youtube_handled <- Youtube.handle_youtube w m ;;
    if youtube_handled : bool then ret tt
    else
      match REFERRAL_CHANNEL_ID cfg with
      | Some id => Referral.handle_referral w cfg urlparse_netloc m id ;; ret tt
      | None => ret tt
      end.

(** Lines 78-116: the help command, the only command of the bot, sends
    its embed to the channel of the message. *)
Definition help_command (m : message) : M unit :=
  await w (SendHelp (channel m)).

(** [bot.process_commands(message)]: discord.py runs the command it finds
    in the message.  An exception raised by a command is handed to the
    error handlers of the library and goes no further. *)
Definition process_commands (m : message) : M unit :=
  match command w m with
  | Some name =>
      if String.eqb name "help" then
        try_except (help_command m) (fun _ => ret tt)
      else ret tt
  | None => ret tt
  end.

Definition on_message (m : message) : M unit :=
  if author_is_bot m then ret tt
  else
    process_commands m ;;
    dispatch_attachments m ;;
    dispatch_links m.

End WithWorld.

(** The dispatcher as the specification words it: the handlers are tried
    in a fixed order of priority, each one only when those before it have
    not handled the message. *)
Fixpoint by_priority (handlers : list (M bool)) : M unit :=
  match handlers with
  | [] => ret tt
  | handler :: rest =>
      handled <- handler ;;
      if handled : bool then ret tt else by_priority rest
  end.

Section Priorities.

Variable w : world.
Variable cfg : config.
Variable urlparse_netloc : string -> option string.
Variable m : message.

(** The handlers of attachments and the handlers run on every message,
    in the order of the specification. *)
Definition attachment_handlers : list (M bool) :=
  [Image.handle_image_batch w m; Pdf.handle_pdf w cfg m; Docx.handle_docx w m].

Definition link_handlers : list (M bool) :=
  [Mp4.handle_mp4 w m; Youtube.handle_youtube w m]
  ++ match REFERRAL_CHANNEL_ID cfg with
     | Some id => [Referral.handle_referral w cfg urlparse_netloc m id]
     | None => []
     end.

(** A message of another author than the bot goes through the commands,
    then, when it has attachments, through the handlers of attachments,
    then through the other handlers. *)
Definition dispatch : M unit :=
  if author_is_bot m then ret tt
  else
    process_commands w m ;;
    match attachments m with
    | [] => ret tt
    | _ => by_priority attachment_handlers
    end ;;
    by_priority link_handlers.

End Priorities.

(** The workflow an event starts: a view put on the status message, or
    the first fetch of a referral link, which has no view. *)
Definition start (ev : event) : option kind :=
  match ev with
  | Called (EditStatus _ (WithView k)) (Returns _) => Some k
  | Called (Fetch Standard _) _ => Some referral_link
  | _ => None
  end.

(** The workflows started in a log, oldest first. *)
Definition started (evs : list event) : list kind := omap start evs.

(** The event starts no workflow. *)
Definition no_start (ev : event) : bool :=
  match start ev with
  | None => true
  | Some _ => false
  end.

(** At most one workflow was started, and it is of the kind [k]. *)
Definition at_most (k : kind) {A} (r : res A) (evs : list event) : Prop :=
  started evs = [] \/ started evs = [k].

(** The same, for a handler that tells whether it handled the message:
    a workflow is started only when the handler returns [True]. *)
Definition handled (k : kind) (r : res bool) (evs : list event) : Prop :=
  started evs = [] \/ (r = Ret true /\ started evs = [k]).

(** At most one workflow was started, of a kind that satisfies [p]. *)
Definition one_of (p : kind -> bool) (ks : list kind) : Prop :=
  length ks <= 1 /\ forallb p ks = true.

(** The kinds found in attachments, and the kinds found in every message. *)
Definition of_attachments (k : kind) : bool :=
  match k with image_batch | pdf | docx => true | _ => false end.

Definition of_links (k : kind) : bool :=
  match k with video | youtube_link | referral_link => true | _ => false end.

End Bot.

(** ** The view of an image batch: image_handler.py 83-170 and 238-264 *)

Module ImageView.

(** [re.sub(r'\.[^.]+$', '', name)]: the pattern matches from the last dot
    of the name to its end when at least one character follows that dot,
    and the match is cut off; every other name is left as it is. *)
Definition base_name (name : string) : string :=
  let dot := Py.rfind "." name in
  if (0 <=? dot)%Z && (dot + 1 <? Z.of_nat (Py.len name))%Z
  then Py.take (Z.to_nat dot) name
  else name.

(** Lines 104-116: the name of the thread, for the file names of the
    attachments of the view; none when [self.attachments[0]] raises. *)
Definition batch_thread_name (names : list string) : option string :=
  match names with
  | [] => None
  | first_image_name :: _ =>
      Some (thread_name
              (if (1 <? length names)%nat
               then base_name first_image_name ++ " and "
                    ++ Py.str_of_nat (length names - 1) ++ " more"
               else base_name first_image_name))
  end.

(** [sorted(self.attachments, key=lambda a: a.filename)]: the sort is
    stable, and strings are compared code point by code point. *)
Fixpoint insert_by_name (a : attachment) (l : list attachment)
  : list attachment :=
  match l with
  | [] => [a]
  | b :: rest =>
      if String.leb (filename a) (filename b) then a :: l
      else b :: insert_by_name a rest
  end.

Definition sorted (l : list attachment) : list attachment :=
  fold_right insert_by_name [] l.

Definition fallback_warning : text :=
  [Lit "⚠️ Could not create thread. Posted images in channel instead."].

Section WithWorld.

Variable w : world.
(** [self.message] and [self.attachments] *)
Variable m : message.
Variable images : list attachment.

(** The loop of [post_images].  [ReadVideo a] is [await a.read()]: the
    bytes read are handed to [discord.File] as they are. *)
Fixpoint post_each (target : chan) (l : list attachment) : M unit :=
  match l with
  | [] => ret tt
  | a :: rest =>
      await w (ReadVideo a) ;;
      await w (SendFile target [] (filename a)) ;;
      sleep (1 # 2) ;;
      post_each target rest
  end.

Definition post_images (target : chan) : M unit :=
  try_except
    (post_each target (sorted images))
    (fun e => raise (exception ("Error posting images: " ++ str e))).

(** The two [except] clauses of [process_images]. *)
Definition on_error (use_thread : bool) (target : option chan) (e : exn)
  : M unit :=
  if isinstance e Forbidden then
    await w (EditStatus (Some [Lit "⚠️ Permission error: "; Val (str e)]) KeepView)
  else
    await w (EditStatus (Some [Lit "❌ Error processing images: "; Val (str e)]) KeepView) ;;
    match target with
    | Some t =>
        if use_thread && is_thread t then
          try_except (await w (DeleteThread t)) (fun _ => ret tt)
        else ret tt
    | None => ret tt
    end.

(** Lines 101-135: the target and the final message. *)
Definition resolve_target (use_thread : bool) : M (chan * option text) :=
  if use_thread then
    match batch_thread_name (map filename images) with
    | None => raise (exception "list index out of range")
    | Some name =>
        try_except
          (t <- ThreadCreator.create_thread_with_retry w image_batch
                  (channel m) name ;;
           match t with
           | None => ret (channel m, Some fallback_warning)
           | Some t => ret (t, Some [Mention t])
           end)
          (fun _ => ret (channel m, Some fallback_warning))
    end
  else ret (channel m, None).

(** Lines 138-153 *)
Definition deliver (target : chan) (final_message : option text) : M unit :=
  post_images target ;;
  match final_message with
  | Some t => await w (EditStatus (Some t) KeepView)
  | None => await w DeleteStatus
  end ;;
  try_except (await w DeleteSource) (fun _ => ret tt).

Definition process_images (use_thread : bool) : M unit :=
  let num_images := length images in
  try_then
    (await w (EditStatus
                (Some [Lit "Processing "; Num (Z.of_nat num_images);
                       Lit " image";
                       Lit (if (1 <? num_images)%nat then "s" else EmptyString);
                       Lit "..."])
                NoView))
    (on_error use_thread None)
    (fun _ =>
       try_then
         (resolve_target use_thread)
         (on_error use_thread None)
         (fun '(target, final_message) =>
            try_except
              (deliver target final_message)
              (on_error use_thread (Some target)))).

End WithWorld.

End ImageView.

(** ** The pages of a DOCX: docx_handler.py 76-99

    [convert_docx_to_images] cuts the texts of the document (paragraphs
    and tables, in [all_text]) into pages of about 3000 characters. *)

Module DocxPages.

(** ["\n\n".join(current_page)] *)
Definition page_text (current_page : list string) : string :=
  join (Mp4.newline ++ Mp4.newline) current_page.

(** [if current_page: pages.append("\n\n".join(current_page))] *)
Definition flush (pages : list string) (current_page : list string)
  : list string :=
  match current_page with
  | [] => pages
  | _ => pages ++ [page_text current_page]
  end.

(** The loop of lines 86-95 and the last page of lines 98-99, with the
    three variables [pages], [current_page] and [current_length]. *)
Fixpoint fill (all_text : list string) (pages current_page : list string)
    (current_length : nat) : list string :=
  match all_text with
  | [] => flush pages current_page
  | item :: rest =>
      if (3000 <? current_length + Py.len item)%nat then
        fill rest (flush pages current_page) [item] (Py.len item)
      else
        fill rest pages (current_page ++ [item]) (current_length + Py.len item)
  end.

(** Lines 77-99: no text, no page. *)
Definition split_pages (all_text : list string) : list string :=
  match all_text with
  | [] => []
  | _ => fill all_text [] [] 0
  end.

(** The same loop, keeping every page as the list of its texts. *)
Fixpoint groups (all_text : list string) (current_page : list string)
    (current_length : nat) : list (list string) :=
  match all_text with
  | [] => match current_page with [] => [] | _ => [current_page] end
  | item :: rest =>
      if (3000 <? current_length + Py.len item)%nat then
        match current_page with
        | [] => groups rest [item] (Py.len item)
        | _ => current_page :: groups rest [item] (Py.len item)
        end
      else groups rest (current_page ++ [item]) (current_length + Py.len item)
  end.

(** The number of characters of the texts of a page, as the loop counts
    them: the separators between the texts are not counted. *)
Definition weight (page : list string) : nat :=
  fold_right (fun item n => Py.len item + n) 0 page.

End DocxPages.

(** ** The view of a video link: youtube_handler.py 143-171 *)

Module YoutubeView.

(** Lines 145-148: the name of the thread. *)
Definition watch_thread_name (title : string) : string :=
  thread_name ("Watch: " ++ Py.take 50 title).

(** Line 169: the description of the embed. *)
Definition embed_description (description : string) : string :=
  Py.take 200 description
  ++ (if (200 <? Py.len description)%nat then "..." else EmptyString).

End YoutubeView.

(** ** Messages and worlds of the examples *)

Module Samples.

Definition all_permissions : permissions :=
  {| send_messages := true; attach_files := true;
     create_public_threads := true; manage_threads := true;
     manage_messages := true |}.

Definition report : attachment :=
  {| att_id := 501; filename := "report.pdf"; size := 40960 |}.

Definition minutes : attachment :=
  {| att_id := 502; filename := "minutes.docx"; size := 20480 |}.

Definition clip : attachment :=
  {| att_id := 503; filename := "clip.MOV"; size := 31457280 |}.

Definition photo (n : N) : attachment :=
  {| att_id := 600 + n; filename := "photo.png"; size := 2048 |}.

(** A message posted in the text channel 10. *)
Definition post (text : string) (atts : list attachment) : message :=
  {| msg_id := 1; author_is_bot := false; channel := TextChannel 10;
     content := text; attachments := atts;
     bot_member := Some all_permissions |}.

(** The same message posted inside the thread 55. *)
Definition post_in_thread (text : string) (atts : list attachment) : message :=
  {| msg_id := 1; author_is_bot := false; channel := Thread 55;
     content := text; attachments := atts;
     bot_member := Some all_permissions |}.

(** A thread has no [create_thread]: the call raises [AttributeError],
    whatever the permissions. *)
Definition inside_thread : world :=
  Worlds.answering (fun A _ c =>
       match c in call T return answer T with
       | CreateThread _ _ =>
           Raises (attribute_error
                     "'Thread' object has no attribute 'create_thread'")
       | c' => Worlds.calm_reply _ c'
       end).

(** The five minutes of [wait_for] run out while the second page is being
    sent. *)
Definition slow_upload : world :=
  {| reply := fun A _ c => Worlds.calm_reply A c;
     deadline := fun A _ c =>
       match c with
       | SendFile _ _ f => String.eqb f "page_2.png"
       | _ => false
       end;
     os_path_nt := false;
     command := Worlds.help_invoked |}.

(** The second page of the document cannot be rendered. *)
Definition broken_page : world :=
  Worlds.answering (fun A _ c =>
       match c in call T return answer T with
       | ReadPdf _ => Returns (Some [true; false])
       | c' => Worlds.calm_reply _ c'
       end).

(** discord.py's [HTTPException] for a file that is too large: HTTP 413,
    JSON error code 40005. *)
Definition too_large : exn :=
  mk_exn HTTPException 40005
    "413 Payload Too Large (error code: 40005): Request entity too large".

(** The converted video has 30 MB, and the first of its segments is
    refused by the platform. *)
Definition first_segment_refused : world :=
  Worlds.answering (fun A _ c =>
       match c in call T return answer T with
       | OutputSize => Returns (30 * 1024 * 1024)%N
       | SendFile t cap f =>
           if String.eqb f "clip_part1of6.mp4" then Raises too_large
           else Returns tt
       | c' => Worlds.calm_reply _ c'
       end).

(** An [HTTPException] whose code is 429, the code the page loop takes
    for a rate limit. *)
Definition rate_limited : exn :=
  mk_exn HTTPException 429 "429 Too Many Requests".

(** The first send of the second page meets that exception; a send after
    it would go through. *)
Definition busy_once : world :=
  Worlds.answering (fun A l c =>
       match c in call T return answer T with
       | SendFile t cap f =>
           if String.eqb f "page_2.png"
              && negb (existsb
                         (fun ev =>
                            match ev with
                            | Called (SendFile _ _ g) _ => String.eqb g "page_2.png"
                            | _ => false
                            end) l)
           then Raises rate_limited
           else Returns tt
       | c' => Worlds.calm_reply _ c'
       end).

(** The converted video has 30 MB, and the first of its segments meets a
    rate limit. *)
Definition first_segment_rate_limited : world :=
  Worlds.answering (fun A _ c =>
       match c in call T return answer T with
       | OutputSize => Returns (30 * 1024 * 1024)%N
       | SendFile t cap f =>
           if String.eqb f "clip_part1of6.mp4" then Raises rate_limited
           else Returns tt
       | c' => Worlds.calm_reply _ c'
       end).

(** The converted video has 30 MB, and ffmpeg cannot cut it: the duration
    is not found in its output. *)
Definition no_duration : world :=
  Worlds.answering (fun A _ c =>
       match c in call T return answer T with
       | OutputSize => Returns (30 * 1024 * 1024)%N
       | ProbeVideo => Raises (value_error "Could not determine video duration")
       | c' => Worlds.calm_reply _ c'
       end).

(** The converted video has 30 MB, the first of its segments is refused,
    and so is the notice that tells it. *)
Definition notice_refused : world :=
  Worlds.answering (fun A _ c =>
       match c in call T return answer T with
       | OutputSize => Returns (30 * 1024 * 1024)%N
       | SendFile t cap f =>
           if String.eqb f "clip_part1of6.mp4" then Raises too_large
           else Returns tt
       | Send t (Lit "⚠️ Failed to upload segment " :: _) =>
           Raises Worlds.forbidden
       | c' => Worlds.calm_reply _ c'
       end).

(** No page can be fetched. *)
Definition offline : world :=
  Worlds.answering (fun A _ c =>
       match c in call T return answer T with
       | Fetch _ _ => Raises (exception "Connection refused")
       | c' => Worlds.calm_reply _ c'
       end).

(** A message sent to the bot directly: it has no guild. *)
Definition direct (text : string) (atts : list attachment) : message :=
  {| msg_id := 2; author_is_bot := false; channel := TextChannel 20;
     content := text; attachments := atts;
     bot_member := None |}.

(** [urlparse(url).netloc] for the URLs of the examples, which start with
    "http://" or "https://": what lies between "://" and the next "/",
    "?" or "#"; [urlsplit] raises [ValueError] when it holds one of the
    two square brackets without the other. *)
Fixpoint until_delimiter (s : string) : string :=
  match s with
  | EmptyString => EmptyString
  | String c r =>
      if Ascii.eqb c "/" || Ascii.eqb c "?" || Ascii.eqb c "#"
      then EmptyString else String c (until_delimiter r)
  end.

Definition checked_netloc (netloc : string) : option string :=
  if Bool.eqb (Py.contains "[" netloc) (Py.contains "]" netloc)
  then Some netloc else None.

Definition netloc (u : string) : option string :=
  if Py.startswith "https://" u
  then checked_netloc (until_delimiter (Py.drop 8 u))
  else if Py.startswith "http://" u
  then checked_netloc (until_delimiter (Py.drop 7 u))
  else Some EmptyString.

End Samples.

(** ** What is stated of a coroutine

    The properties below speak of the result of a coroutine and of the
    events it adds to the log, in every state and so after every history. *)

(** [m] returns in every state, and its result and the events it adds to
    the log satisfy [Q]. *)
Definition returns {A} (m : M A) (Q : A -> list event -> Prop) : Prop :=
  forall s, exists a evs, m s = (Ret a, Log.extend evs s) /\ Q a evs.

(** Every event [m] adds to the log satisfies [P], and the result of [m],
    when it returns, satisfies [Q]. *)
Definition obeys {A} (P : event -> bool) (Q : A -> Prop) (m : M A) : Prop :=
  forall s, exists evs,
    log (snd (m s)) = log s ++ evs
    /\ forallb P evs = true
    /\ (forall a, fst (m s) = Ret a -> Q a).

Definition any {A} : A -> Prop := fun _ => True.

(** [T] holds of the result of [m] and of the events [m] adds to the log. *)
Definition sat {A} (m : M A) (T : res A -> list event -> Prop) : Prop :=
  forall s, exists evs, log (snd (m s)) = log s ++ evs /\ T (fst (m s)) evs.

(** No page was fetched in [evs]. *)
Definition none_fetched (evs : list event) : Prop :=
  Forall (fun ev => Log.fetched ev = false) evs.

(** What holds of the metadata gathered so far: it carries the domain of
    the URL, and there is none as long as no page was fetched. *)
Definition gathered (dom : string) (before : list event)
    (md : option Referral.metadata) (evs : list event) : Prop :=
  (forall d, md = Some d -> Referral.domain d = dom)
  /\ (none_fetched (before ++ evs) -> md = None).





(** Of the pages [first], [first + 1], ... the first [n] reached [target],
    in this order and each of them once, and nothing else did; there are
    [n <= k] of them, and all [k] when [done] holds of the result. *)
Definition pages_in_order {A} (done : res A -> Prop) (target : chan)
    (first k : nat) (r : res A) (evs : list event) : Prop :=
  exists n,
    n <= k
    /\ omap (Log.delivered_to target) evs = map Pdf.page_file (seq first n)
    /\ (done r -> n = k).

(** The coroutine returned. *)
Definition returned {A} (r : res A) : Prop := exists u, r = Ret u.

(** [c in s] for a character [c] *)
Fixpoint has_char (c : ascii) (s : string) : bool :=
  match s with
  | EmptyString => false
  | String d r => Ascii.eqb c d || has_char c r
  end.

(** [m] leaves the two sets of processed ids as they are. *)
Definition keeps_sets {A} (m : M A) : Prop :=
  forall s,
    processed_pdf_messages (snd (m s)) = processed_pdf_messages s
    /\ processed_files (snd (m s)) = processed_files s.

(** The message was posted in a guild where the bot has every permission
    of [checks]. *)
Definition permitted (m : message) (checks : permissions -> list (bool * string))
  : Prop :=
  exists p, bot_member m = Some p /\ forallb fst (checks p) = true.

(** [m] takes no id out of the set of processed files. *)
Definition files_grow {A} (m : M A) : Prop :=
  forall s, processed_files s ⊆ processed_files (snd (m s)).

(** The id of the message a call deletes, and the messages a call of
    [history] returned. *)
Definition deleted_message (ev : event) : option N :=
  match ev with
  | Called (DeleteMessage id) _ => Some id
  | _ => None
  end.

Definition history_read (ev : event) : option (list hmsg) :=
  match ev with
  | Called (History _ _) (Returns msgs) => Some msgs
  | _ => None
  end.

(** What a run of [create_thread_with_retry] deletes: nothing, or one
    message, the first notification among the ten messages of the one
    [history] it has read. *)
Definition one_notification (k : kind) (name : string) (evs : list event)
  : Prop :=
  omap deleted_message evs = []
  \/ exists msgs hm,
       omap history_read evs = [msgs]
       /\ find (ThreadCreator.notification k name) (firstn 10 msgs) = Some hm
       /\ omap deleted_message evs = [h_id hm].

(** The strategy a call tries to fetch a page with. *)
Definition fetch_tried (ev : event) : option strategy :=
  match ev with
  | Called (Fetch st _) _ => Some st
  | _ => None
  end.

(** A title was read in a page: [soup.title.string] is a string that is
    not empty. *)
Definition title_read (ev : event) : bool :=
  match ev with
  | Called (Soup _ _) (Returns p) => Referral.truthy (p_title p)
  | _ => false
  end.

(** An embed reached the channel [c]. *)
Definition embed_sent (c : chan) (ev : event) : bool :=
  match ev with
  | Called (SendEmbed c' _) (Returns _) => negb (chan_neb c' c)
  | _ => false
  end.

(** Neither an embed is sent nor the source message deleted. *)
Definition before_embed (ev : event) : bool :=
  match ev with
  | Called (SendEmbed _ _) _ | Called DeleteSource _ => false
  | _ => true
  end.

(** The embed was sent to [c] when the handler returns [True], and the
    source message is not deleted when it does not. *)
Definition embedded_first (c : chan) (r : res bool) (evs : list event) : Prop :=
  (r = Ret true -> existsb (embed_sent c) evs = true)
  /\ (r <> Ret true -> existsb Log.deletes_source evs = false).

(** The strings of [l] are in ascending order. *)
Fixpoint ascending (l : list string) : bool :=
  match l with
  | a :: (b :: _) as rest => String.leb a b && ascending rest
  | _ => true
  end.

(** Of the files [names], the first [n] reached [target], in this order
    and each of them once, and nothing else did; all of them did when the
    coroutine returned. *)
Definition files_in_order {A} (target : chan) (names : list string)
    (r : res A) (evs : list event) : Prop :=
  exists n,
    n <= length names
    /\ omap (Log.delivered_to target) evs = firstn n names
    /\ (returned r -> n = length names).

(** The thread [id] was created. *)
Definition thread_created (id : N) (ev : event) : bool :=
  match ev with
  | Called (CreateThread _ _) (Returns id') => N.eqb id' id
  | _ => false
  end.

(** The status message was given an error that starts with [heading]. *)
Definition error_shown (heading : string) (ev : event) : bool :=
  match ev with
  | Called (EditStatus (Some (Lit s :: _)) _) (Returns _) => String.eqb s heading
  | _ => false
  end.

(** No thread is created, and no error that starts with [heading] is
    shown. *)
Definition uneventful (heading : string) (ev : event) : bool :=
  match ev with
  | Called (CreateThread _ _) _ => false
  | _ => negb (error_shown heading ev)
  end.

(** A workflow that showed the error [heading] after it had created the
    thread [id] has asked for the deletion of that thread. *)
Definition cleaned_up (heading : string) (evs : list event) : Prop :=
  forall id,
    existsb (thread_created id) evs = true ->
    existsb (error_shown heading) evs = true ->
    existsb (Log.deletes_thread (Thread id)) evs = true.

(* ===================================================================== *)
(** * Properties *)
(* ===================================================================== *)

(** ** Sanity checks of the string helpers *)

Example lower_1 : Py.lower "Page.PDF" = "page.pdf".
Proof. reflexivity. Qed.

Example endswith_1 : Py.endswith ".pdf" "page.pdf" = true.
Proof. reflexivity. Qed.

Example rfind_1 : Py.rfind "." "a.b.c" = 3%Z.
Proof. reflexivity. Qed.

Example str_1 : Py.str_of_nat 12 = "12".
Proof. reflexivity. Qed.

(** ** Thread names *)

Lemma length_append (a b : string) :
  String.length (a ++ b)%string = String.length a + String.length b.
Proof. induction a as [|c a IH]; simpl; [reflexivity | now rewrite IH]. Qed.





(** ** Logs *)

Lemma extend_nil (s : state) : Log.extend [] s = s.
Proof. destruct s. unfold Log.extend. simpl. now rewrite app_nil_r. Qed.

Lemma extend_extend (a b : list event) (s : state) :
  Log.extend b (Log.extend a s) = Log.extend (a ++ b) s.
Proof. unfold Log.extend. simpl. now rewrite app_assoc. Qed.

Lemma record_extend (ev : event) (s : state) : record ev s = Log.extend [ev] s.
Proof. reflexivity. Qed.

Lemma log_extend (evs : list event) (s : state) :
  log (Log.extend evs s) = log s ++ evs.
Proof. reflexivity. Qed.

(** ** ThreadCreator *)

Section ThreadCreatorFacts.

Variable w : world.
Variable k : kind.
Variable parent : chan.

(** The search for the notification always returns; it creates no thread
    and does not sleep. *)
Lemma suppress_notification_returns (name : string) (s : state) :
  exists evs,
    ThreadCreator.suppress_notification w k parent name s = (Ret tt, Log.extend evs s)
    /\ omap Log.creation evs = []
    /\ omap Log.slept evs = []
    /\ omap Log.attempt evs = [].
Proof.
  unfold ThreadCreator.suppress_notification, try_except, try_then, bind, await.
  destruct (reply w _ (log s) (History parent _)) as [msgs | e]; simpl.
  - destruct (find _ (firstn 10 msgs)) as [m |]; simpl.
    + destruct (reply w _ _ (DeleteMessage (h_id m))) as [[] | e]; simpl;
        rewrite !record_extend, extend_extend; eexists; repeat split.
    + unfold ret. rewrite record_extend. eexists; repeat split.
  - unfold ret. rewrite record_extend. eexists; repeat split.
Qed.

End ThreadCreatorFacts.

Section RetrySpec.

Variable w : world.
Variable k : kind.
Variable parent : chan.

Local Ltac settle_success :=
  match goal with
  | |- context [ThreadCreator.suppress_notification w k parent ?n ?st] =>
      let evs := fresh "evs" in
      let Hc := fresh "Hc" in
      let Hs := fresh "Hs" in
      let Ht := fresh "Ht" in
      destruct (suppress_notification_returns w k parent n st)
        as (evs & -> & Hc & Hs & Ht);
      rewrite ?extend_extend; eexists; cbn zeta;
      split; [reflexivity |];
      rewrite !omap_app, Hc, Hs, Ht; simpl
  end.

Local Ltac leaf :=
  repeat match goal with
    | |- _ /\ _ => split
    | |- _ <= _ => lia
    | |- _ = _ => reflexivity
    | |- forall _, _ => intro
    | H : Some _ = Some _ |- _ => injection H as H; try discriminate H; subst
    | H : _ < 0 |- _ => exfalso; lia
    | H : ?i < 1 |- _ => assert (i = 0) by lia; subst i; clear H
    | H : ?i < 2 |- _ => destruct i as [| [| ?]]; [| | exfalso; lia]; clear H
    | |- exists e, Some (Raises ?x) = Some (Raises e) /\ _ => exists x; split; [reflexivity |]
    | |- exists e, _ !! _ = Some (Raises e) /\ _ => eexists; split; [reflexivity |]
    | |- _ \/ _ => first [left; assumption | right; reflexivity]
    | _ => assumption
    end.

(** The complete behaviour of the method, read off the log it leaves:
    between one and three creations; every creation but the last failed
    with [Forbidden]; a failure that ends the run is not a [Forbidden], or
    it is the third; the sleeps are 2 and 4 seconds, one after each
    failed creation but the last, and 2 more seconds after a success; the
    method returns the thread of the last creation, or [None]. *)
Lemma create_thread_with_retry_run (name : string) (s : state) :
  exists evs,
    let outs := omap Log.creation evs in
    snd (ThreadCreator.create_thread_with_retry w k parent name s) = Log.extend evs s
    /\ 1 <= length outs <= 3
    /\ (forall i, i < length outs - 1 ->
          exists e, outs !! i = Some (Raises e) /\ isinstance e Forbidden = true)
    /\ (forall e, last outs = Some (Raises e) ->
          isinstance e Forbidden = false \/ length outs = 3)
    /\ omap Log.slept evs
       = firstn (length outs - 1) [2; 4]%Q
         ++ match last outs with Some (Returns _) => [2%Q] | _ => [] end
    /\ omap Log.attempt evs = Log.schedule outs [2; 4]%Q
    /\ fst (ThreadCreator.create_thread_with_retry w k parent name s)
       = match last outs with
         | Some (Returns id) => Ret (Some (Thread id))
         | _ => Ret None
         end.
Proof.
  unfold ThreadCreator.create_thread_with_retry. simpl seq.
  unfold ThreadCreator.attempts, try_then, bind, await, sleep.
  change ThreadCreator.max_retries with 3.
  change (0 =? 3 - 1)%nat with false.
  change (1 =? 3 - 1)%nat with false.
  change (2 =? 3 - 1)%nat with true.
  change (inject_Z 2) with 2%Q. change (inject_Z (2 * 2)) with 4%Q.
  cbv iota beta.
  destruct (reply w _ (log s) (CreateThread parent name)) as [id | e] eqn:E1.
  { rewrite !record_extend, extend_extend. settle_success. leaf. }
  destruct (isinstance e Forbidden) eqn:F1;
    [| unfold ret; rewrite record_extend; eexists; cbn zeta;
       split; [reflexivity |]; simpl; leaf ].
  cbv beta. rewrite !record_extend, ?extend_extend. simpl app.
  match goal with |- context [reply w N ?l _] => destruct (reply w N l (CreateThread parent name)) as [id | e2] eqn:E2 end.
  { rewrite !record_extend, !extend_extend. settle_success. leaf. }
  destruct (isinstance e2 Forbidden) eqn:F2;
    [| unfold ret; rewrite record_extend, extend_extend; eexists; cbn zeta;
       split; [reflexivity |]; simpl; leaf ].
  rewrite !record_extend, !extend_extend. simpl app.
  match goal with |- context [reply w N ?l _] => destruct (reply w N l (CreateThread parent name)) as [id | e3] eqn:E3 end.
  { rewrite !record_extend, !extend_extend. settle_success. leaf. }
  destruct (isinstance e3 Forbidden) eqn:F3;
    unfold ret; rewrite record_extend, extend_extend; eexists; cbn zeta;
    (split; [reflexivity |]); simpl; leaf.
Qed.

End RetrySpec.

(** In a world where every creation is refused, the three attempts are
    separated by sleeps of 2 and 4 seconds: the third refusal returns [None]
    at once, and no delay of 8 seconds is ever waited. *)
Lemma backoff_has_no_third_delay :
  let run := ThreadCreator.create_thread_with_retry Worlds.no_threads pdf
               (TextChannel 1) "report.pdf" initial in
  fst run = Ret None
  /\ length (omap Log.creation (log (snd run))) = 3
  /\ omap Log.slept (log (snd run)) = [2; 4]%Q
  /\ omap Log.slept (log (snd run)) <> [2; 4; 8]%Q.
Proof. vm_compute. repeat split; discriminate. Qed.

(** C2, amended.  A run of [create_thread_with_retry] always returns: it
    never raises.  It makes between one and three creation attempts.  An
    attempt that succeeds, or that fails with anything but a permission
    error, is the last one; the first or the second attempt that fails
    with a permission error is followed by another attempt.  The result
    is the thread of the last attempt when that one succeeded and [None]
    otherwise.  The sleeps are 2 and then 4 seconds, one after each failed
    attempt that is retried, and the 2 seconds that follow a success: in
    the log, 2 seconds lie between the first attempt and the second, 4
    between the second and the third, and nothing is waited after a last
    attempt that failed. *)
Theorem create_thread_with_retry_bounded
    (w : world) (k : kind) (parent : chan) (name : string) (s : state) :
  exists (evs : list event) (o : option chan),
    let outs := omap Log.creation evs in
    ThreadCreator.create_thread_with_retry w k parent name s
      = (Ret o, Log.extend evs s)
    /\ 1 <= length outs <= 3
    /\ (forall i id, outs !! i = Some (Returns id) -> S i = length outs)
    /\ (forall i e, outs !! i = Some (Raises e) ->
          isinstance e Forbidden = false -> S i = length outs)
    /\ (forall i e, outs !! i = Some (Raises e) ->
          isinstance e Forbidden = true -> i < 2 -> S i < length outs)
    /\ o = match last outs with
           | Some (Returns id) => Some (Thread id)
           | _ => None
           end
    /\ omap Log.slept evs
       = firstn (length outs - 1) [2; 4]%Q
         ++ match o with Some _ => [2%Q] | None => [] end
    /\ omap Log.attempt evs = Log.schedule outs [2; 4]%Q.
Proof.
  destruct (create_thread_with_retry_run w k parent name s)
    as (evs & Hs & Hn & Hpre & Hlast & Hsl & Hat & Hr).
  cbn zeta in *.
  set (outs := omap Log.creation evs) in *.
  exists evs,
    (match last outs with Some (Returns id) => Some (Thread id) | _ => None end).
  cbn zeta. fold outs.
  split; [| split; [lia | split; [| split; [| split; [| split;
    [reflexivity | split; [| exact Hat]]]]]]].
  - destruct (ThreadCreator.create_thread_with_retry w k parent name s) as [r s'].
    simpl in *. subst s'. f_equal. rewrite Hr.
    destruct (last outs) as [[id | e] |]; reflexivity.
  - intros i id Hi.
    assert (Hlt : i < length outs) by (eapply lookup_lt_Some; eassumption).
    destruct (Nat.eq_dec (S i) (length outs)) as [? | Hne]; [assumption |].
    destruct (Hpre i) as (e & He & _); [lia |]. congruence.
  - intros i e Hi Hf.
    assert (Hlt : i < length outs) by (eapply lookup_lt_Some; eassumption).
    destruct (Nat.eq_dec (S i) (length outs)) as [? | Hne]; [assumption |].
    destruct (Hpre i) as (e' & He' & Hf'); [lia |]. congruence.
  - intros i e Hi Hf Hi2.
    assert (Hlt : i < length outs) by (eapply lookup_lt_Some; eassumption).
    destruct (Nat.eq_dec (S i) (length outs)) as [Heq | Hne]; [| lia].
    assert (Hl : last outs = Some (Raises e)).
    { rewrite last_lookup, <- Heq. exact Hi. }
    destruct (Hlast e Hl) as [K | K]; [congruence | lia].
  - rewrite Hsl. destruct (last outs) as [[id | e] |]; reflexivity.
Qed.

(** ** ChoicePrompt *)

Section ChoicePromptFacts.

Variable w : world.
Variable process : bool -> M unit.

(** A press on a view whose flag is set is answered by [defer] alone and
    leaves the view as it is. *)
Lemma press_clicked (c : ChoicePrompt.choice) (v : ChoicePrompt.view) (s : state) :
  ChoicePrompt.button_clicked v = true ->
  exists ev,
    ChoicePrompt.presses w process [c] v s = (v, Log.extend [ev] s)
    /\ Log.is_defer ev = true.
Proof.
  intros Hv. unfold ChoicePrompt.presses, ChoicePrompt.press. rewrite Hv.
  unfold await. simpl.
  destruct (reply w unit (log s) Defer) as [[] | e]; simpl;
    rewrite record_extend; eexists; split; reflexivity.
Qed.

Lemma presses_clicked (cs : list ChoicePrompt.choice) (v : ChoicePrompt.view) (s : state) :
  ChoicePrompt.button_clicked v = true ->
  exists evs,
    ChoicePrompt.presses w process cs v s = (v, Log.extend evs s)
    /\ length evs = length cs
    /\ Forall (fun ev => Log.is_defer ev = true) evs.
Proof.
  intros Hv. revert s.
  induction cs as [| c cs IH]; intros s.
  - exists []. rewrite extend_nil. repeat split. constructor.
  - destruct (press_clicked c v s Hv) as (ev & Hp & Hd).
    simpl in Hp. simpl.
    destruct (ChoicePrompt.press w process c v) as [m v'].
    injection Hp as Hv' Hs. subst v'. rewrite Hs.
    destruct (IH (Log.extend [ev] s)) as (evs & -> & Hlen & Hall).
    rewrite extend_extend.
    exists (ev :: evs). simpl. repeat split; [now rewrite Hlen |].
    constructor; assumption.
Qed.

End ChoicePromptFacts.

(** C3.  On a fresh view, of any of the five kinds, the first press is the
    only one that is honoured: it sets the flag, disables the buttons and
    runs the workflow once.  Each later press, on either button, calls
    [defer] and nothing else, so that the workflow is not run again and
    nothing more is uploaded. *)
Theorem single_activation
    (w : world) (process : bool -> M unit)
    (c : ChoicePrompt.choice) (rest : list ChoicePrompt.choice) (s : state) :
  let first := snd ((await w EditInteraction ;;
                     process (ChoicePrompt.use_thread c)) s) in
  exists evs,
    ChoicePrompt.presses w process (c :: rest) ChoicePrompt.new_view s
      = ({| ChoicePrompt.button_clicked := true; ChoicePrompt.disabled := true |},
         Log.extend evs first)
    /\ length evs = length rest
    /\ Forall (fun ev => Log.is_defer ev = true) evs
    /\ filter Log.is_upload (log (Log.extend evs first))
       = filter Log.is_upload (log first).
Proof.
  cbn zeta. simpl ChoicePrompt.presses.
  destruct (presses_clicked w process rest
              {| ChoicePrompt.button_clicked := true; ChoicePrompt.disabled := true |}
              (snd ((await w EditInteraction ;;
                     process (ChoicePrompt.use_thread c)) s)) eq_refl)
    as (evs & Hp & Hlen & Hall).
  exists evs. repeat split; try assumption.
  rewrite log_extend, filter_app.
  assert (Hnone : filter Log.is_upload evs = []).
  { clear - Hall. induction Hall as [| ev evs Hd _ IH]; [reflexivity |].
    rewrite filter_cons. destruct ev as [A c r | A c]; [| discriminate].
    destruct c; try discriminate. simpl. exact IH. }
  rewrite Hnone. apply app_nil_r.
Qed.

(** ** Image batches *)

Example is_image_1 :
  map (fun f => Image.is_image false {| att_id := 1; filename := f; size := 10 |})
      ["photo.PNG"; "scan.tiff"; "notes.pdf"; ".png"; "archive.tar.gz"; "a.jpeg"]
  = [true; true; false; false; false; true].
Proof. reflexivity. Qed.

(** With ntpath the backslash is a separator: a name whose last dot comes
    right after one has no extension. *)
Example is_image_nt :
  map (fun nt => Image.is_image nt {| att_id := 1; filename := "a\.png"; size := 10 |})
      [false; true]
  = [true; false].
Proof. reflexivity. Qed.

(** C10.  A message with fewer than two attachments of a supported image
    extension, so also one with a single image, is declined by the image
    handler: it returns [False] and calls nothing, so no prompt is shown and
    nothing is sent. *)
Theorem single_image_not_batched (w : world) (m : message) (s : state) :
  length (Image.image_attachments (os_path_nt w) m) < 2 ->
  Image.handle_image_batch w m s = (Ret false, s).
Proof.
  intros Hlt. unfold Image.handle_image_batch.
  destruct (attachments m) as [| a l]; [reflexivity |].
  apply Nat.ltb_lt in Hlt. now rewrite Hlt.
Qed.

Lemma single_image_not_batched_witness :
  let m := {| msg_id := 1; author_is_bot := false; channel := TextChannel 10;
              content := "look at this";
              attachments := [{| att_id := 5; filename := "photo.png"; size := 2048 |}];
              bot_member := None |} in
  length (Image.image_attachments (os_path_nt Worlds.calm) m) = 1
  /\ Image.handle_image_batch Worlds.calm m initial = (Ret false, initial).
Proof.
  split; [reflexivity |].
  apply (single_image_not_batched Worlds.calm). vm_compute. lia.
Defined.

(** ** Delivery of the pages of a PDF *)

(** C4.  A PDF of two pages is posted inside a thread and "Create Thread"
    is pressed.  A thread has no [create_thread], so the target falls back
    to the channel of the message, which is that thread.  [process_pdf] does
    not send the first page on its own, as the target is the channel of the
    message; [convert_and_upload_pdf] skips it all the same, as the target
    is a thread.  The run ends well, and page_2.png alone has reached the
    target: ordinal 1 is missing. *)
Theorem first_page_lost_in_thread_channel :
  let m := Samples.post_in_thread EmptyString [Samples.report] in
  let run := Pdf.process_pdf Samples.inside_thread m Samples.report true initial in
  fst run = Ret tt
  /\ omap (Log.delivered_to (channel m)) (log (snd run)) = ["page_2.png"]
  /\ omap (Log.delivered_to (channel m)) (log (snd run))
     <> map Pdf.page_file (seq 1 2)
  /\ Log.final_status (log (snd run)) = Some (Some Pdf.fallback_warning).
Proof. vm_compute. repeat split; discriminate. Qed.

(** The same document posted in a text channel: both pages reach the new
    thread, in order, the first one sent by [process_pdf]. *)
Example pages_in_new_thread :
  let m := Samples.post EmptyString [Samples.report] in
  let run := Pdf.process_pdf Worlds.calm m Samples.report true initial in
  fst run = Ret tt
  /\ omap (Log.delivered_to (Thread 7000)) (log (snd run))
     = map Pdf.page_file (seq 1 2)
  /\ Log.final_status (log (snd run)) = Some (Some [Mention (Thread 7000)]).
Proof. vm_compute. repeat split. Qed.

(** "Post Here": both pages reach the channel, the status message and the
    source message are deleted. *)
Example pages_in_channel :
  let m := Samples.post EmptyString [Samples.report] in
  let run := Pdf.process_pdf Worlds.calm m Samples.report false initial in
  fst run = Ret tt
  /\ omap (Log.delivered_to (TextChannel 10)) (log (snd run))
     = map Pdf.page_file (seq 1 2)
  /\ Log.final_status (log (snd run)) = Some None
  /\ last (log (snd run)) = Some (Called DeleteSource (Returns tt)).
Proof. vm_compute. repeat split. Qed.

(** ** Cleaning up after a failure *)

(** C6.  "Create Thread" is pressed on a PDF, the thread 7000 is created and
    its first page sent; the five minutes of [wait_for] then run out during
    the upload.  The [except asyncio.TimeoutError] clause edits the status
    and stops there: the thread is not deleted. *)
Theorem timeout_leaves_thread :
  let m := Samples.post EmptyString [Samples.report] in
  let run := Pdf.process_pdf Samples.slow_upload m Samples.report true initial in
  fst run = Ret tt
  /\ omap Log.creation (log (snd run)) = [Returns 7000%N]
  /\ Log.final_status (log (snd run))
     = Some (Some [Lit "❌ PDF processing timed out after 5 minutes."])
  /\ existsb (Log.deletes_thread (Thread 7000)) (log (snd run)) = false.
Proof. vm_compute. repeat split. Qed.

(** The clause next to it does delete the thread: here the second page
    cannot be rendered, and the conversion fails. *)
Example conversion_failure_deletes_thread :
  let m := Samples.post EmptyString [Samples.report] in
  let run := Pdf.process_pdf Samples.broken_page m Samples.report true initial in
  fst run = Ret tt
  /\ omap Log.creation (log (snd run)) = [Returns 7000%N]
  /\ last (log (snd run)) = Some (Called (DeleteThread (Thread 7000)) (Returns tt)).
Proof. vm_compute. repeat split. Qed.

(** A video that has to be cut in segments: when ffmpeg fails after the
    thread was created, [handle_large_video] reports the error itself and
    the thread stays. *)
Example large_video_failure_leaves_thread :
  let m := Samples.post EmptyString [Samples.clip] in
  let run := Mp4.process_video Samples.no_duration m Samples.clip true initial in
  fst run = Ret tt
  /\ omap Log.creation (log (snd run)) = [Returns 7000%N]
  /\ Log.final_status (log (snd run))
     = Some (Some [Lit "❌ Could not process large video: ";
                   Val "Could not determine video duration"])
  /\ existsb (Log.deletes_thread (Thread 7000)) (log (snd run)) = false.
Proof. vm_compute. repeat split. Qed.

(** ** Coroutines that always return *)


Lemma returns_ret {A} (a : A) (Q : A -> list event -> Prop) :
  Q a [] -> returns (ret a) Q.
Proof. intros H s. exists a, []. now rewrite extend_nil. Qed.

Lemma returns_bind {A B} (m : M A) (k : A -> M B)
    (Q1 : A -> list event -> Prop) (Q : B -> list event -> Prop) :
  returns m Q1 ->
  (forall a evs1, Q1 a evs1 -> returns (k a) (fun b evs2 => Q b (evs1 ++ evs2))) ->
  returns (bind m k) Q.
Proof.
  intros Hm Hk s. unfold bind.
  destruct (Hm s) as (a & evs1 & -> & H1).
  destruct (Hk a evs1 H1 (Log.extend evs1 s)) as (b & evs2 & -> & H2).
  exists b, (evs1 ++ evs2). now rewrite extend_extend.
Qed.

Lemma returns_weaken {A} (m : M A) (Q Q' : A -> list event -> Prop) :
  returns m Q -> (forall a evs, Q a evs -> Q' a evs) -> returns m Q'.
Proof.
  intros Hm HQ s. destruct (Hm s) as (a & evs & E & H).
  exists a, evs. split; [exact E | now apply HQ].
Qed.

(** ** Referral links *)


Lemma none_fetched_app (a b : list event) :
  none_fetched (a ++ b) <-> none_fetched a /\ none_fetched b.
Proof. apply Forall_app. Qed.

Section ReferralFacts.

Variable w : world.
Variable cfg : config.

Lemma fetch_returns (st : strategy) (u : string) :
  returns (Referral.fetch w st u)
    (fun html evs => none_fetched evs -> html = None).
Proof.
  intros s. unfold Referral.fetch, try_except, try_then, bind, await, ret.
  destruct (reply w _ (log s) (Fetch st u)) as [h | e]; simpl;
    rewrite record_extend; eexists _, _; (split; [reflexivity |]).
  - intros H. inversion H as [| ? ? H1 _]. discriminate H1.
  - reflexivity.
Qed.

Lemma extract_returns (html : option string) (dom u : string) :
  returns (Referral.extract_metadata_from_html w html dom u)
    (fun md evs =>
       none_fetched evs
       /\ (html = None -> md = None)
       /\ (forall d, md = Some d -> Referral.domain d = dom)).
Proof.
  intros s. unfold Referral.extract_metadata_from_html.
  destruct (Referral.truthy html) eqn:T.
  - unfold try_except, try_then, bind, await, ret.
    destruct (reply w _ (log s) (Soup _ u)) as [p | e]; simpl;
      rewrite record_extend; eexists _, _; (split; [reflexivity |]);
      (split; [repeat constructor |]); split;
      try (intros ->; discriminate T); intros d Hd; try discriminate Hd.
    now injection Hd as <-.
  - exists None, []. unfold ret. rewrite extend_nil.
    repeat split; try constructor. discriminate.
Qed.

Lemma fallback_shape (dom u : string) :
  Referral.truthy (Referral.title (Referral.fallback dom u)) = true
  /\ Referral.domain (Referral.fallback dom u) = dom
  /\ Referral.error (Referral.fallback dom u) = Some "403 Forbidden".
Proof.
  unfold Referral.fallback.
  destruct (Py.contains "blofin.com" dom); repeat split.
Qed.

Lemma embed_title (u : string) (md : Referral.metadata) :
  Referral.truthy (Referral.title md) = true ->
  Some (e_title (Referral.create_referral_embed u md)) = Referral.title md
  /\ e_title (Referral.create_referral_embed u md) <> EmptyString.
Proof.
  simpl. unfold Referral.or_else, Referral.truthy.
  destruct (Referral.title md) as [t |]; [| discriminate].
  destruct (String.eqb t EmptyString) eqn:E; [discriminate |].
  intros _. split; [reflexivity | now apply String.eqb_neq].
Qed.

End ReferralFacts.

Section MetadataFetcher.

Variable w : world.
Variable cfg : config.
Variable urlparse_netloc : string -> option string.


Lemma get_website_metadata_returns (u dom : string) :
  urlparse_netloc u = Some dom ->
  returns (Referral.get_website_metadata w cfg urlparse_netloc u)
    (fun md evs =>
       Referral.truthy (Referral.title md) = true
       /\ Referral.domain md = dom
       /\ (none_fetched evs -> md = Referral.fallback dom u)).
Proof.
  intros Hn. unfold Referral.get_website_metadata. rewrite Hn.
  eapply returns_bind; [apply fetch_returns |]. intros html e1 H1.
  eapply returns_bind; [apply extract_returns |]. intros md e2 (H2a & H2b & H2c).
  eapply returns_bind with
    (Q1 := fun both evs => gathered dom (e1 ++ e2) (snd both) evs).
  { destruct (Referral.incomplete html md).
    - eapply returns_bind; [apply fetch_returns |]. intros html' e3 H3.
      eapply returns_bind; [apply extract_returns |]. intros mb e4 (H4a & H4b & H4c).
      apply returns_ret. simpl. split.
      + intros d Hd. destruct mb as [m1 |], md as [m0 |];
          try discriminate Hd; injection Hd as <-; auto.
        change (Referral.domain m0 = dom). auto.
      + intros Hnf. rewrite app_nil_r in Hnf.
        apply none_fetched_app in Hnf as [Hnf12 Hnf34].
        apply none_fetched_app in Hnf12 as [Hnf1 _].
        apply none_fetched_app in Hnf34 as [Hnf3 _].
        rewrite (H4b (H3 Hnf3)), (H2b (H1 Hnf1)). reflexivity.
    - apply returns_ret. simpl. split; [exact H2c |].
      intros Hnf. rewrite app_nil_r in Hnf.
      apply none_fetched_app in Hnf as [Hnf1 _].
      exact (H2b (H1 Hnf1)). }
  intros [html2 md2] e3 [G1 G2]. simpl in G1, G2. cbn zeta. simpl fst. simpl snd.
  eapply returns_bind with
    (Q1 := fun md3 evs => gathered dom ((e1 ++ e2) ++ e3) md3 evs).
  { destruct (Referral.incomplete html2 md2 && SELENIUM_AVAILABLE cfg).
    - eapply returns_bind; [apply fetch_returns |]. intros html' e4 H4.
      eapply returns_bind; [apply extract_returns |]. intros sel e5 (H5a & H5b & H5c).
      apply returns_ret. simpl. split.
      + intros d Hd. destruct sel as [m1 |]; [injection Hd as <- |]; auto.
      + intros Hnf. rewrite app_nil_r in Hnf.
        apply none_fetched_app in Hnf as [Hnf123 Hnf45].
        apply none_fetched_app in Hnf45 as [Hnf4 _].
        rewrite (H5b (H4 Hnf4)). auto.
    - apply returns_ret. split; [exact G1 |].
      rewrite app_nil_r. exact G2. }
  intros md3 e4 [K1 K2].
  destruct (fallback_shape dom u) as (F1 & F2 & _).
  assert (Hall : forall evs, none_fetched (e1 ++ e2 ++ e3 ++ e4 ++ evs) -> md3 = None).
  { intros evs Hnf. apply K2.
    rewrite !app_assoc in Hnf. apply none_fetched_app in Hnf as [Hnf _].
    rewrite <- !app_assoc in *. exact Hnf. }
  destruct md3 as [d |].
  - destruct (Referral.truthy (Referral.title d)) eqn:T; apply returns_ret.
    + repeat split; auto. intros Hnf. now specialize (Hall [] Hnf).
    + repeat split; auto.
  - apply returns_ret. repeat split; auto.
Qed.

End MetadataFetcher.

(** [urlparse] rejects "http://a[b", whose host has an opening bracket
    and no closing one: [get_website_metadata] raises the [ValueError] of
    its first line to its caller, and no page is asked for. *)
Lemma unbalanced_bracket_raises :
  let run := Referral.get_website_metadata Worlds.calm default_config
               Samples.netloc "http://a[b" initial in
  Samples.netloc "http://a[b" = None
  /\ fst run = Raise (value_error "Invalid IPv6 URL")
  /\ log (snd run) = [].
Proof. vm_compute. repeat split. Qed.

(** C9, amended.  For a URL that [urlparse] accepts, [get_website_metadata]
    returns a record in every world: no failure of a fetch or of the
    parsing of a page reaches the caller.  The record has a title that is
    not empty and the domain of the URL; the embed made of it has that
    title.  When none of the strategies fetches a page, the record is the
    placeholder, which carries the error tag.  For a URL that [urlparse]
    rejects, the [ValueError] of [urlparse] reaches the caller before any
    call is made. *)
Theorem metadata_fetch_never_fails
    (w : world) (cfg : config) (urlparse_netloc : string -> option string)
    (u : string) (s : state) :
  (forall dom, urlparse_netloc u = Some dom ->
     exists md evs,
       Referral.get_website_metadata w cfg urlparse_netloc u s
         = (Ret md, Log.extend evs s)
       /\ Referral.truthy (Referral.title md) = true
       /\ Referral.domain md = dom
       /\ Some (e_title (Referral.create_referral_embed u md))
          = Referral.title md
       /\ e_title (Referral.create_referral_embed u md) <> EmptyString
       /\ (none_fetched evs ->
             md = Referral.fallback dom u
             /\ Referral.error md = Some "403 Forbidden"))
  /\ (urlparse_netloc u = None ->
      Referral.get_website_metadata w cfg urlparse_netloc u s
      = (Raise (value_error "Invalid IPv6 URL"), s)).
Proof.
  split.
  - intros dom Hn.
    destruct (get_website_metadata_returns w cfg urlparse_netloc u dom Hn s)
      as (md & evs & E & T & D & F).
    destruct (embed_title u md T) as [E1 E2].
    exists md, evs.
    split; [exact E |]. split; [exact T |]. split; [exact D |].
    split; [exact E1 |]. split; [exact E2 |].
    intros Hnf. split; [now apply F |].
    rewrite (F Hnf). apply (fallback_shape dom u).
  - intros Hn. unfold Referral.get_website_metadata. now rewrite Hn.
Qed.

(** ** Coroutines whose events obey a rule *)


Section Obeys.

Variable P : event -> bool.

Lemma obeys_weaken {A} (Q Q' : A -> Prop) (m : M A) :
  obeys P Q m -> (forall a, Q a -> Q' a) -> obeys P Q' m.
Proof.
  intros Hm HQ s. destruct (Hm s) as (evs & E & F & R).
  exists evs. repeat split; auto.
Qed.

Lemma obeys_any {A} (Q : A -> Prop) (m : M A) : obeys P Q m -> obeys P any m.
Proof. intros Hm. apply (obeys_weaken Q); [exact Hm | now intros]. Qed.

Lemma obeys_ret {A} (Q : A -> Prop) (a : A) : Q a -> obeys P Q (ret a).
Proof.
  intros H s. exists []. simpl. rewrite app_nil_r.
  repeat split. intros b Hb. now injection Hb as <-.
Qed.

Lemma obeys_raise {A} (Q : A -> Prop) (e : exn) : obeys P Q (@raise A e).
Proof.
  intros s. exists []. simpl. rewrite app_nil_r. repeat split. discriminate.
Qed.

Lemma obeys_try_then {A B} (Q1 : A -> Prop) (Q : B -> Prop)
    (m : M A) (h : exn -> M B) (k : A -> M B) :
  obeys P Q1 m ->
  (forall e, obeys P Q (h e)) ->
  (forall a, Q1 a -> obeys P Q (k a)) ->
  obeys P Q (try_then m h k).
Proof.
  intros Hm Hh Hk s. unfold try_then.
  destruct (Hm s) as (evs1 & E1 & F1 & R1).
  destruct (m s) as [[a | e |] s1]; simpl in *.
  - destruct (Hk a (R1 a eq_refl) s1) as (evs2 & E2 & F2 & R2).
    exists (evs1 ++ evs2). rewrite E2, E1, app_assoc, forallb_app, F1, F2.
    repeat split. exact R2.
  - destruct (Hh e s1) as (evs2 & E2 & F2 & R2).
    exists (evs1 ++ evs2). rewrite E2, E1, app_assoc, forallb_app, F1, F2.
    repeat split. exact R2.
  - exists evs1. repeat split; auto. discriminate.
Qed.

Lemma obeys_bind {A B} (Q1 : A -> Prop) (Q : B -> Prop)
    (m : M A) (k : A -> M B) :
  obeys P Q1 m -> (forall a, Q1 a -> obeys P Q (k a)) -> obeys P Q (bind m k).
Proof.
  intros Hm Hk.
  assert (E : bind m k = try_then m raise k).
  { unfold bind, try_then, raise. reflexivity. }
  rewrite E. apply (obeys_try_then Q1); auto. intros e. apply obeys_raise.
Qed.

Lemma obeys_try_except {A} (Q : A -> Prop) (m : M A) (h : exn -> M A) :
  obeys P Q m -> (forall e, obeys P Q (h e)) -> obeys P Q (try_except m h).
Proof.
  intros Hm Hh. unfold try_except. apply (obeys_try_then Q); auto.
  intros a Ha. now apply obeys_ret.
Qed.

Lemma obeys_try_finally {A} (Q : A -> Prop) (m : M A) (f : M unit) :
  obeys P Q m -> obeys P any f -> obeys P Q (try_finally m f).
Proof.
  intros Hm Hf s. unfold try_finally.
  destruct (Hm s) as (evs1 & E1 & F1 & R1).
  destruct (m s) as [r s1]; simpl in *.
  destruct (Hf s1) as (evs2 & E2 & F2 & _).
  exists (evs1 ++ evs2).
  destruct (f s1) as [[[] | e |] s2]; simpl in *;
    rewrite E2, E1, app_assoc, forallb_app, F1, F2;
    repeat split; auto; discriminate.
Qed.

Lemma obeys_wait_for {A} (Q : A -> Prop) (m : M A) :
  obeys P Q m -> obeys P Q (wait_for m).
Proof.
  intros Hm s. unfold wait_for.
  destruct (Hm s) as (evs & E & F & R).
  exists evs. destruct (m s) as [[a | e |] s1]; simpl in *;
    repeat split; auto; discriminate.
Qed.

Section Calls.

Variable w : world.

Lemma obeys_await {A} (c : call A) :
  (forall r, P (Called c r) = true) -> obeys P any (await w c).
Proof.
  intros HP s. unfold await.
  destruct (reply w A (log s) c) as [a | e]; simpl;
    eexists [_]; simpl; rewrite HP; repeat split.
Qed.

Lemma obeys_await_within {A} (c : call A) :
  (forall r, P (Called c r) = true) -> P (Pending c) = true ->
  obeys P any (await_within w c).
Proof.
  intros HP HQ s. unfold await_within.
  destruct (deadline w A (log s) c).
  - eexists [_]; simpl. rewrite HQ. repeat split.
  - now apply obeys_await.
Qed.

Lemma obeys_sleep (d : Q) :
  P (Called (Sleep d) (Returns tt)) = true -> obeys P any (sleep d).
Proof. intros HP s. eexists [_]; simpl. rewrite HP. repeat split. Qed.

Lemma obeys_sleep_within (d : Q) :
  P (Called (Sleep d) (Returns tt)) = true -> P (Pending (Sleep d)) = true ->
  obeys P any (sleep_within w d).
Proof.
  intros HP HQ s. unfold sleep_within.
  destruct (deadline w unit (log s) (Sleep d)).
  - eexists [_]; simpl. rewrite HQ. repeat split.
  - now apply obeys_sleep.
Qed.

End Calls.

Lemma obeys_remove_processed_pdf (id : N) : obeys P any (remove_processed_pdf id).
Proof. intros s. exists []. simpl. rewrite app_nil_r. repeat split. Qed.

Lemma obeys_add_processed_pdf (id : N) : obeys P any (add_processed_pdf id).
Proof. intros s. exists []. simpl. rewrite app_nil_r. repeat split. Qed.

Lemma obeys_add_processed_file (id : N) : obeys P any (add_processed_file id).
Proof. intros s. exists []. simpl. rewrite app_nil_r. repeat split. Qed.

Lemma obeys_in_processed_pdf (id : N) : obeys P any (in_processed_pdf id).
Proof. intros s. exists []. simpl. rewrite app_nil_r. repeat split. Qed.

Lemma obeys_in_processed_files (id : N) : obeys P any (in_processed_files id).
Proof. intros s. exists []. simpl. rewrite app_nil_r. repeat split. Qed.

End Obeys.

Lemma chan_neb_refl (c : chan) : chan_neb c c = false.
Proof.
  unfold chan_neb. rewrite N.eqb_refl. now destruct (is_thread c).
Qed.

Arguments chan_neb : simpl never.
Arguments isinstance : simpl never.

(** One step of a proof that a coroutine obeys a rule: follow the
    structure of the coroutine; a call is checked against the rule. *)
Ltac call_ok :=
  intros;
  repeat match goal with
    | r : answer _ |- _ => destruct r
    end;
  cbv [Log.fallback_ok Log.to_channel Log.no_mention Log.quiet Log.is_upload
       Log.deletes_source Log.keeps_source Log.no_upload Log.keeps_threads
       negb
       Bot.no_start Bot.start];
  rewrite ?chan_neb_refl; reflexivity.

Ltac obey_step :=
  match goal with
  | |- obeys _ _ (ret _) => apply obeys_ret; exact I
  | |- obeys _ _ (raise _) => apply obeys_raise
  | |- obeys ?P _ (bind _ _) => eapply (obeys_bind P any); [| intros ? _]
  | |- obeys ?P _ (try_then _ _ _) =>
      eapply (obeys_try_then P any); [| intros ? | intros ? _]
  | |- obeys _ _ (try_except _ _) => eapply obeys_try_except; [| intros ?]
  | |- obeys _ _ (try_finally _ _) => eapply obeys_try_finally
  | |- obeys _ _ (wait_for _) => eapply obeys_wait_for
  | |- obeys _ _ (await _ _) => apply obeys_await; call_ok
  | |- obeys _ _ (await_within _ _) => apply obeys_await_within; call_ok
  | |- obeys _ _ (sleep _) => apply obeys_sleep; call_ok
  | |- obeys _ _ (sleep_within _ _) => apply obeys_sleep_within; call_ok
  | |- obeys _ _ (remove_processed_pdf _) => apply obeys_remove_processed_pdf
  | |- obeys _ _ (add_processed_pdf _) => apply obeys_add_processed_pdf
  | |- obeys _ _ (add_processed_file _) => apply obeys_add_processed_file
  | |- obeys _ _ (in_processed_pdf _) => apply obeys_in_processed_pdf
  | |- obeys _ _ (in_processed_files _) => apply obeys_in_processed_files
  | |- obeys _ _ (if ?b then _ else _) => destruct b eqn:?
  | |- obeys _ _ (match ?x with _ => _ end) => destruct x eqn:?
  | |- obeys _ _ (let (_, _) := ?x in _) => destruct x eqn:?
  end.

Ltac obey := repeat obey_step.

(** ** Falling back to the channel *)

Section Fallback.

Variable w : world.
Hypothesis no_thread : creation_fails w.

(** When no thread can be created, [create_thread_with_retry] returns
    [None]; it uploads nothing and leaves the status message and the
    source message alone. *)
Lemma create_thread_fails (k : kind) (parent : chan) (name : string) :
  obeys Log.quiet (fun o => o = None)
    (ThreadCreator.create_thread_with_retry w k parent name).
Proof.
  intros s.
  unfold ThreadCreator.create_thread_with_retry. simpl seq.
  unfold ThreadCreator.attempts, try_then, bind, await, sleep, ret.
  change ThreadCreator.max_retries with 3.
  change (0 =? 3 - 1)%nat with false.
  change (1 =? 3 - 1)%nat with false.
  change (2 =? 3 - 1)%nat with true.
  cbv iota beta.
  destruct (no_thread (log s) parent name) as [e1 ->].
  destruct (isinstance e1 Forbidden);
    [| eexists [_]; simpl; repeat split; intros a Ha; now injection Ha as <- ].
  match goal with |- context [reply w N ?l _] =>
    destruct (no_thread l parent name) as [e2 ->] end.
  destruct (isinstance e2 Forbidden);
    [| eexists [_; _; _]; simpl; rewrite <- !app_assoc; repeat split;
       intros a Ha; now injection Ha as <- ].
  match goal with |- context [reply w N ?l _] =>
    destruct (no_thread l parent name) as [e3 ->] end.
  destruct (isinstance e3 Forbidden);
    eexists [_; _; _; _; _]; simpl; rewrite <- !app_assoc; repeat split;
    intros a Ha; now injection Ha as <-.
Qed.

Lemma obeys_mono {A} (P P' : event -> bool) (Q : A -> Prop) (m : M A) :
  (forall ev, P ev = true -> P' ev = true) -> obeys P Q m -> obeys P' Q m.
Proof.
  intros HP Hm s. destruct (Hm s) as (evs & E & F & R).
  exists evs. repeat split; auto.
  rewrite forallb_forall in *. auto.
Qed.

Lemma quiet_fallback_ok (c : chan) (ev : event) :
  Log.quiet ev = true -> Log.fallback_ok c ev = true.
Proof.
  destruct ev as [A [] r | A []]; simpl; try reflexivity; discriminate.
Qed.

Variable cfg : config.
Variable m : message.
Variable a : attachment.








End Fallback.


(** ** Coroutines and what they add to the log *)


Lemma sat_intro {A} (m : M A) (T : res A -> list event -> Prop) :
  (forall s r s', m s = (r, s') -> exists evs, log s' = log s ++ evs /\ T r evs) ->
  sat m T.
Proof.
  intros H s. destruct (m s) as [r s'] eqn:E. exact (H s r s' E).
Qed.

Lemma sat_weaken {A} (m : M A) (T T' : res A -> list event -> Prop) :
  sat m T -> (forall r evs, T r evs -> T' r evs) -> sat m T'.
Proof.
  intros Hm HT s. destruct (Hm s) as (evs & E & H).
  exists evs. split; [exact E | now apply HT].
Qed.

Lemma sat_and {A} (m0 : M A) (T1 T2 : res A -> list event -> Prop) :
  sat m0 T1 -> sat m0 T2 -> sat m0 (fun r evs => T1 r evs /\ T2 r evs).
Proof.
  intros H1 H2 s.
  destruct (H1 s) as (evs & E & K1). destruct (H2 s) as (evs' & E' & K2).
  rewrite E in E'. apply app_inv_head in E'. subst evs'.
  exists evs. auto.
Qed.

Lemma obeys_sat {A} (P : event -> bool) (Q : A -> Prop) (m : M A) :
  obeys P Q m ->
  sat m (fun r evs => forallb P evs = true /\ forall a, r = Ret a -> Q a).
Proof.
  intros Hm s. destruct (Hm s) as (evs & E & F & R). exists evs. auto.
Qed.

Lemma sat_ret {A} (a : A) (T : res A -> list event -> Prop) :
  T (Ret a) [] -> sat (ret a) T.
Proof. intros H s. exists []. simpl. now rewrite app_nil_r. Qed.

Lemma sat_raise {A} (e : exn) (T : res A -> list event -> Prop) :
  T (Raise e) [] -> sat (raise e) T.
Proof. intros H s. exists []. simpl. now rewrite app_nil_r. Qed.

Lemma sat_try_then {A B} (m : M A) (h : exn -> M B) (k : A -> M B)
    (T1 : res A -> list event -> Prop)
    (T : res B -> list event -> Prop) :
  sat m T1 ->
  (forall a evs1, T1 (Ret a) evs1 -> sat (k a) (fun r evs2 => T r (evs1 ++ evs2))) ->
  (forall e evs1, T1 (Raise e) evs1 -> sat (h e) (fun r evs2 => T r (evs1 ++ evs2))) ->
  (forall evs1, T1 Cancel evs1 -> T Cancel evs1) ->
  sat (try_then m h k) T.
Proof.
  intros Hm Hk Hh Hc s. unfold try_then.
  destruct (Hm s) as (evs1 & E1 & H1).
  destruct (m s) as [[a | e |] s1]; simpl in *.
  - destruct (Hk a evs1 H1 s1) as (evs2 & E2 & H2).
    exists (evs1 ++ evs2). now rewrite E2, E1, app_assoc.
  - destruct (Hh e evs1 H1 s1) as (evs2 & E2 & H2).
    exists (evs1 ++ evs2). now rewrite E2, E1, app_assoc.
  - exists evs1. auto.
Qed.

Lemma sat_bind {A B} (m : M A) (k : A -> M B)
    (T1 : res A -> list event -> Prop)
    (T : res B -> list event -> Prop) :
  sat m T1 ->
  (forall a evs1, T1 (Ret a) evs1 -> sat (k a) (fun r evs2 => T r (evs1 ++ evs2))) ->
  (forall e evs1, T1 (Raise e) evs1 -> T (Raise e) evs1) ->
  (forall evs1, T1 Cancel evs1 -> T Cancel evs1) ->
  sat (bind m k) T.
Proof.
  intros Hm Hk He Hc.
  assert (E : bind m k = try_then m raise k) by reflexivity.
  rewrite E. apply (sat_try_then m raise k T1); auto.
  intros e evs1 H1. apply sat_raise. rewrite app_nil_r. auto.
Qed.

Lemma sat_try_finally {A} (m : M A) (f : M unit)
    (T : res A -> list event -> Prop) :
  sat m T ->
  (forall s, exists s', f s = (Ret tt, s') /\ log s' = log s) ->
  sat (try_finally m f) T.
Proof.
  intros Hm Hf s. unfold try_finally.
  destruct (Hm s) as (evs & E & H).
  destruct (m s) as [r s1]; simpl in *.
  destruct (Hf s1) as (s' & -> & L); simpl.
  exists evs. rewrite L. auto.
Qed.

Section SatCalls.

Variable w : world.

Lemma sat_await {A} (c : call A) (T : res A -> list event -> Prop) :
  (forall a, T (Ret a) [Called c (Returns a)]) ->
  (forall e, T (Raise e) [Called c (Raises e)]) ->
  sat (await w c) T.
Proof.
  intros Hr He s. unfold await.
  destruct (reply w A (log s) c) as [a | e]; simpl; eexists [_]; split;
    try reflexivity; auto.
Qed.

Lemma sat_sleep (d : Q) (T : res unit -> list event -> Prop) :
  T (Ret tt) [Called (Sleep d) (Returns tt)] -> sat (sleep d) T.
Proof. intros H s. eexists [_]. split; [reflexivity | exact H]. Qed.

End SatCalls.

(** Running a handler by hand: unfold the next operation of the monad,
    or tell apart the answers of the next call, the branches of the next
    test. *)
Ltac run_in H :=
  repeat first
    [ progress
        (unfold bind, try_except, try_then, ret, raise, await, sleep,
           in_processed_pdf, add_processed_pdf, remove_processed_pdf,
           in_processed_files, add_processed_file, record in H;
         cbn [log processed_pdf_messages processed_files fst snd] in H)
    | match type of H with
      | context [match reply ?w unit ?l ?c with _ => _ end] =>
          let E := fresh "E" in
          destruct (reply w unit l c) as [[] | ?] eqn:E
      | context [match reply ?w ?A ?l ?c with _ => _ end] =>
          let E := fresh "E" in
          destruct (reply w A l c) as [? | ?] eqn:E
      end ].

Ltac leaf H :=
  injection H as <- <-;
  cbn [log processed_pdf_messages processed_files fst snd];
  rewrite <- ?app_assoc;
  first [ exists []; split; [now rewrite app_nil_r |]
        | eexists; split; [reflexivity |] ].

Ltac in_set :=
  rewrite ?elem_of_difference, ?elem_of_union, ?elem_of_singleton;
  intuition (subst; try tauto; try discriminate; try congruence).

(** The status message as [evs] leave it is not touched by what came
    before. *)
Lemma final_status_app (pre evs : list event) (st : option text) :
  Log.final_status evs = Some st -> Log.final_status (pre ++ evs) = Some st.
Proof.
  unfold Log.final_status, Log.statuses. rewrite omap_app.
  generalize (omap Log.status_change pre) as l.
  generalize (omap Log.status_change evs) as l'.
  intros l' l H. destruct l' as [| x l'] using rev_ind; [discriminate |].
  rewrite app_assoc, last_snoc. now rewrite last_snoc in H.
Qed.

Section FallbackStatus.

Variable w : world.
Hypothesis no_thread : creation_fails w.
Variable m : message.
Variable a : attachment.


Lemma quiet_keeps_source (ev : event) :
  Log.quiet ev = true -> Log.keeps_source ev = true.
Proof. destruct ev as [A [] r | A []]; simpl; try reflexivity; discriminate. Qed.



Lemma sat_keeps_source {A} (m0 : M A) (T : res A -> list event -> Prop) :
  obeys Log.keeps_source any m0 ->
  (forall r evs, forallb Log.keeps_source evs = true -> T r evs) ->
  sat m0 T.
Proof.
  intros Hm HT s. destruct (Hm s) as (evs & E & F & _).
  exists evs. split; [exact E |]. now apply HT.
Qed.


End FallbackStatus.

(** ** Coroutines that no deadline interrupts *)

Section Settles.






Variable w : world.




End Settles.



Section VideoFallback.

Variable w : world.
Hypothesis no_thread : creation_fails w.
Variable m : message.
Variable a : attachment.


(** What follows the conversion obeys [P] when every call it can make in
    a run that has no thread does. *)
Section Rule.

Variable P : event -> bool.
Hypothesis P_file : forall c f r, P (Called (SendFile (channel m) c f) r) = true.
Hypothesis P_send : forall t r, P (Called (Send (channel m) t) r) = true.
Hypothesis P_edit : forall t r, mentions t = false ->
                      P (Called (EditStatus (Some t) KeepView) r) = true.
Hypothesis P_size : forall n r, P (Called (SegmentSize n) r) = true.
Hypothesis P_probe : forall r, P (Called ProbeVideo r) = true.
Hypothesis P_cut : forall i r, P (Called (CutSegment i) r) = true.
Hypothesis P_compress : forall i r, P (Called (CompressSegment i) r) = true.
Hypothesis P_final : forall i r, P (Called (FinalSegment i) r) = true.
Hypothesis P_status : forall r, P (Called DeleteStatus r) = true.
Hypothesis P_source : forall r, P (Called DeleteSource r) = true.






Hypothesis P_quiet : forall ev, Log.quiet ev = true -> P ev = true.



Hypothesis P_read : forall r, P (Called (ReadVideo a) r) = true.
Hypothesis P_ffmpeg : forall r, P (Called RunFfmpeg r) = true.
Hypothesis P_output : forall r, P (Called OutputSize r) = true.
Hypothesis P_edit_no_view : forall t r, mentions t = false ->
                      P (Called (EditStatus (Some t) NoView) r) = true.



End Rule.
























End VideoFallback.


Lemma no_threads_creation_fails : creation_fails Worlds.no_threads.
Proof. intros l parent name. eexists. reflexivity. Qed.

Lemma inside_thread_creation_fails : creation_fails Samples.inside_thread.
Proof. intros l parent name. eexists. reflexivity. Qed.

Lemma forallb_negb_existsb {A} (f : A -> bool) (l : list A) :
  forallb (fun x => negb (f x)) l = true -> existsb f l = true -> False.
Proof.
  induction l as [| x l IH]; simpl; [discriminate |].
  destruct (f x); simpl; [discriminate | exact IH].
Qed.




(** ** Delivery errors *)

(** The send of the second page is refused with the code 429.  The
    handler reads [e.retry_after], which the exception does not have: no
    cooldown is waited, the page is not sent again, and the workflow ends
    on its error message. *)
Example rate_limited_page_is_not_retried :
  let m := Samples.post EmptyString [Samples.report] in
  let run := Pdf.process_pdf Samples.busy_once m Samples.report false initial in
  fst run = Ret tt
  /\ filter Log.is_upload (log (snd run))
     = [Called (SendFile (TextChannel 10) [] "page_1.png") (Returns tt);
        Called (SendFile (TextChannel 10) [] "page_2.png") (Raises Samples.rate_limited)]
  /\ omap Log.slept (log (snd run)) = [1 # 2]%Q
  /\ omap (Log.delivered_to (TextChannel 10)) (log (snd run)) = ["page_1.png"]
  /\ Log.final_status (log (snd run))
     = Some (Some [Lit "❌ Error processing PDF: ";
                   Val "Failed to convert/upload PDF"]).
Proof. vm_compute. repeat split. Qed.

(** The first of six video segments is refused as too large.  The loop
    reports it in the channel and goes on: the five other segments are
    uploaded, and the run ends as a success, the status message deleted. *)
Lemma refused_segment_does_not_stop_upload :
  let m := Samples.post EmptyString [Samples.clip] in
  let run := Mp4.process_video Samples.first_segment_refused m Samples.clip
               false initial in
  fst run = Ret tt
  /\ existsb Log.hard_fail (log (snd run)) = true
  /\ Log.halts (log (snd run)) = false
  /\ omap (Log.delivered_to (channel m)) (log (snd run))
     = ["clip_part2of6.mp4"; "clip_part3of6.mp4"; "clip_part4of6.mp4";
        "clip_part5of6.mp4"; "clip_part6of6.mp4"]
  /\ Log.final_status (log (snd run)) = Some None.
Proof. vm_compute. repeat split. Qed.

(** A segment that meets a rate limit is not sent again: the loop reports
    it and goes on with the next one. *)
Example rate_limited_segment_is_not_retried :
  let m := Samples.post EmptyString [Samples.clip] in
  let run := Mp4.process_video Samples.first_segment_rate_limited m Samples.clip
               false initial in
  fst run = Ret tt
  /\ omap Log.slept (log (snd run)) = []
  /\ omap (Log.delivered_to (channel m)) (log (snd run))
     = ["clip_part2of6.mp4"; "clip_part3of6.mp4"; "clip_part4of6.mp4";
        "clip_part5of6.mp4"; "clip_part6of6.mp4"].
Proof. vm_compute. repeat split. Qed.

(** When the notice for a refused segment is refused as well, the loop is
    left: no other segment is uploaded, and the workflow reports that the
    video could not be processed. *)
Example refused_notice_stops_upload :
  let m := Samples.post EmptyString [Samples.clip] in
  let run := Mp4.process_video Samples.notice_refused m Samples.clip
               false initial in
  fst run = Ret tt
  /\ omap Log.uploaded (log (snd run)) = ["clip_part1of6.mp4"]
  /\ omap (Log.delivered_to (channel m)) (log (snd run)) = []
  /\ Log.final_status (log (snd run))
     = Some (Some [Lit "❌ Could not process large video: ";
                   Val (str Worlds.forbidden)]).
Proof. vm_compute. repeat split. Qed.

Section PageLoop.

Variable w : world.

Lemma send_page_run (target : chan) (i : nat) :
  sat (Pdf.send_page w target i) (Pdf.page_run target i).
Proof.
  apply sat_intro. intros s r s'.
  unfold Pdf.send_page, try_except, try_then, bind, await_within, await,
    raise, ret, Pdf.page_run, Log.is_rate_limit.
  destruct (deadline w _ (log s) (SendFile target [] (Pdf.page_file i))).
  { intros H; injection H as <- <-. eexists; split; [reflexivity |]. tauto. }
  destruct (reply w _ (log s) (SendFile target [] (Pdf.page_file i)))
    as [[] | e].
  { intros H; injection H as <- <-. eexists; split; [reflexivity |]. tauto. }
  destruct (isinstance e HTTPException) eqn:Hh;
    [destruct (code e =? 429)%Z eqn:Hc |];
    intros H; injection H as <- <-; (eexists; split; [reflexivity |]);
    right; right; exists e; rewrite Hh, ?Hc; split; reflexivity.
Qed.

Lemma halts_clean (a b : list event) :
  existsb Log.hard_fail a = false ->
  Log.halts (a ++ b) = Log.halts b
  /\ existsb Log.hard_fail (a ++ b) = existsb Log.hard_fail b.
Proof.
  induction a as [| ev a IH]; simpl; [auto |].
  destruct (Log.hard_fail ev); simpl; [discriminate | exact IH].
Qed.

Local Ltac stops_tac :=
  unfold Log.stops in *; repeat split; auto; try discriminate;
  try (let Hh := fresh in
       intros Hh;
       match goal with
       | H : _ -> exists _, _ |- _ =>
           let Heq := fresh in
           destruct (H Hh) as [? Heq];
           try discriminate Heq; eauto
       end).

Lemma page_run_stops (target : chan) (i : nat) (r : res unit)
    (evs : list event) :
  Pdf.page_run target i r evs -> Log.stops r evs.
Proof.
  unfold Pdf.page_run, Log.stops.
  intros [[-> ->] | [[-> ->] | (e & -> & ->)]].
  - repeat split; simpl; auto; discriminate.
  - repeat split; simpl; auto; discriminate.
  - simpl. destruct (Log.is_rate_limit e); simpl;
      repeat split; eauto; discriminate.
Qed.

Lemma stops_after {A B} (r1 : A) (r : res B) (evs1 evs2 : list event) :
  Log.stops (Ret r1) evs1 -> Log.stops r evs2 -> Log.stops r (evs1 ++ evs2).
Proof.
  intros (_ & _ & H1) (H2 & H3 & H4). unfold Log.stops.
  destruct (halts_clean evs1 evs2 (H1 r1 eq_refl)) as [-> ->].
  repeat split; auto.
Qed.

Lemma upload_pages_stops (target : chan) (use_thread : bool) (start_idx : nat)
    (pages : list bool) (i : nat) :
  sat (Pdf.upload_pages w target use_thread start_idx i pages)
    (fun r evs => Log.stops r evs).
Proof.
  revert i. induction pages as [| renders rest IH]; intros i; simpl.
  - apply sat_ret. stops_tac.
  - eapply sat_bind with (T1 := fun r evs => Log.stops r evs).
    + destruct ((i <=? start_idx)%nat && use_thread).
      * apply sat_ret. stops_tac.
      * destruct renders.
        -- eapply sat_weaken; [apply send_page_run |].
           intros r evs. apply page_run_stops.
        -- apply sat_raise. stops_tac.
    + intros u evs1 H1. eapply sat_weaken; [apply IH |].
      intros r evs2 H2. cbv beta. exact (stops_after _ _ _ _ H1 H2).
    + intros e evs1 (H1 & H2 & H3). stops_tac.
    + intros evs1 (H1 & H2 & H3). stops_tac.
Qed.

(** In [convert_and_upload_pdf], nothing is uploaded after a page was
    refused for another reason than a rate limit, and the function then
    returns [False]. *)
Lemma convert_and_upload_pdf_stops (b : pdf_bytes) (target : chan)
    (use_thread : bool) :
  sat (Pdf.convert_and_upload_pdf w b target use_thread)
    (fun r evs =>
       Log.halts evs = true
       /\ (existsb Log.hard_fail evs = true -> r = Ret false)).
Proof.
  unfold Pdf.convert_and_upload_pdf, try_except.
  eapply sat_try_then with (T1 := fun r evs => Log.stops r evs).
  - destruct b as [pages |].
    + eapply sat_bind with (T1 := fun r evs => Log.stops r evs).
      * apply upload_pages_stops.
      * intros u evs1 H1. apply sat_ret. rewrite app_nil_r.
        destruct H1 as (H1 & H2 & H3). split; [exact H1 |]. split.
        -- intros H. rewrite (H3 u eq_refl) in H. discriminate.
        -- intros v _. exact (H3 u eq_refl).
      * intros e evs1 (H1 & H2 & H3). stops_tac.
      * intros evs1 (H1 & H2 & H3). stops_tac.
    + apply sat_raise. stops_tac.
  - intros u evs1 (H1 & H2 & H3). apply sat_ret. rewrite app_nil_r.
    split; [exact H1 |]. intros H. rewrite (H3 u eq_refl) in H. discriminate.
  - intros e evs1 (H1 & H2 & H3). apply sat_ret. rewrite app_nil_r. auto.
  - intros evs1 (H1 & H2 & H3). split; [exact H1 |].
    intros H. destruct (H2 H) as [e He]. discriminate.
Qed.

End PageLoop.


Section SegmentLoop.

Variable w : world.

Lemma count_app (p : event -> bool) (a b : list event) :
  Log.count p (a ++ b) = Log.count p a + Log.count p b.
Proof. unfold Log.count. now rewrite List.filter_app, length_app. Qed.

(** A run of the loop that stops in the round of its first segment,
    before anything is handed to [send] or on the refusal of the upload
    or of its notice. *)
Lemma segments_run_stopped (file_name : string)
    (segments first todo successful : nat) (e : exn)
    (pre : list event) (ev : event) :
  omap Log.uploaded (pre ++ [ev]) = []
  \/ (omap Log.uploaded (pre ++ [ev])
      = [Mp4.segment_name (os_path_nt w) file_name first segments]
      /\ 0 < todo) ->
  Mp4.notified (pre ++ [ev]) ->
  Log.raised ev = Some e -> Log.refused ev = false ->
  Mp4.segments_run (os_path_nt w) file_name segments first todo successful
    (Raise e) (pre ++ [ev]).
Proof.
  intros Hu Hn Hr Hf.
  destruct Hu as [Hu | [Hu Ht]]; [exists 0 | exists 1];
    (split; [lia |]); (split; [exact Hu |]); (split; [exact Hn |]);
    (split; [discriminate |]); (split; [| discriminate]);
    intros e' He'; injection He' as <-; exists pre, ev; auto.
Qed.

(** A full round for the segment [first], followed by a run of the loop
    from the next segment on. *)
Lemma segments_run_after (file_name : string)
    (segments first todo successful : nat) (r : res nat)
    (pre evs : list event) :
  omap Log.uploaded pre
  = [Mp4.segment_name (os_path_nt w) file_name first segments] ->
  (forall rest, Mp4.notified rest -> Mp4.notified (pre ++ rest)) ->
  Mp4.segments_run (os_path_nt w) file_name segments (S first) todo
    (successful + Log.count Log.is_delivery pre) r evs ->
  Mp4.segments_run (os_path_nt w) file_name segments first (S todo)
    successful r (pre ++ evs).
Proof.
  intros Hu Hn (n & Hle & Hup & Hnot & Hret & Hraise & Hc).
  exists (S n). split; [lia |]. split; [| split; [| split; [| split]]].
  - rewrite omap_app, Hu, Hup. reflexivity.
  - now apply Hn.
  - intros k Hk. destruct (Hret k Hk) as [-> ->].
    split; [reflexivity |]. rewrite count_app. lia.
  - intros e He. destruct (Hraise e He) as (p0 & ev & -> & H).
    exists (pre ++ p0), ev. now rewrite app_assoc.
  - exact Hc.
Qed.

Lemma upload_segments_run (file_name : string) (target : chan)
    (segments todo i successful : nat) :
  sat (Mp4.upload_segments w file_name target segments i todo successful)
    (Mp4.segments_run (os_path_nt w) file_name segments i todo successful).
Proof.
  revert i successful.
  induction todo as [| todo IH]; intros i successful.
  - apply sat_ret. exists 0. split; [lia |]. split; [reflexivity |].
    split; [exact I |]. split; [| split; discriminate].
    intros k Hk. injection Hk as <-. unfold Log.count. simpl. lia.
  - apply sat_intro. intros s r s' H. cbn [Mp4.upload_segments] in H.
    unfold Mp4.edit in H.
    assert (Hrec : forall successful' s4 (pre : list event),
               log s4 = log s ++ pre ->
               Mp4.upload_segments w file_name target segments (S i) todo
                 successful' s4 = (r, s') ->
               omap Log.uploaded pre
               = [Mp4.segment_name (os_path_nt w) file_name i segments] ->
               (forall rest, Mp4.notified rest -> Mp4.notified (pre ++ rest)) ->
               successful' = successful + Log.count Log.is_delivery pre ->
               exists evs,
                 log s' = log s ++ evs
                 /\ Mp4.segments_run (os_path_nt w) file_name segments i
                      (S todo) successful r evs).
    { intros successful' s4 pre L Hrun Hu Hn ->.
      destruct (IH (S i) (successful + Log.count Log.is_delivery pre) s4)
        as (evs & E & T).
      rewrite Hrun in E, T. cbn [fst snd] in E, T.
      exists (pre ++ evs). split; [now rewrite E, L, app_assoc |].
      now apply segments_run_after. }
    run_in H.
    + (* the segment is delivered *)
      eapply Hrec; [| exact H | | |].
      * cbn [log]. rewrite <- !app_assoc. reflexivity.
      * reflexivity.
      * intros rest Hrest. cbn. tauto.
      * unfold Log.count. cbn. lia.
    + (* the upload is refused *)
      destruct (isinstance e HTTPException) eqn:Hh.
      * run_in H.
        -- eapply Hrec; [| exact H | | |].
           ++ cbn [log]. rewrite <- !app_assoc. reflexivity.
           ++ reflexivity.
           ++ intros rest Hrest. cbn. repeat split; auto.
              intros _. eexists i, segments, _, _. split; reflexivity.
           ++ unfold Log.count. cbn. lia.
        -- leaf H.
           cbn [app].
           match goal with |- Mp4.segments_run _ _ _ _ _ _ _ [?a; ?b; ?c; ?d] =>
             change [a; b; c; d] with ([a; b; c] ++ [d]) end.
           apply segments_run_stopped; try reflexivity.
           ++ right. split; [reflexivity | lia].
           ++ cbn. repeat split; auto.
              intros _. eexists i, segments, _, _. split; reflexivity.
      * run_in H. leaf H.
        cbn [app].
        match goal with |- Mp4.segments_run _ _ _ _ _ _ _ [?a; ?b; ?c] =>
          change [a; b; c] with ([a; b] ++ [c]) end.
        apply segments_run_stopped; try reflexivity.
        -- right. split; [reflexivity | lia].
        -- cbn. repeat split; auto. intros K. congruence.
        -- cbn. exact Hh.
    + (* the status cannot be edited *)
      leaf H.
      cbn [app].
      match goal with |- Mp4.segments_run _ _ _ _ _ _ _ [?a; ?b] =>
        change [a; b] with ([a] ++ [b]) end.
      apply segments_run_stopped; try reflexivity.
      * now left.
      * cbn. tauto.
    + (* the size of the segment cannot be read *)
      leaf H.
      cbn [app].
      match goal with |- Mp4.segments_run _ _ _ _ _ _ _ [?a] =>
        change [a] with ([] ++ [a]) end.
      apply segments_run_stopped; try reflexivity.
      * now left.
      * cbn. tauto.
Qed.

End SegmentLoop.

Ltac stops_now :=
  unfold Log.stops; simpl; repeat split; intros;
  try reflexivity; try discriminate; eauto.

Section PdfFailure.

Variable w : world.
Variable m : message.
Variable a : attachment.

Lemma sat_wait_for {A} (m0 : M A) (T T' : res A -> list event -> Prop) :
  sat m0 T ->
  (forall r evs, T r evs ->
     T' (match r with Cancel => Raise timeout_error | x => x end) evs) ->
  sat (wait_for m0) T'.
Proof.
  intros Hm HT s. unfold wait_for. destruct (Hm s) as (evs & E & H).
  exists evs. specialize (HT _ _ H).
  destruct (m0 s) as [[x | e |] s1]; simpl in *; auto.
Qed.

Lemma no_upload_halts (l : list event) :
  forallb Log.no_upload l = true ->
  Log.halts l = true /\ existsb Log.hard_fail l = false.
Proof.
  induction l as [| ev l IH]; simpl; [auto |].
  intros H. apply andb_prop in H as [H1 H2]. destruct (IH H2) as [-> ->].
  assert (Hh : Log.hard_fail ev = false).
  { destruct ev as [A [] r | A []]; try reflexivity; discriminate H1. }
  now rewrite Hh.
Qed.

Lemma halts_then_no_upload (l l' : list event) :
  Log.halts l = true -> forallb Log.no_upload l' = true ->
  Log.halts (l ++ l') = true.
Proof.
  intros H H'. induction l as [| ev l IH]; simpl in *.
  - now apply no_upload_halts.
  - apply andb_prop in H as [H1 H2]. rewrite (IH H2), andb_true_r.
    destruct (Log.hard_fail ev); [| reflexivity].
    now rewrite forallb_app, H1, H'.
Qed.

(** [create_thread_with_retry], in any world, uploads nothing and leaves
    the status message and the source message alone. *)
Lemma create_thread_quiet (k : kind) (parent : chan) (name : string) :
  obeys Log.quiet any (ThreadCreator.create_thread_with_retry w k parent name).
Proof.
  unfold ThreadCreator.create_thread_with_retry. simpl seq.
  unfold ThreadCreator.attempts, ThreadCreator.suppress_notification.
  obey.
Qed.

Lemma quiet_no_upload (ev : event) :
  Log.quiet ev = true -> Log.no_upload ev = true.
Proof. destruct ev as [A [] r | A []]; simpl; try reflexivity; discriminate. Qed.

Lemma safe_edit_asks (t : text) :
  Log.failure_status (Called (EditStatus (Some t) KeepView) (Returns tt)) = true ->
  sat (Pdf.safe_edit_processing_msg w m t)
    (fun _ evs => existsb Log.failure_status evs = true).
Proof.
  intros Ht. apply sat_intro. intros s r s'.
  unfold Pdf.safe_edit_processing_msg, try_except, try_then, bind, sleep,
    await, ret.
  simpl.
  match goal with |- context [reply w unit ?l ?c] =>
    destruct (reply w unit l c) as [[] | e] end; simpl.
  - intros H; injection H as <- <-. simpl. rewrite <- app_assoc.
    eexists. split; [reflexivity |]. simpl. simpl in Ht. now rewrite Ht.
  - match goal with |- context [reply w unit ?l ?c] =>
      destruct (reply w unit l c) as [[] | e'] end; simpl;
      intros H; injection H as <- <-; simpl; rewrite <- !app_assoc;
      (eexists; split; [reflexivity |]); simpl; simpl in Ht; now rewrite Ht.
Qed.

Lemma pdf_on_error_no_upload (use_thread : bool) (target : option chan) (e : exn) :
  obeys Log.no_upload any (Pdf.on_error w m use_thread target e).
Proof. unfold Pdf.on_error, Pdf.safe_edit_processing_msg. obey. Qed.

(** The clauses [except discord.Forbidden] and [except
    asyncio.TimeoutError] of [process_pdf] delete no thread, in any
    world: a thread that was created stays. *)
Lemma pdf_on_error_keeps_threads (use_thread : bool) (target : option chan)
    (e : exn) :
  isinstance e Forbidden || isinstance e TimeoutError = true ->
  obeys Log.keeps_threads any (Pdf.on_error w m use_thread target e).
Proof.
  intros H. unfold Pdf.on_error, Pdf.safe_edit_processing_msg.
  destruct (isinstance e Forbidden); [obey |].
  simpl in H. rewrite H. obey.
Qed.

(** So does the clause [except discord.Forbidden] of [process_docx]. *)
Lemma docx_on_error_keeps_threads (use_thread : bool) (target : option chan)
    (e : exn) :
  isinstance e Forbidden = true ->
  obeys Log.keeps_threads any (Docx.on_error w use_thread target e).
Proof. intros H. unfold Docx.on_error. rewrite H. obey. Qed.

Lemma pdf_on_error_asks (use_thread : bool) (target : option chan) (e : exn) :
  sat (Pdf.on_error w m use_thread target e)
    (fun _ evs =>
       forallb Log.no_upload evs = true
       /\ existsb Log.failure_status evs = true).
Proof.
  apply sat_and.
  - eapply sat_weaken; [apply obeys_sat, pdf_on_error_no_upload |].
    now intros r evs [H _].
  - unfold Pdf.on_error.
    destruct (isinstance e Forbidden); [now apply safe_edit_asks |].
    destruct (isinstance e TimeoutError); [now apply safe_edit_asks |].
    eapply sat_bind with
      (T1 := fun (_ : res unit) evs => existsb Log.failure_status evs = true).
    + now apply safe_edit_asks.
    + intros u evs1 H1.
      eapply sat_weaken;
        [apply (obeys_sat Log.no_upload any) |
         intros r evs _; cbv beta; now rewrite existsb_app, H1].
      obey.
    + auto.
    + auto.
Qed.

Lemma pdf_deliver_stops (use_thread : bool) (b : pdf_bytes) (target : chan)
    (fm : option text) :
  sat (Pdf.deliver w m use_thread b target fm) (fun r evs => Log.stops r evs).
Proof.
  unfold Pdf.deliver.
  eapply sat_bind with (T1 := fun r evs => Log.stops r evs).
  - assert (Hret : sat (ret tt) (fun (r : res unit) evs => Log.stops r evs)).
    { apply sat_ret. stops_now. }
    destruct (use_thread && is_thread target && chan_neb target (channel m));
      [| exact Hret].
    destruct (Pdf.get_first_page b); [| exact Hret].
    apply sat_await.
    + intros []. stops_now.
    + intros e. unfold Log.stops. simpl.
      destruct (Log.is_rate_limit e); simpl; repeat split; intros; eauto;
        discriminate.
  - intros u evs1 H1.
    eapply sat_weaken with (T := fun r evs => Log.stops r evs);
      [| intros r evs H; exact (stops_after _ _ _ _ H1 H)].
    eapply sat_bind with
      (T1 := fun r evs =>
               Log.halts evs = true
               /\ (existsb Log.hard_fail evs = true -> r = Ret false)).
    + eapply sat_wait_for; [apply convert_and_upload_pdf_stops |].
      intros r evs [H1' H2']. split; [exact H1' |].
      intros H. now rewrite (H2' H).
    + intros success evs2 [H2 H3].
      destruct success.
      * assert (Hc : existsb Log.hard_fail evs2 = false).
        { destruct (existsb Log.hard_fail evs2); [now specialize (H3 eq_refl) | auto]. }
        eapply sat_weaken; [apply (obeys_sat Log.no_upload any); obey |].
        intros r evs [H _]. cbv beta.
        destruct (no_upload_halts evs H) as [Hh Hf].
        destruct (halts_clean evs2 evs Hc) as [E1 E2].
        repeat split.
        -- now rewrite E1.
        -- rewrite E2, Hf. discriminate.
        -- intros _ _. now rewrite E2.
      * eapply sat_bind with (T1 := fun r evs => r = Raise (value_error "Failed to convert/upload PDF") /\ evs = []).
        -- apply sat_raise. auto.
        -- intros ? ? [H _]. discriminate H.
        -- intros e evs [_ ->]. rewrite app_nil_r.
           stops_now.
        -- intros evs [H _]. discriminate H.
    + intros e evs2 [H2 H3]. stops_now.
    + intros evs2 [H2 H3]. repeat split; auto; try discriminate.
      intros H. specialize (H3 H). discriminate.
  - intros e evs1 H1. exact H1.
  - intros evs1 H1. exact H1.
Qed.

Lemma fails_cleanly_after (pre evs : list event) :
  forallb Log.no_upload pre = true ->
  Log.fails_cleanly evs -> Log.fails_cleanly (pre ++ evs).
Proof.
  intros Hpre [H1 H2].
  destruct (no_upload_halts pre Hpre) as [_ Hc].
  destruct (halts_clean pre evs Hc) as [E1 E2].
  split; [now rewrite E1 |].
  rewrite E2, existsb_app. intros H. rewrite (H2 H). apply orb_true_r.
Qed.

Lemma no_upload_fails_cleanly (evs : list event) :
  forallb Log.no_upload evs = true -> Log.fails_cleanly evs.
Proof.
  intros H. destruct (no_upload_halts evs H) as [H1 H2].
  split; [exact H1 |]. rewrite H2. discriminate.
Qed.

Lemma pdf_resolve_no_upload (use_thread : bool) :
  obeys Log.no_upload any (Pdf.resolve_target w m a use_thread).
Proof.
  unfold Pdf.resolve_target. destruct use_thread; [| now apply obeys_ret].
  eapply obeys_try_except; [| intros e; now apply obeys_ret].
  eapply (obeys_bind _ any).
  - eapply obeys_mono; [apply quiet_no_upload | apply create_thread_quiet].
  - intros [t |] _; now apply obeys_ret.
Qed.

(** The PDF workflow, in any world: nothing is uploaded after a file was
    refused for another reason than a rate limit, and the workflow then
    asks for its failure status. *)
Lemma process_pdf_fails_cleanly (use_thread : bool) :
  sat (Pdf.process_pdf w m a use_thread) (fun _ evs => Log.fails_cleanly evs).
Proof.
  assert (Herr : forall target e (pre : list event),
             forallb Log.no_upload pre = true ->
             sat (Pdf.on_error w m use_thread target e)
               (fun _ evs => Log.fails_cleanly (pre ++ evs))).
  { intros target e pre Hpre.
    eapply sat_weaken; [apply pdf_on_error_asks |].
    intros r evs [H _]. cbv beta.
    now apply fails_cleanly_after, no_upload_fails_cleanly. }
  unfold Pdf.process_pdf.
  apply sat_try_finally; [| intros s; eexists; split; reflexivity ].
  eapply sat_try_then with
    (T1 := fun _ evs => forallb Log.no_upload evs = true).
  - eapply sat_weaken; [apply (obeys_sat Log.no_upload any); obey |].
    now intros r evs [H _].
  - intros b evs1 H1.
    eapply sat_try_then with
      (T1 := fun _ evs => forallb Log.no_upload evs = true).
    + eapply sat_weaken; [apply obeys_sat, pdf_resolve_no_upload |].
      now intros r evs [H _].
    + intros [target fm] evs2 H2. unfold try_except.
      assert (H12 : forallb Log.no_upload (evs1 ++ evs2) = true)
        by now rewrite forallb_app, H1, H2.
      eapply sat_try_then; [apply pdf_deliver_stops | | |].
      * intros u evs3 (H3 & H4 & H5). apply sat_ret. rewrite app_nil_r.
        rewrite app_assoc. apply fails_cleanly_after; [exact H12 |].
        split; [exact H3 |]. rewrite (H5 u eq_refl). discriminate.
      * intros e evs3 (H3 & H4 & H5).
        eapply sat_weaken; [apply pdf_on_error_asks |].
        intros r evs [K1 K2]. cbv beta.
        rewrite app_assoc. apply fails_cleanly_after; [exact H12 |].
        split; [now apply halts_then_no_upload |].
        intros _. rewrite existsb_app, K2. apply orb_true_r.
      * intros evs3 (H3 & H4 & H5).
        rewrite app_assoc. apply fails_cleanly_after; [exact H12 |].
        split; [exact H3 |]. intros H. destruct (H4 H) as [e He]. discriminate.
    + intros e evs2 H2. eapply sat_weaken; [apply (Herr _ _ (evs1 ++ evs2)) |].
      * now rewrite forallb_app, H1, H2.
      * intros r evs H. cbv beta. now rewrite app_assoc.
    + intros evs2 H2. apply no_upload_fails_cleanly.
      now rewrite forallb_app, H1, H2.
  - intros e evs1 H1. now apply Herr.
  - intros evs1 H1. now apply no_upload_fails_cleanly.
Qed.

End PdfFailure.


(** ** The order of the pages *)

Section PageOrder.

Variable w : world.

Lemma delivered_none (target : chan) (evs : list event) :
  forallb Log.no_upload evs = true ->
  omap (Log.delivered_to target) evs = [].
Proof.
  induction evs as [| ev evs IH]; simpl; [reflexivity |].
  intros H. apply andb_prop in H as [H1 H2]. specialize (IH H2).
  destruct ev as [A [] r | A []]; simpl in *; try exact IH; discriminate H1.
Qed.

(** What [send_page] delivers: the page, once, when it returns, and
    nothing when it does not. *)
Lemma page_run_delivers (target : chan) (i : nat) (r : res unit)
    (evs : list event) :
  Pdf.page_run target i r evs ->
  (r = Ret tt /\ omap (Log.delivered_to target) evs = [Pdf.page_file i])
  \/ (~ returned r /\ omap (Log.delivered_to target) evs = []).
Proof.
  assert (Hno : forall e : exn, ~ returned (@Raise unit e))
    by (intros e [u Hu]; discriminate).
  assert (Hc : ~ returned (@Cancel unit)) by (intros [u Hu]; discriminate).
  unfold Pdf.page_run.
  intros [[-> ->] | [[-> ->] | (e & -> & ->)]];
    simpl; rewrite ?chan_neb_refl; auto.
Qed.

(** The loop over the pages, past the page it may skip. *)
Lemma upload_pages_in_order (target : chan) (use_thread : bool)
    (start_idx : nat) (pages : list bool) (i : nat) :
  (use_thread = true -> start_idx < i) ->
  sat (Pdf.upload_pages w target use_thread start_idx i pages)
    (pages_in_order returned target i (length pages)).
Proof.
  revert i. induction pages as [| renders rest IH]; intros i Hi; simpl.
  - apply sat_ret. exists 0. repeat split; auto.
  - assert (Hskip : (i <=? start_idx)%nat && use_thread = false).
    { destruct use_thread; [| apply andb_false_r].
      rewrite andb_true_r. apply Nat.leb_gt. auto. }
    rewrite Hskip.
    eapply sat_bind with
      (T1 := fun r evs =>
               (r = Ret tt
                /\ omap (Log.delivered_to target) evs = [Pdf.page_file i])
               \/ (~ returned r /\ omap (Log.delivered_to target) evs = [])).
    + destruct renders.
      * eapply sat_weaken; [apply send_page_run |].
        intros r evs. apply page_run_delivers.
      * apply sat_raise. right.
        split; [intros [u Hu]; discriminate | reflexivity].
    + intros [] evs1 [[_ H1] | [H1 _]]; [| destruct H1; now exists tt].
      eapply sat_weaken;
        [apply (IH (S i)); intros Hu; specialize (Hi Hu); lia |].
      intros r evs2 (n & Hn & E & R). exists (S n).
      split; [lia |]. split.
      * rewrite omap_app, H1, E. reflexivity.
      * intros Hr. f_equal. auto.
    + intros e evs1 [[H _] | [H H1]]; [discriminate |].
      exists 0. split; [lia |]. split; [exact H1 |]. intros K. now destruct H.
    + intros evs1 [[H _] | [H H1]]; [discriminate |].
      exists 0. split; [lia |]. split; [exact H1 |]. intros K. now destruct H.
Qed.

(** The loop from page 1: page 1 of a document sent to a thread is left
    to the caller. *)
Lemma upload_pages_from_start (target : chan) (use_thread : bool)
    (pages : list bool) :
  sat (Pdf.upload_pages w target use_thread (Pdf.start_idx target use_thread)
         1 pages)
    (pages_in_order returned target (S (Pdf.start_idx target use_thread))
       (length pages - Pdf.start_idx target use_thread)).
Proof.
  unfold Pdf.start_idx. destruct (use_thread && is_thread target) eqn:E.
  - apply andb_prop in E as [-> _]. destruct pages as [| p rest]; simpl.
    + apply sat_ret. exists 0. repeat split; auto.
    + eapply sat_bind with (T1 := fun r evs => r = Ret tt /\ evs = []).
      * apply sat_ret; auto.
      * intros [] evs1 [_ ->].
        eapply sat_weaken; [apply upload_pages_in_order; intros; lia |].
        intros r evs H. cbv beta. simpl. rewrite Nat.sub_0_r. exact H.
      * intros e evs [H _]; discriminate.
      * intros evs [H _]; discriminate.
  - rewrite Nat.sub_0_r. apply upload_pages_in_order. intros ->. lia.
Qed.

(** [convert_and_upload_pdf] delivers the pages after those it leaves to
    the caller, in order, and all of them when it returns [True]. *)
Lemma convert_and_upload_pdf_in_order (pages : list bool) (target : chan)
    (use_thread : bool) :
  sat (Pdf.convert_and_upload_pdf w (Some pages) target use_thread)
    (pages_in_order (fun r => r = Ret true) target
       (S (Pdf.start_idx target use_thread))
       (length pages - Pdf.start_idx target use_thread)).
Proof.
  unfold Pdf.convert_and_upload_pdf, try_except.
  eapply sat_try_then with
    (T1 := pages_in_order returned target
             (S (Pdf.start_idx target use_thread))
             (length pages - Pdf.start_idx target use_thread)).
  - eapply sat_bind; [apply upload_pages_from_start | | |].
    + intros u evs1 (n & Hn & E & R). apply sat_ret. rewrite app_nil_r.
      exists n. repeat split; auto. intros _. apply R. now exists u.
    + intros e evs1 (n & Hn & E & R). exists n. repeat split; auto.
      intros [u Hu]. discriminate.
    + intros evs1 (n & Hn & E & R). exists n. repeat split; auto.
      intros [u Hu]. discriminate.
  - intros u evs1 (n & Hn & E & R). apply sat_ret. rewrite app_nil_r.
    exists n. repeat split; auto. intros _. apply R. now exists u.
  - intros e evs1 (n & Hn & E & R). apply sat_ret. rewrite app_nil_r.
    exists n. repeat split; auto. discriminate.
  - intros evs1 (n & Hn & E & R). exists n. repeat split; auto. discriminate.
Qed.

Variable m : message.

(** Lines 120-151 of [process_pdf], in any world: when the target is not
    a thread the message itself was posted in, and the first page of a
    document sent to a thread can be rendered, the files that reach the
    target are [page_1.png], [page_2.png], ... in this order, each of them
    once, and all the pages of the document when the coroutine returns. *)
Lemma pdf_deliver_in_order (use_thread : bool) (pages : list bool)
    (target : chan) (fm : option text) :
  (use_thread && is_thread target = true ->
   chan_neb target (channel m) = true /\ hd true pages = true) ->
  sat (Pdf.deliver w m use_thread (Some pages) target fm)
    (pages_in_order returned target 1 (length pages)).
Proof.
  intros Hyp. unfold Pdf.deliver.
  pose (s' := Nat.min (Pdf.start_idx target use_thread) (length pages)).
  eapply sat_bind with
    (T1 := fun r evs =>
             (returned r
              /\ omap (Log.delivered_to target) evs
                 = map Pdf.page_file (seq 1 s'))
             \/ (~ returned r /\ omap (Log.delivered_to target) evs = [])).
  - unfold s', Pdf.start_idx.
    destruct (use_thread && is_thread target) eqn:E; simpl.
    + destruct (Hyp eq_refl) as [-> Hhd].
      destruct pages as [| [] rest]; simpl in *; try discriminate.
      * apply sat_ret. left. split; [now exists tt | reflexivity].
      * apply sat_await.
        -- intros []. left. split; [now exists tt |].
           simpl. now rewrite chan_neb_refl.
        -- intros e. right. split; [intros [u Hu]; discriminate | reflexivity].
    + apply sat_ret. left. split; [now exists tt | reflexivity].
  - intros [] evs1 [[_ H1] | [H1 _]]; [| destruct H1; now exists tt].
    assert (Hend : forall n (r : res unit) evs2,
               n <= length pages - Pdf.start_idx target use_thread ->
               omap (Log.delivered_to target) evs2
               = map Pdf.page_file (seq (S (Pdf.start_idx target use_thread)) n) ->
               (returned r -> n = length pages - Pdf.start_idx target use_thread) ->
               pages_in_order returned target 1 (length pages) r (evs1 ++ evs2)).
    { intros n r evs2 Hn E R. exists (s' + n). split; [unfold s'; lia |]. split.
      - rewrite omap_app, H1, E, seq_app, map_app. f_equal.
        destruct (Nat.eq_dec s' (Pdf.start_idx target use_thread)) as [-> | Hne];
          [reflexivity |].
        assert (n = 0) by (unfold s' in *; lia). now subst n.
      - intros Hr. specialize (R Hr). unfold s' in *.
        unfold Pdf.start_idx in *.
        destruct (use_thread && is_thread target); lia. }
    eapply sat_bind with
      (T1 := pages_in_order (fun r => r = Ret true) target
               (S (Pdf.start_idx target use_thread))
               (length pages - Pdf.start_idx target use_thread)).
    + eapply sat_wait_for; [apply convert_and_upload_pdf_in_order |].
      intros r evs (n & Hn & E & R). exists n. repeat split; auto.
      intros Hr. apply R. now destruct r.
    + intros success evs2 (n & Hn & E & R). destruct success.
      * specialize (R eq_refl).
        eapply sat_weaken; [apply (obeys_sat Log.no_upload any); obey |].
        intros r evs3 [H _]. cbv beta. apply (Hend n); auto.
        rewrite omap_app, E, (delivered_none _ _ H). apply app_nil_r.
      * eapply sat_bind with
          (T1 := fun (r : res unit) evs => ~ returned r /\ evs = []).
        -- apply sat_raise. split; [intros [u Hu]; discriminate | reflexivity].
        -- intros u evs3 [H _]. destruct H. now exists u.
        -- intros e evs3 [_ ->]. rewrite app_nil_r. apply (Hend n); auto.
           intros [u Hu]. discriminate.
        -- intros evs3 [_ ->]. rewrite app_nil_r. apply (Hend n); auto.
           intros [u Hu]. discriminate.
    + intros e evs2 (n & Hn & E & R). apply (Hend n); auto.
      intros [u Hu]. discriminate.
    + intros evs2 (n & Hn & E & R). apply (Hend n); auto.
      intros [u Hu]. discriminate.
  - intros e evs1 [[[u Hu] _] | [_ H1]]; [discriminate |].
    exists 0. split; [lia |]. split; [exact H1 |]. intros [u Hu]. discriminate.
  - intros evs1 [[[u Hu] _] | [_ H1]]; [discriminate |].
    exists 0. split; [lia |]. split; [exact H1 |]. intros [u Hu]. discriminate.
Qed.

(** The loop of [post_images]. *)
Lemma post_rest_in_order (target : chan) (n i : nat) :
  sat (Docx.post_rest w target i n) (pages_in_order returned target i n).
Proof.
  revert i. induction n as [| n IH]; intros i; simpl.
  - apply sat_ret. exists 0. repeat split; auto.
  - eapply sat_bind with
      (T1 := fun r evs =>
               (r = Ret tt
                /\ omap (Log.delivered_to target) evs = [Pdf.page_file i])
               \/ (~ returned r /\ omap (Log.delivered_to target) evs = [])).
    + apply sat_await.
      * intros []. left. simpl. now rewrite chan_neb_refl.
      * intros e. right. split; [intros [u Hu]; discriminate | reflexivity].
    + intros [] evs1 [[_ H1] | [H1 _]]; [| destruct H1; now exists tt].
      eapply sat_bind with
        (T1 := fun r evs => r = Ret tt /\ evs = [Called (Sleep (1 # 2)) (Returns tt)]).
      * apply sat_sleep. auto.
      * intros [] evs2 [_ ->].
        eapply sat_weaken; [apply (IH (S i)) |].
        intros r evs3 (k & Hk & E & R). exists (S k).
        split; [lia |]. split.
        -- rewrite !omap_app, H1, E. reflexivity.
        -- intros Hr. f_equal. auto.
      * intros e evs2 [H _]. discriminate.
      * intros evs2 [H _]. discriminate.
    + intros e evs1 [[H _] | [H H1]]; [discriminate |].
      exists 0. split; [lia |]. split; [exact H1 |]. intros K. now destruct H.
    + intros evs1 [[H _] | [H H1]]; [discriminate |].
      exists 0. split; [lia |]. split; [exact H1 |]. intros K. now destruct H.
Qed.

(** [post_images], in any world and for every target: the files that
    reach the target are [page_1.png], [page_2.png], ... in this order,
    each of them once, and all [k] of them when the coroutine returns. *)
Lemma post_images_in_order (target : chan) (k : nat) (use_thread : bool) :
  sat (Docx.post_images w target k use_thread)
    (pages_in_order returned target 1 k).
Proof.
  unfold Docx.post_images, try_except.
  eapply sat_try_then with (T1 := pages_in_order returned target 1 k).
  - destruct (use_thread && is_thread target); simpl.
    + destruct k as [| k]; simpl.
      * eapply sat_bind with (T1 := fun r evs => r = Ret tt /\ evs = []).
        -- apply sat_ret. auto.
        -- intros [] evs1 [_ ->]. apply sat_ret. exists 0. repeat split; auto.
        -- intros e evs1 [H _]. discriminate.
        -- intros evs1 [H _]. discriminate.
      * eapply sat_bind with
          (T1 := fun r evs =>
                   (r = Ret tt
                    /\ omap (Log.delivered_to target) evs = [Pdf.page_file 1])
                   \/ (~ returned r
                       /\ omap (Log.delivered_to target) evs = [])).
        -- apply sat_await.
           ++ intros []. left. simpl. now rewrite chan_neb_refl.
           ++ intros e. right.
              split; [intros [u Hu]; discriminate | reflexivity].
        -- intros [] evs1 [[_ H1] | [H1 _]]; [| destruct H1; now exists tt].
           rewrite Nat.sub_0_r.
           eapply sat_weaken; [apply (post_rest_in_order target k 2) |].
           intros r evs2 (n & Hn & E & R). exists (S n).
           split; [lia |]. split.
           ++ rewrite omap_app, H1, E. reflexivity.
           ++ intros Hr. f_equal. auto.
        -- intros e evs1 [[H _] | [H H1]]; [discriminate |].
           exists 0. split; [lia |]. split; [exact H1 |].
           intros K. now destruct H.
        -- intros evs1 [[H _] | [H H1]]; [discriminate |].
           exists 0. split; [lia |]. split; [exact H1 |].
           intros K. now destruct H.
    + eapply sat_bind with (T1 := fun r evs => r = Ret tt /\ evs = []).
      * apply sat_ret. auto.
      * intros [] evs1 [_ ->]. rewrite Nat.sub_0_r.
        apply (post_rest_in_order target k 1).
      * intros e evs1 [H _]. discriminate.
      * intros evs1 [H _]. discriminate.
  - intros u evs1 H. apply sat_ret. now rewrite app_nil_r.
  - intros e evs1 (n & Hn & E & R). apply sat_raise. rewrite app_nil_r.
    exists n. repeat split; auto. intros [u Hu]. discriminate.
  - intros evs1 H. exact H.
Qed.

End PageOrder.

(** C7, amended.  In the PDF workflow nothing is uploaded after a page was
    refused for another reason than a rate limit, and the workflow then
    asks for its failure status.  In the loop over the segments of a video
    an upload that raises an [HTTPException], a rate limit included, is
    not tried again and does not end the loop: the notice for the segment
    is sent to the target, and the loop goes on.  Each segment is handed
    to [send] once, in order; when the loop returns, all of them were, and
    its result counts those that were delivered.  The loop is left only by
    the exception of another call: the size of a segment, the edit of the
    status, a notice, or an upload that raises something else. *)
Theorem delivery_errors
    (w : world) (m : message) (a : attachment) (use_thread : bool)
    (target : chan) (file_name : string)
    (segments first todo successful : nat) :
  sat (Pdf.process_pdf w m a use_thread) (fun _ evs => Log.fails_cleanly evs)
  /\ sat (Mp4.upload_segments w file_name target segments first todo successful)
         (Mp4.segments_run (os_path_nt w) file_name segments first todo
            successful).
Proof.
  split; [apply process_pdf_fails_cleanly | apply upload_segments_run].
Qed.


(** ** The dispatcher *)

(** A PDF is attached to a message whose text has a YouTube link: the
    dispatcher shows the prompt of the PDF workflow and, the video handler
    having declined, the prompt of the YouTube workflow as well. *)
Lemma pdf_and_link_start_two_workflows :
  let m := Samples.post "see https://youtu.be/dQw4w9WgXcQ now" [Samples.report] in
  let run := Bot.on_message Worlds.calm default_config Samples.netloc m initial in
  fst run = Ret tt
  /\ Bot.started (log (snd run)) = [pdf; youtube_link]
  /\ ~ length (Bot.started (log (snd run))) <= 1.
Proof. vm_compute. repeat split. lia. Qed.

(** A PDF and a video attached to one message: two prompts again. *)
Example pdf_and_video_start_two_workflows :
  let m := Samples.post EmptyString [Samples.report; Samples.clip] in
  let run := Bot.on_message Worlds.calm default_config Samples.netloc m initial in
  Bot.started (log (snd run)) = [pdf; video].
Proof. reflexivity. Qed.

(** The priorities: two images win over a PDF, a PDF over a Word document,
    a video over a YouTube link, a YouTube link over a referral link. *)
Example priority_of_attachments :
  let cfg := {| MAX_FILE_SIZE := 8 * 1024 * 1024;
                REFERRAL_CHANNEL_ID := Some 10%N;
                SELENIUM_AVAILABLE := false |} in
  let started_by text atts :=
    Bot.started (log (snd (Bot.on_message Worlds.calm cfg Samples.netloc
                             (Samples.post text atts) initial))) in
  started_by EmptyString [Samples.photo 1; Samples.report; Samples.photo 2; Samples.minutes]
    = [image_batch]
  /\ started_by EmptyString [Samples.minutes; Samples.report] = [pdf]
  /\ started_by EmptyString [Samples.minutes; Samples.photo 1] = [docx]
  /\ started_by "https://youtu.be/dQw4w9WgXcQ" [Samples.clip] = [video]
  /\ started_by "https://youtu.be/dQw4w9WgXcQ and https://example.com/r/7" []
     = [youtube_link]
  /\ started_by "join at https://example.com/r/7" [] = [referral_link]
  /\ started_by "hello" [] = [].
Proof. vm_compute. repeat split. Qed.

Section Dispatcher.

Variable w : world.
Variable cfg : config.
Variable urlparse_netloc : string -> option string.

Lemma started_app (a b : list event) :
  Bot.started (a ++ b) = Bot.started a ++ Bot.started b.
Proof. apply omap_app. Qed.

Lemma no_start_started (evs : list event) :
  forallb Bot.no_start evs = true -> Bot.started evs = [].
Proof.
  induction evs as [| ev evs IH]; simpl; [reflexivity |].
  intros H. apply andb_prop in H as [H1 H2].
  unfold Bot.started in *. simpl. unfold Bot.no_start in H1.
  destruct (Bot.start ev); [discriminate | now apply IH].
Qed.

(** The end of a run of a handler, in a proof by cases on the answers of
    the world: name the events, and read the workflows off them. *)
Local Ltac finish :=
  let H := fresh in
  intros H; injection H as <- <-; simpl; rewrite <- ?app_assoc; simpl;
  first [ exists []; split; [now rewrite app_nil_r |]
        | eexists; split; [reflexivity |] ];
  unfold Bot.handled, Bot.at_most, Bot.started; simpl;
  first [ left; reflexivity | right; split; reflexivity ].

Local Ltac answer :=
  match goal with
  | |- context [reply w ?A ?l ?c] =>
      let e := fresh "e" in
      destruct (reply w A l c) as [? | e]; simpl
  end.

Lemma handle_image_batch_starts (m : message) :
  sat (Image.handle_image_batch w m) (Bot.handled image_batch).
Proof.
  apply sat_intro. intros s r s'. unfold Image.handle_image_batch.
  destruct (attachments m); [finish |].
  destruct (length (Image.image_attachments (os_path_nt w) m) <? 2)%nat;
    [finish |].
  destruct (bot_member m) as [p |]; [| unfold raise; finish].
  destruct (missing (Image.checks p));
    unfold try_except, try_then, bind, await, ret; simpl;
    repeat answer; finish.
Qed.

Lemma handle_pdf_starts (m : message) :
  sat (Pdf.handle_pdf w cfg m) (Bot.handled pdf).
Proof.
  apply sat_intro. intros s r s'. unfold Pdf.handle_pdf.
  unfold bind at 1. unfold in_processed_pdf at 1.
  destruct (bool_decide _); [finish |].
  destruct (List.filter Pdf.is_pdf (attachments m)) as [| a l]; [finish |].
  unfold bind at 1. unfold add_processed_pdf at 1.
  destruct (MAX_FILE_SIZE cfg <? size a)%N.
  { unfold bind, await, remove_processed_pdf, ret; simpl.
    repeat answer; finish. }
  destruct (bot_member m) as [p |]; [| unfold raise; finish].
  destruct (missing (Pdf.checks p));
    unfold try_except, try_then, bind, await, remove_processed_pdf, ret; simpl;
    repeat answer; finish.
Qed.

Lemma handle_docx_starts (m : message) :
  sat (Docx.handle_docx w m) (Bot.handled docx).
Proof.
  apply sat_intro. intros s r s'. unfold Docx.handle_docx.
  destruct (List.filter Docx.is_docx (attachments m)) as [| a l]; [finish |].
  destruct (8 * 1024 * 1024 <? size a)%N.
  { unfold bind, await, ret; simpl. repeat answer; finish. }
  destruct (bot_member m) as [p |]; [| unfold raise; finish].
  destruct (missing (Docx.checks p));
    unfold try_except, try_then, bind, await, ret; simpl;
    repeat answer; finish.
Qed.

Lemma first_video_starts (m : message) (l : list attachment) :
  sat (Mp4.first_video w m l) (Bot.handled video).
Proof.
  induction l as [| a l IH]; simpl.
  - apply sat_ret. now left.
  - destruct (Mp4.is_video a); [| exact IH].
    apply sat_intro. intros s r s'.
    unfold bind at 1. unfold in_processed_files at 1.
    destruct (bool_decide _).
    { unfold bind, await, ret; simpl. repeat answer; finish. }
    destruct (Mp4.MAX_FILE_SIZE_BYTES <? size a)%N;
      unfold bind, await, add_processed_file, ret; simpl;
      repeat answer; finish.
Qed.

Lemma handle_mp4_starts (m : message) :
  sat (Mp4.handle_mp4 w m) (Bot.handled video).
Proof.
  unfold Mp4.handle_mp4.
  destruct (bot_member m); [| apply sat_raise; now left].
  destruct (author_is_bot m).
  - apply sat_ret. now left.
  - apply first_video_starts.
Qed.

Lemma handle_youtube_starts (m : message) :
  sat (Youtube.handle_youtube w m) (Bot.handled youtube_link).
Proof.
  apply sat_intro. intros s r s'. unfold Youtube.handle_youtube.
  destruct (Youtube.first_video_id (content m)) as [video_id |]; [| finish].
  unfold Youtube.get_video_details, try_except, try_then, bind, await, ret.
  simpl. answer; [| finish].
  answer; [| simpl; answer; finish].
  match goal with |- context [match ?o with Some _ => _ | None => _ end] =>
    destruct o end; simpl; answer; finish.
Qed.

Lemma at_most_after {A B} (k : kind) (r : res A) (r' : res B)
    (pre evs : list event) :
  forallb Bot.no_start pre = true ->
  Bot.at_most k r evs -> Bot.at_most k r' (pre ++ evs).
Proof.
  intros Hpre H. unfold Bot.at_most in *.
  now rewrite started_app, (no_start_started pre Hpre).
Qed.

Lemma at_most_before {A B} (k : kind) (r : res A) (r' : res B)
    (evs post : list event) :
  Bot.at_most k r evs -> forallb Bot.no_start post = true ->
  Bot.at_most k r' (evs ++ post).
Proof.
  intros H Hpost. unfold Bot.at_most in *.
  now rewrite started_app, (no_start_started post Hpost), app_nil_r.
Qed.

Lemma no_start_at_most {A} (k : kind) (r : res A) (evs : list event) :
  forallb Bot.no_start evs = true -> Bot.at_most k r evs.
Proof. intros H. left. now apply no_start_started. Qed.

Lemma get_website_metadata_starts (u : string) :
  sat (Referral.get_website_metadata w cfg urlparse_netloc u)
    (Bot.at_most referral_link).
Proof.
  unfold Referral.get_website_metadata.
  destruct (urlparse_netloc u) as [dom |];
    [| apply sat_raise; now left].
  eapply sat_bind with
    (T1 := fun _ evs => Bot.started evs = [referral_link]).
  - apply sat_intro. intros s r s'.
    unfold Referral.fetch, try_except, try_then, bind, await, ret.
    answer; intros H; injection H as <- <-; simpl;
      (eexists; split; [reflexivity |]); reflexivity.
  - intros html evs1 H1.
    eapply sat_weaken;
      [apply (obeys_sat Bot.no_start any);
       unfold Referral.extract_metadata_from_html, Referral.fetch; obey |].
    intros r evs [H _]. cbv beta.
    apply (at_most_before referral_link (Ret tt)); [now right | exact H].
  - intros e evs1 H1. now right.
  - intros evs1 H1. now right.
Qed.

Lemma handle_referral_starts (m : message) (id : N) :
  sat (Referral.handle_referral w cfg urlparse_netloc m id)
    (Bot.at_most referral_link).
Proof.
  unfold Referral.handle_referral.
  destruct (negb _); [apply sat_ret; now left |].
  destruct (Referral.first_url (content m)) as [u |];
    [| apply sat_ret; now left].
  destruct (urlparse_netloc u) as [dom |] eqn:Hn;
    [| apply sat_raise; now left].
  assert (Hedit : forall t,
             obeys Bot.no_start any (await w (EditStatus (Some t) KeepView))).
  { intros t. apply obeys_await. intros r. reflexivity. }
  eapply sat_bind with (T1 := fun _ evs => forallb Bot.no_start evs = true).
  - eapply sat_weaken; [apply (obeys_sat Bot.no_start any); obey |].
    now intros r evs [H _].
  - intros u0 evs0 H0.
    eapply sat_weaken with (T := Bot.at_most referral_link);
      [| intros r evs H; now apply (at_most_after _ r)].
    unfold try_except.
    eapply sat_try_then with (T1 := Bot.at_most referral_link).
    + eapply sat_bind with (T1 := fun _ evs => forallb Bot.no_start evs = true).
      * eapply sat_weaken; [apply (obeys_sat Bot.no_start any) |
                            now intros r evs [H _]].
        destruct (Py.contains "blofin.com" dom);
          [apply Hedit | now apply obeys_ret].
      * intros u1 evs1 H1.
        eapply sat_weaken with (T := Bot.at_most referral_link);
          [| intros r evs H; now apply (at_most_after _ r)].
        eapply sat_bind with (T1 := Bot.at_most referral_link).
        -- apply get_website_metadata_starts.
        -- intros md evs2 H2.
           eapply sat_weaken;
             [apply (obeys_sat Bot.no_start any); obey |].
           intros r evs [H _]. cbv beta.
           eapply at_most_before; [exact H2 | exact H].
        -- intros e evs2 H2. exact H2.
        -- intros evs2 H2. exact H2.
      * intros e evs1 H1. now apply no_start_at_most.
      * intros evs1 H1. now apply no_start_at_most.
    + intros b evs1 H1. apply sat_ret. rewrite app_nil_r. exact H1.
    + intros e evs1 H1.
      eapply sat_weaken; [apply (obeys_sat Bot.no_start any); obey |].
      intros r evs [H _]. cbv beta.
      eapply at_most_before; [exact H1 | exact H].
    + intros evs1 H1. exact H1.
  - intros e evs0 H0. now apply no_start_at_most.
  - intros evs0 H0. now apply no_start_at_most.
Qed.

Lemma handled_one_of (k : kind) (p : kind -> bool) (r : res bool)
    (evs : list event) :
  p k = true -> Bot.handled k r evs -> Bot.one_of p (Bot.started evs).
Proof.
  intros Hk [-> | [_ ->]]; split; simpl; auto. now rewrite Hk.
Qed.

Lemma at_most_one_of {A} (k : kind) (p : kind -> bool) (r : res A)
    (evs : list event) :
  p k = true -> Bot.at_most k r evs -> Bot.one_of p (Bot.started evs).
Proof.
  intros Hk [-> | ->]; split; simpl; auto. now rewrite Hk.
Qed.

Lemma declined (k : kind) (evs : list event) :
  Bot.handled k (Ret false) evs -> Bot.started evs = [].
Proof. intros [H | [H _]]; [exact H | discriminate H]. Qed.

(** A handler that may start a workflow of kind [k], followed, when it
    has not handled the message, by handlers that start at most one
    workflow of a kind in [p]. *)
Lemma sat_by_priority (k : kind) (p : kind -> bool)
    (first : M bool) (others : M unit) :
  p k = true ->
  sat first (Bot.handled k) ->
  sat others (fun _ evs => Bot.one_of p (Bot.started evs)) ->
  sat (bind first (fun b => if b : bool then ret tt else others))
    (fun _ evs => Bot.one_of p (Bot.started evs)).
Proof.
  intros Hk Hfirst Hothers.
  eapply sat_bind; [exact Hfirst | | |].
  - intros [|] evs1 H1.
    + apply sat_ret. rewrite app_nil_r. exact (handled_one_of k p _ _ Hk H1).
    + eapply sat_weaken; [exact Hothers |].
      intros r evs H. cbv beta.
      now rewrite started_app, (declined k evs1 H1).
  - intros e evs1 H1. exact (handled_one_of k p _ _ Hk H1).
  - intros evs1 H1. exact (handled_one_of k p _ _ Hk H1).
Qed.

Lemma sat_last {A} (k : kind) (p : kind -> bool) (last : M A)
    (T : res A -> list event -> Prop) :
  p k = true ->
  sat last T ->
  (forall r evs, T r evs -> Bot.one_of p (Bot.started evs)) ->
  sat (bind last (fun _ => ret tt))
    (fun _ evs => Bot.one_of p (Bot.started evs)).
Proof.
  intros Hk Hlast HT.
  eapply sat_bind; [exact Hlast | | |].
  - intros x evs1 H1. apply sat_ret. rewrite app_nil_r. now apply (HT (Ret x)).
  - intros e evs1 H1. now apply (HT (Raise e)).
  - intros evs1 H1. now apply (HT Cancel).
Qed.

Lemma dispatch_attachments_starts (m : message) :
  sat (Bot.dispatch_attachments w cfg m)
    (fun _ evs =>
       Bot.one_of Bot.of_attachments (Bot.started evs)
       /\ (attachments m = [] -> Bot.started evs = [])).
Proof.
  unfold Bot.dispatch_attachments.
  destruct (attachments m) as [| a0 l] eqn:Ha.
  - apply sat_ret. repeat split; simpl; auto.
  - eapply sat_weaken with
      (T := fun _ evs => Bot.one_of Bot.of_attachments (Bot.started evs));
      [| intros r evs H; split; [exact H | discriminate] ].
    apply (sat_by_priority image_batch);
      [reflexivity | apply handle_image_batch_starts |].
    apply (sat_by_priority pdf);
      [reflexivity | apply handle_pdf_starts |].
    apply (sat_last docx Bot.of_attachments _ (Bot.handled docx));
      [reflexivity | apply handle_docx_starts |].
    intros r evs. now apply handled_one_of.
Qed.

Lemma dispatch_links_starts (m : message) :
  sat (Bot.dispatch_links w cfg urlparse_netloc m)
    (fun _ evs => Bot.one_of Bot.of_links (Bot.started evs)).
Proof.
  unfold Bot.dispatch_links.
  apply (sat_by_priority video);
    [reflexivity | apply handle_mp4_starts |].
  apply (sat_by_priority youtube_link);
    [reflexivity | apply handle_youtube_starts |].
  destruct (REFERRAL_CHANNEL_ID cfg) as [id |].
  - apply (sat_last referral_link Bot.of_links _ (Bot.at_most referral_link));
      [reflexivity | apply handle_referral_starts |].
    intros r evs. now apply at_most_one_of.
  - apply sat_ret. split; simpl; auto.
Qed.

Lemma process_commands_no_start (m : message) :
  sat (Bot.process_commands w m) (fun _ evs => Bot.started evs = []).
Proof.
  eapply sat_weaken with
    (T := fun _ evs => forallb Bot.no_start evs = true);
    [| intros r evs H; now apply no_start_started ].
  eapply sat_weaken;
    [apply obeys_sat with (P := Bot.no_start) (Q := fun _ => True) | ].
  - unfold Bot.process_commands, Bot.help_command.
    destruct (command w m) as [name |]; [| apply obeys_ret; exact I].
    destruct (String.eqb name "help"); [| apply obeys_ret; exact I].
    obey.
  - now intros r evs [H _].
Qed.

(** The handlers of attachments of bot.py are the handlers of the
    specification tried by priority. *)
Lemma dispatch_attachments_by_priority (m : message) (s : state) :
  Bot.dispatch_attachments w cfg m s
  = match attachments m with
    | [] => ret tt s
    | _ => Bot.by_priority (Bot.attachment_handlers w cfg m) s
    end.
Proof.
  unfold Bot.dispatch_attachments, Bot.attachment_handlers.
  destruct (attachments m) as [| a0 l]; [reflexivity |].
  cbn [Bot.by_priority]. unfold bind.
  destruct (Image.handle_image_batch w m s) as [[[|] | e |] s1];
    try reflexivity.
  destruct (Pdf.handle_pdf w cfg m s1) as [[[|] | e |] s2]; try reflexivity.
  destruct (Docx.handle_docx w m s2) as [[[|] | e |] s3]; reflexivity.
Qed.

Lemma dispatch_links_by_priority (m : message) (s : state) :
  Bot.dispatch_links w cfg urlparse_netloc m s
  = Bot.by_priority (Bot.link_handlers w cfg urlparse_netloc m) s.
Proof.
  unfold Bot.dispatch_links, Bot.link_handlers.
  cbn [Bot.by_priority app]. unfold bind.
  destruct (Mp4.handle_mp4 w m s) as [[[|] | e |] s1]; try reflexivity.
  destruct (Youtube.handle_youtube w m s1) as [[[|] | e |] s2];
    try reflexivity.
  destruct (REFERRAL_CHANNEL_ID cfg) as [id |]; [| reflexivity].
  cbn [Bot.by_priority]. unfold bind.
  destruct (Referral.handle_referral w cfg urlparse_netloc m id s2)
    as [[[|] | e |] s3]; reflexivity.
Qed.

Lemma on_message_by_priority (m : message) (s : state) :
  Bot.on_message w cfg urlparse_netloc m s
  = Bot.dispatch w cfg urlparse_netloc m s.
Proof.
  unfold Bot.on_message, Bot.dispatch.
  destruct (author_is_bot m); [reflexivity |].
  unfold bind.
  destruct (Bot.process_commands w m s) as [[u | e |] s1]; try reflexivity.
  rewrite dispatch_attachments_by_priority.
  destruct (attachments m) as [| a0 l].
  - unfold ret. apply dispatch_links_by_priority.
  - destruct (Bot.by_priority _ s1) as [[v | e |] s2]; try reflexivity.
    apply dispatch_links_by_priority.
Qed.

Lemma on_message_starts (m : message) :
  sat (Bot.on_message w cfg urlparse_netloc m)
    (fun _ evs =>
       exists ka kb,
         Bot.started evs = ka ++ kb
         /\ Bot.one_of Bot.of_attachments ka
         /\ Bot.one_of Bot.of_links kb
         /\ (attachments m = [] -> ka = [])).
Proof.
  unfold Bot.on_message. destruct (author_is_bot m).
  - apply sat_ret. exists [], []. repeat split; simpl; auto.
  - eapply sat_bind; [apply process_commands_no_start | | |].
    + intros u evs0 H0.
      eapply sat_bind; [apply dispatch_attachments_starts | | |].
      * intros v evs1 [H1 H2].
        eapply sat_weaken; [apply dispatch_links_starts |].
        intros r evs2 H3. cbv beta.
        exists (Bot.started evs1), (Bot.started evs2).
        rewrite !started_app, H0.
        split; [reflexivity |]. split; [exact H1 |]. split; [exact H3 |].
        exact H2.
      * intros e evs1 [H1 H2]. exists (Bot.started evs1), [].
        rewrite started_app, H0, app_nil_r.
        split; [reflexivity |]. split; [exact H1 |].
        split; [split; simpl; auto | exact H2].
      * intros evs1 [H1 H2]. exists (Bot.started evs1), [].
        rewrite started_app, H0, app_nil_r.
        split; [reflexivity |]. split; [exact H1 |].
        split; [split; simpl; auto | exact H2].
    + intros e evs0 H0. exists [], []. rewrite H0.
      repeat split; simpl; auto.
    + intros evs0 H0. exists [], []. rewrite H0.
      repeat split; simpl; auto.
Qed.

End Dispatcher.

(** C1, amended.  After the commands, the dispatcher tries the handlers of
    attachments in the order image batch, PDF, Word document, and only on
    a message that has attachments; then, on every message, the handlers
    of video, YouTube link and referral link in that order.  In each of
    the two groups a handler is tried only when those before it have not
    handled the message: [Bot.on_message] is [Bot.dispatch], which words
    this with [Bot.by_priority] over [Bot.attachment_handlers] and
    [Bot.link_handlers].  The run starts at most one workflow among the
    first three kinds, none when the message has no attachment, and after
    it at most one among the last three: at most two for a message, not
    one. *)
Theorem dispatch_one_per_group
    (w : world) (cfg : config) (urlparse_netloc : string -> option string)
    (m : message) (s : state) :
  Bot.on_message w cfg urlparse_netloc m s
  = Bot.dispatch w cfg urlparse_netloc m s
  /\ exists evs ka kb,
    log (snd (Bot.on_message w cfg urlparse_netloc m s)) = log s ++ evs
    /\ Bot.started evs = ka ++ kb
    /\ Bot.one_of Bot.of_attachments ka
    /\ Bot.one_of Bot.of_links kb
    /\ (attachments m = [] -> ka = [])
    /\ length (Bot.started evs) <= 2.
Proof.
  split; [apply on_message_by_priority |].
  destruct (on_message_starts w cfg urlparse_netloc m s)
    as (evs & E & ka & kb & Hs & Ha & Hb & Hn).
  exists evs, ka, kb.
  split; [exact E |]. split; [exact Hs |]. split; [exact Ha |].
  split; [exact Hb |]. split; [exact Hn |].
  rewrite Hs, length_app. destruct Ha as [Ha _], Hb as [Hb _]. lia.
Qed.



(** [handle_referral] parses the URL before it calls
    [get_website_metadata]: a URL that [urlparse] rejects never reaches the
    fetch. *)
Lemma referral_parses_first
    (w : world) (cfg : config) (urlparse_netloc : string -> option string)
    (m : message) (id : N) (u : string) (s : state) :
  chan_id (channel m) = id ->
  Referral.first_url (content m) = Some u ->
  urlparse_netloc u = None ->
  exists e, Referral.handle_referral w cfg urlparse_netloc m id s = (Raise e, s).
Proof.
  intros Hc Hu Hn. unfold Referral.handle_referral.
  rewrite Hc, N.eqb_refl, Hu, Hn. simpl. eexists. reflexivity.
Qed.

(** With no network at all the record is the placeholder for the domain. *)
Example offline_metadata :
  let u := "https://example.com/r/7" in
  let run := Referral.get_website_metadata Samples.offline default_config
               Samples.netloc u initial in
  fst run = Ret (Referral.fallback "example.com" u)
  /\ Referral.title (Referral.fallback "example.com" u) = Some "Visit example.com"
  /\ e_title (Referral.create_referral_embed u (Referral.fallback "example.com" u))
     = "Visit example.com".
Proof. vm_compute. repeat split. Qed.

Lemma metadata_fetch_never_fails_witness :
  let u := "https://example.com/r/7" in
  Samples.netloc u = Some "example.com"
  /\ exists md evs,
       Referral.get_website_metadata Samples.offline default_config
         Samples.netloc u initial
         = (Ret md, Log.extend evs initial)
       /\ Referral.truthy (Referral.title md) = true
       /\ Referral.domain md = "example.com"
       /\ Some (e_title (Referral.create_referral_embed u md)) = Referral.title md
       /\ e_title (Referral.create_referral_embed u md) <> EmptyString
       /\ (none_fetched evs ->
             md = Referral.fallback "example.com" u
             /\ Referral.error md = Some "403 Forbidden").
Proof.
  cbn zeta. split; [reflexivity |].
  apply (metadata_fetch_never_fails Samples.offline default_config
           Samples.netloc "https://example.com/r/7" initial).
  reflexivity.
Defined.


(* ===================================================================== *)
(** * Further properties of the handlers *)
(* ===================================================================== *)

(** ** The pages of a DOCX *)

Section DocxPagesFacts.

Import DocxPages.

Lemma flush_spec (pages current_page : list string) :
  flush pages current_page
  = pages ++ map page_text
               (match current_page with [] => [] | _ => [current_page] end).
Proof. destruct current_page; simpl; [now rewrite app_nil_r | reflexivity]. Qed.

Lemma fill_groups (all_text pages current_page : list string) (n : nat) :
  fill all_text pages current_page n
  = pages ++ map page_text (groups all_text current_page n).
Proof.
  revert pages current_page n.
  induction all_text as [| item rest IH]; intros pages current_page n; simpl.
  - apply flush_spec.
  - destruct (3000 <? n + Py.len item)%nat.
    + rewrite IH, flush_spec.
      destruct current_page; simpl; [now rewrite app_nil_r |].
      now rewrite <- app_assoc.
    + apply IH.
Qed.

Lemma weight_app (a b : list string) : weight (a ++ b) = weight a + weight b.
Proof. induction a as [| x a IH]; simpl; [reflexivity | rewrite IH; lia]. Qed.

Lemma groups_concat (all_text current_page : list string) (n : nat) :
  concat (groups all_text current_page n) = current_page ++ all_text.
Proof.
  revert current_page n.
  induction all_text as [| item rest IH]; intros current_page n; simpl.
  - destruct current_page; simpl; [reflexivity | now rewrite !app_nil_r].
  - destruct (3000 <? n + Py.len item)%nat.
    + destruct current_page; simpl; rewrite IH; reflexivity.
    + rewrite IH, <- app_assoc. reflexivity.
Qed.

Lemma groups_nonempty (all_text current_page : list string) (n : nat) :
  Forall (fun page => page <> []) (groups all_text current_page n).
Proof.
  revert current_page n.
  induction all_text as [| item rest IH]; intros current_page n; simpl.
  - destruct current_page; constructor; [discriminate | constructor].
  - destruct (3000 <? n + Py.len item)%nat; [| apply IH].
    destruct current_page; [apply IH |].
    constructor; [discriminate | apply IH].
Qed.

Lemma groups_budget (all_text current_page : list string) :
  length current_page <= 1 \/ weight current_page <= 3000 ->
  Forall (fun page => length page = 1 \/ weight page <= 3000)
         (groups all_text current_page (weight current_page)).
Proof.
  revert current_page.
  induction all_text as [| item rest IH]; intros current_page H; simpl.
  - destruct current_page as [| x [| y l]]; constructor; auto.
    destruct H as [H | H]; [simpl in H; lia | auto].
  - destruct (3000 <? weight current_page + Py.len item)%nat eqn:E.
    + assert (IH' := IH [item]). simpl in IH'. rewrite Nat.add_0_r in IH'.
      destruct current_page as [| x l]; [apply IH'; left; lia |].
      constructor; [| apply IH'; left; lia].
      destruct H as [H | H]; [| auto].
      left. simpl in *. destruct l; [reflexivity | simpl in H; lia].
    + apply Nat.ltb_ge in E.
      assert (weight (current_page ++ [item]) = weight current_page + Py.len item)
        by (rewrite weight_app; simpl; lia).
      rewrite <- H0. apply IH. right. lia.
Qed.

(** A page is closed only when the next text does not fit: the texts of
    a page and the first text of the next one have more than 3000
    characters together. *)
Lemma groups_greedy (all_text current_page : list string) :
  forall i page next item,
    groups all_text current_page (weight current_page) !! i = Some page ->
    groups all_text current_page (weight current_page) !! S i = Some next ->
    head next = Some item ->
    3000 < weight page + Py.len item.
Proof.
  revert current_page.
  induction all_text as [| item0 rest IH]; intros current_page i page next item;
    simpl.
  - destruct current_page; simpl; [discriminate |].
    intros _ H. destruct i; discriminate.
  - assert (Hhead : forall l n,
               head (concat (groups l [item0] n)) = Some item0).
    { intros l n. rewrite groups_concat. reflexivity. }
    destruct (3000 <? weight current_page + Py.len item0)%nat eqn:E.
    + assert (IH' := IH [item0]). simpl in IH'. rewrite Nat.add_0_r in IH'.
      destruct current_page as [| x l]; [apply IH' |].
      destruct i as [| i]; [| apply IH'].
      simpl. intros H1 H2 H3. injection H1 as <-.
      apply Nat.ltb_lt in E.
      assert (Hn := groups_nonempty rest [item0] (Py.len item0)).
      assert (Hc := Hhead rest (Py.len item0)).
      destruct (groups rest [item0] (Py.len item0)) as [| g gs];
        [discriminate |].
      simpl in H2. injection H2 as ->.
      apply Forall_inv in Hn. destruct next as [| y next]; [congruence |].
      simpl in Hc, H3. congruence.
    + assert (weight (current_page ++ [item0])
              = weight current_page + Py.len item0)
        by (rewrite weight_app; simpl; lia).
      rewrite <- H. apply IH.
Qed.

End DocxPagesFacts.

(** X1.  The pages [convert_docx_to_images] cuts the texts of a document
    into keep every text, in the order of the document: each page is the
    texts of a group joined by blank lines, the groups put end to end
    give back the texts, no group is empty, and a group has at most 3000
    characters unless it is made of one text alone. *)
Theorem split_pages_keeps_texts (all_text : list string) :
  exists pages : list (list string),
    DocxPages.split_pages all_text = map DocxPages.page_text pages
    /\ concat pages = all_text
    /\ Forall (fun page => page <> []) pages
    /\ Forall (fun page => length page = 1 \/ DocxPages.weight page <= 3000)
              pages.
Proof.
  exists (DocxPages.groups all_text [] 0). split; [| split; [| split]].
  - unfold DocxPages.split_pages. destruct all_text; [reflexivity |].
    apply (fill_groups _ [] [] 0).
  - apply (groups_concat all_text [] 0).
  - apply groups_nonempty.
  - apply (groups_budget all_text []). left. simpl. lia.
Qed.

(** X2.  The cut is greedy: a page is closed only when the next text does
    not fit, so the texts of a page and the first text of the page after
    it have more than 3000 characters together. *)
Theorem split_pages_greedy (all_text : list string) :
  exists pages : list (list string),
    DocxPages.split_pages all_text = map DocxPages.page_text pages
    /\ concat pages = all_text
    /\ forall i page next item,
         pages !! i = Some page -> pages !! S i = Some next ->
         head next = Some item ->
         3000 < DocxPages.weight page + Py.len item.
Proof.
  exists (DocxPages.groups all_text [] 0). split; [| split].
  - unfold DocxPages.split_pages. destruct all_text; [reflexivity |].
    apply (fill_groups _ [] [] 0).
  - apply (groups_concat all_text [] 0).
  - apply (groups_greedy all_text []).
Qed.

(** ** Names and descriptions *)

Lemma length_take_le (n : nat) (s : string) : String.length (Py.take n s) <= n.
Proof.
  unfold Py.take. revert s.
  induction n as [| n IH]; intros s; destruct s as [| c s]; simpl; try lia.
  specialize (IH s). lia.
Qed.

Lemma take_all (n : nat) (s : string) :
  String.length s <= n -> Py.take n s = s.
Proof.
  unfold Py.take. revert s.
  induction n as [| n IH]; intros s H; destruct s as [| c s]; simpl in *;
    try reflexivity; try lia.
  f_equal. apply IH. lia.
Qed.

Lemma take_app (a b : string) : Py.take (String.length a) (a ++ b) = a.
Proof.
  unfold Py.take. induction a as [| c a IH]; simpl.
  - now destruct b.
  - now rewrite IH.
Qed.

Lemma append_empty (s : string) : (s ++ EmptyString)%string = s.
Proof.
  induction s as [| c s IH]; [reflexivity |].
  change (String c (s ++ EmptyString) = String c s). now rewrite IH.
Qed.

(** X3.  The name of the thread of a video is "Watch: " followed by the
    first 50 characters of the title; it has at most 57 characters, so it
    is never cut to the 100 characters of the platform.  The description
    of the embed has at most 203 characters, and a description of at most
    200 characters is shown as it is. *)
Theorem watch_thread_name_never_cut (title description : string) :
  YoutubeView.watch_thread_name title = ("Watch: " ++ Py.take 50 title)%string
  /\ Py.len (YoutubeView.watch_thread_name title) <= 57
  /\ Py.len (YoutubeView.embed_description description) <= 203
  /\ (Py.len description <= 200 ->
      YoutubeView.embed_description description = description).
Proof.
  assert (H : Py.len ("Watch: " ++ Py.take 50 title) <= 57).
  { unfold Py.len. rewrite length_append.
    assert (K := length_take_le 50 title). simpl. lia. }
  assert (E : YoutubeView.watch_thread_name title
              = ("Watch: " ++ Py.take 50 title)%string).
  { unfold YoutubeView.watch_thread_name, thread_name.
    destruct (100 <? Py.len ("Watch: " ++ Py.take 50 title))%nat eqn:C;
      [| reflexivity].
    apply Nat.ltb_lt in C. lia. }
  split; [exact E |]. split; [now rewrite E |].
  unfold YoutubeView.embed_description, Py.len. split.
  - rewrite length_append.
    assert (K := length_take_le 200 description).
    destruct (200 <? String.length description)%nat; simpl; lia.
  - intros Hd.
    destruct (200 <? String.length description)%nat eqn:C.
    + apply Nat.ltb_lt in C. lia.
    + rewrite take_all by exact Hd. apply append_empty.
Qed.

Lemma watch_thread_name_never_cut_witness :
  Py.len "About it" <= 200
  /\ YoutubeView.watch_thread_name "A video" = "Watch: A video"
  /\ YoutubeView.embed_description "About it" = "About it".
Proof.
  assert (H : Py.len "About it" <= 200) by (vm_compute; lia).
  split; [exact H |].
  destruct (watch_thread_name_never_cut "A video" "About it")
    as (E & _ & _ & D).
  split; [exact E | exact (D H)].
Defined.

Lemma rfind_from_absent (c : ascii) (s : string) (i last : Z) :
  has_char c s = false -> Py.rfind_from i c s last = last.
Proof.
  revert i last. induction s as [| d s IH]; intros i last H; simpl in *;
    [reflexivity |].
  apply orb_false_elim in H as [H1 H2]. rewrite H1. now apply IH.
Qed.

Lemma rfind_from_last (c : ascii) (a b : string) (i last : Z) :
  has_char c b = false ->
  Py.rfind_from i c (a ++ String c b) last = (i + Z.of_nat (String.length a))%Z.
Proof.
  intros Hb. revert i last.
  induction a as [| d a IH]; intros i last.
  - change (EmptyString ++ String c b)%string with (String c b).
    cbn [Py.rfind_from String.length].
    rewrite Ascii.eqb_refl, rfind_from_absent by exact Hb. lia.
  - change (String d a ++ String c b)%string with (String d (a ++ String c b)).
    cbn [Py.rfind_from String.length]. rewrite IH. lia.
Qed.

Lemma has_char_app (c : ascii) (a b : string) :
  has_char c (a ++ b) = has_char c a || has_char c b.
Proof.
  induction a as [| d a IH]; [reflexivity |].
  change (String d a ++ b)%string with (String d (a ++ b)).
  cbn [has_char]. now rewrite IH, orb_assoc.
Qed.

(** X4.  The names of a converted video.  A file name cut at its last dot
    into [stem] and an extension gives the converted file [stem].mp4; a
    file name with no dot gets ".mp4" appended.  When [stem] has no
    separator of paths ("/", and the backslash too where [os.path] is
    ntpath) and is not made of dots only, segment [i] of [segments] of the
    converted file is named [stem]_part[i+1]of[segments].mp4. *)
Theorem video_file_names (nt : bool) (stem ext name : string)
    (i segments : nat) :
  has_char "." ext = false ->
  has_char "." name = false ->
  Mp4.mp4_name (stem ++ "." ++ ext) = (stem ++ ".mp4")%string
  /\ Mp4.mp4_name name = (name ++ ".mp4")%string
  /\ (has_char "/" stem = false ->
      (nt = true -> has_char "\" stem = false) ->
      Py.all_dots stem = false ->
      Mp4.segment_name nt (Mp4.mp4_name (stem ++ "." ++ ext)) i segments
      = (stem ++ "_part" ++ Py.str_of_nat (i + 1) ++ "of"
           ++ Py.str_of_nat segments ++ ".mp4")%string).
Proof.
  intros Hext Hname.
  assert (E1 : forall e, has_char "." e = false ->
                 Py.rfind "." (stem ++ String "." e)
                 = Z.of_nat (String.length stem)).
  { intros e He. unfold Py.rfind. now rewrite rfind_from_last. }
  assert (M : Mp4.mp4_name (stem ++ "." ++ ext) = (stem ++ ".mp4")%string).
  { unfold Mp4.mp4_name. change ("." ++ ext)%string with (String "." ext).
    rewrite (E1 ext Hext).
    destruct (0 <=? Z.of_nat (String.length stem))%Z eqn:C;
      [| apply Z.leb_gt in C; lia].
    now rewrite Nat2Z.id, take_app. }
  split; [exact M |]. split.
  - unfold Mp4.mp4_name, Py.rfind.
    rewrite rfind_from_absent by exact Hname. reflexivity.
  - intros Hsep Hback Hdots. rewrite M. unfold Mp4.segment_name, Py.splitext.
    change (stem ++ ".mp4")%string with (stem ++ String "." "mp4")%string.
    rewrite (E1 "mp4" eq_refl).
    assert (S1 : Py.rfind "/" (stem ++ String "." "mp4") = (-1)%Z).
    { unfold Py.rfind. apply rfind_from_absent.
      now rewrite has_char_app, Hsep. }
    assert (S2 : (if nt
                  then Z.max (Py.rfind "\" (stem ++ String "." "mp4"))
                             (Py.rfind "/" (stem ++ String "." "mp4"))
                  else Py.rfind "/" (stem ++ String "." "mp4")) = (-1)%Z).
    { destruct nt; [| exact S1]. rewrite S1.
      unfold Py.rfind. rewrite rfind_from_absent; [reflexivity |].
      now rewrite has_char_app, (Hback eq_refl). }
    rewrite S2.
    destruct (-1 <? Z.of_nat (String.length stem))%Z eqn:C;
      [| apply Z.ltb_ge in C; lia].
    replace (Z.to_nat (-1 + 1)) with 0 by reflexivity.
    replace (Z.to_nat (Z.of_nat (String.length stem) - -1 - 1))
      with (String.length stem) by lia.
    fold (Py.take (String.length stem) (stem ++ String "." "mp4")).
    rewrite take_app, Hdots, Nat2Z.id, take_app. reflexivity.
Qed.

Lemma video_file_names_witness :
  has_char "." "MOV" = false /\ has_char "." "clip" = false
  /\ Mp4.mp4_name "clip.MOV" = "clip.mp4"
  /\ Mp4.mp4_name "clip" = "clip.mp4"
  /\ Mp4.segment_name true (Mp4.mp4_name "clip.MOV") 0 6
     = "clip_part1of6.mp4".
Proof.
  assert (H1 : has_char "." "MOV" = false) by reflexivity.
  assert (H2 : has_char "." "clip" = false) by reflexivity.
  split; [exact H1 |]. split; [exact H2 |].
  destruct (video_file_names true "clip" "MOV" "clip" 0 6 H1 H2)
    as (A & B & C).
  split; [exact A |]. split; [exact B |].
  exact (C eq_refl (fun _ => eq_refl) eq_refl).
Defined.

(** ** Links in the text of a message *)

Lemma append_cons (c : ascii) (a b : string) :
  (String c a ++ b)%string = String c (a ++ b).
Proof. reflexivity. Qed.

Lemma append_assoc (a b c : string) :
  ((a ++ b) ++ c)%string = (a ++ (b ++ c))%string.
Proof.
  induction a as [| d a IH]; [reflexivity |].
  now rewrite !append_cons, IH.
Qed.

Lemma prefix_app (p r : string) : String.prefix p (p ++ r) = true.
Proof.
  induction p as [| c p IH]; [now destruct r |].
  rewrite append_cons. cbn [String.prefix].
  destruct (ascii_dec c c) as [_ | N]; [exact IH | now destruct N].
Qed.

Lemma prefix_inv (p s : string) :
  String.prefix p s = true -> s = (p ++ Py.drop (String.length p) s)%string.
Proof.
  revert s. induction p as [| c p IH]; intros s H.
  - unfold Py.drop. cbn [String.length]. rewrite Nat.sub_0_r.
    change (EmptyString ++ substring 0 (String.length s) s)%string
      with (substring 0 (String.length s) s).
    clear. induction s as [| c s IH]; [reflexivity |].
    cbn [String.length substring]. now rewrite <- IH.
  - destruct s as [| d s]; [discriminate |]. cbn [String.prefix] in H.
    destruct (ascii_dec c d) as [<- | N]; [| discriminate].
    rewrite append_cons. f_equal. exact (IH s H).
Qed.

Lemma take_split (n : nat) (s : string) :
  exists r, s = (Py.take n s ++ r)%string.
Proof.
  unfold Py.take. revert s. induction n as [| n IH]; intros s.
  - exists s. now destruct s.
  - destruct s as [| c s]; [now exists EmptyString |].
    destruct (IH s) as [r E]. exists r.
    cbn [substring]. rewrite append_cons. now rewrite <- E.
Qed.

Lemma contains_prefix (p s : string) :
  String.prefix p s = true -> Py.contains p s = true.
Proof. intros H. destruct s; cbn [Py.contains]; now rewrite H. Qed.

Lemma contains_tail (p : string) (c : ascii) (s : string) :
  Py.contains p s = true -> Py.contains p (String c s) = true.
Proof. intros H. cbn [Py.contains]. rewrite H. apply orb_true_r. Qed.

Lemma contains_no_prefix (p s : string) :
  Py.contains p s = false -> String.prefix p s = false.
Proof.
  intros H. destruct s; cbn [Py.contains] in H;
    now apply orb_false_elim in H as [H _].
Qed.

Lemma id11_sound (s v : string) :
  Youtube.id11 s = Some v ->
  Py.len v = 11 /\ Youtube.all_chars Youtube.id_char v = true
  /\ exists r, s = (v ++ r)%string.
Proof.
  unfold Youtube.id11. intros H.
  destruct ((Py.len (Py.take 11 s) =? 11)%nat
            && Youtube.all_chars Youtube.id_char (Py.take 11 s)) eqn:E;
    [| discriminate].
  injection H as <-. apply andb_prop in E as [E1 E2].
  apply Nat.eqb_eq in E1. split; [exact E1 |]. split; [exact E2 |].
  apply take_split.
Qed.

Lemma id_at_sound (s v : string) :
  Youtube.id_at s = Some v ->
  Py.len v = 11 /\ Youtube.all_chars Youtube.id_char v = true
  /\ (String.prefix ("youtube.com/watch?v=" ++ v) s = true
      \/ String.prefix ("youtu.be/" ++ v) s = true).
Proof.
  unfold Youtube.id_at, Py.startswith. intros H.
  destruct (String.prefix "youtube.com/watch?v=" s) eqn:P1.
  - destruct (id11_sound _ _ H) as (L & C & r & E).
    split; [exact L |]. split; [exact C |]. left.
    rewrite (prefix_inv _ _ P1).
    change (String.length "youtube.com/watch?v=") with 20.
    rewrite E, <- append_assoc. apply prefix_app.
  - destruct (String.prefix "youtu.be/" s) eqn:P2; [| discriminate].
    destruct (id11_sound _ _ H) as (L & C & r & E).
    split; [exact L |]. split; [exact C |]. right.
    rewrite (prefix_inv _ _ P2).
    change (String.length "youtu.be/") with 9.
    rewrite E, <- append_assoc. apply prefix_app.
Qed.

(** X5.  The video id [handle_youtube] reads in the text of a message has
    11 characters, all of them letters, digits, "_" or "-", and stands in
    the text right after "youtube.com/watch?v=" or "youtu.be/".  A text
    that holds neither of the two has no video id. *)
Theorem first_video_id_sound (text v : string) :
  (Youtube.first_video_id text = Some v ->
   Py.len v = 11 /\ Youtube.all_chars Youtube.id_char v = true
   /\ (Py.contains ("youtube.com/watch?v=" ++ v) text = true
       \/ Py.contains ("youtu.be/" ++ v) text = true))
  /\ (Py.contains "youtube.com/watch?v=" text = false ->
      Py.contains "youtu.be/" text = false ->
      Youtube.first_video_id text = None).
Proof.
  split.
  - induction text as [| c text IH]; cbn [Youtube.first_video_id].
    + destruct (Youtube.id_at EmptyString) eqn:E; [| discriminate].
      intros H. injection H as ->.
      destruct (id_at_sound _ _ E) as (L & C & [P | P]);
        (split; [exact L |]; split; [exact C |]);
        [left | right]; now apply contains_prefix.
    + destruct (Youtube.id_at (String c text)) eqn:E.
      * intros H. injection H as ->.
        destruct (id_at_sound _ _ E) as (L & C & [P | P]);
          (split; [exact L |]; split; [exact C |]);
          [left | right]; now apply contains_prefix.
      * intros H. destruct (IH H) as (L & C & [P | P]);
          (split; [exact L |]; split; [exact C |]);
          [left | right]; now apply contains_tail.
  - induction text as [| c text IH]; intros H1 H2.
    + reflexivity.
    + cbn [Youtube.first_video_id]. unfold Youtube.id_at, Py.startswith.
      rewrite (contains_no_prefix _ _ H1), (contains_no_prefix _ _ H2).
      cbn [Py.contains] in H1, H2.
      apply orb_false_elim in H1 as [_ H1].
      apply orb_false_elim in H2 as [_ H2]. now apply IH.
Qed.

Lemma first_video_id_sound_witness :
  Youtube.first_video_id "see https://youtu.be/dQw4w9WgXcQ?t=3" = Some "dQw4w9WgXcQ"
  /\ Py.len "dQw4w9WgXcQ" = 11
  /\ Youtube.first_video_id "no link here" = None.
Proof.
  assert (H : Youtube.first_video_id "see https://youtu.be/dQw4w9WgXcQ?t=3"
              = Some "dQw4w9WgXcQ") by reflexivity.
  split; [exact H |].
  destruct (first_video_id_sound "see https://youtu.be/dQw4w9WgXcQ?t=3"
              "dQw4w9WgXcQ") as [A _].
  destruct (first_video_id_sound "no link here" EmptyString) as [_ B].
  split; [exact (proj1 (A H)) | exact (B eq_refl eq_refl)].
Defined.

Lemma until_space_prefix (s : string) :
  String.prefix (Referral.until_space s) s = true.
Proof.
  induction s as [| c s IH]; [reflexivity |].
  cbn [Referral.until_space]. destruct (Referral.space_char c); [reflexivity |].
  cbn [String.prefix]. destruct (ascii_dec c c) as [_ | N]; [exact IH | now destruct N].
Qed.

Lemma until_space_no_space (s : string) :
  Youtube.all_chars (fun c => negb (Referral.space_char c))
    (Referral.until_space s) = true.
Proof.
  induction s as [| c s IH]; [reflexivity |].
  cbn [Referral.until_space]. destruct (Referral.space_char c) eqn:E;
    [reflexivity |].
  cbn [Youtube.all_chars]. now rewrite E, IH.
Qed.

Lemma until_space_app (p r : string) :
  Youtube.all_chars (fun c => negb (Referral.space_char c)) p = true ->
  Referral.until_space (p ++ r) = (p ++ Referral.until_space r)%string.
Proof.
  induction p as [| c p IH]; intros H; [reflexivity |].
  cbn [Youtube.all_chars] in H. apply andb_prop in H as [H1 H2].
  rewrite !append_cons. cbn [Referral.until_space].
  apply negb_true_iff in H1. rewrite H1. now rewrite IH.
Qed.

Lemma url_at_sound (s u : string) :
  Referral.url_at s = Some u ->
  (Py.startswith "http://" u = true \/ Py.startswith "https://" u = true)
  /\ Youtube.all_chars (fun c => negb (Referral.space_char c)) u = true
  /\ String.prefix u s = true.
Proof.
  unfold Referral.url_at, Py.startswith. intros H.
  assert (K : u = Referral.until_space s
              /\ (String.prefix "http://" s = true
                  \/ String.prefix "https://" s = true)).
  { destruct (String.prefix "http://" s) eqn:P1;
      destruct (String.prefix "https://" s) eqn:P2;
      cbn [andb] in H;
      repeat match type of H with
        | (if ?b then _ else _) = _ => destruct b
        end;
      try discriminate; injection H as <-; auto. }
  destruct K as [-> K]. split; [| split].
  - destruct K as [P | P]; [left | right];
      rewrite (prefix_inv _ _ P), until_space_app by reflexivity;
      apply prefix_app.
  - apply until_space_no_space.
  - apply until_space_prefix.
Qed.

(** X6.  The link [handle_referral] reads in the text of a message starts
    with "http://" or "https://", has no white space of the class [\s] of
    Unicode (the no-break space and U+0085 included), and stands in the
    text as it is.  A text that holds neither "http://" nor "https://" has
    no link. *)
Theorem first_url_sound (text u : string) :
  (Referral.first_url text = Some u ->
   (Py.startswith "http://" u = true \/ Py.startswith "https://" u = true)
   /\ Youtube.all_chars (fun c => negb (Referral.space_char c)) u = true
   /\ Py.contains u text = true)
  /\ (Py.contains "http://" text = false ->
      Py.contains "https://" text = false ->
      Referral.first_url text = None).
Proof.
  split.
  - induction text as [| c text IH]; cbn [Referral.first_url].
    + destruct (Referral.url_at EmptyString) eqn:E; [| discriminate].
      intros H. injection H as ->.
      destruct (url_at_sound _ _ E) as (A & B & P).
      split; [exact A |]. split; [exact B | now apply contains_prefix].
    + destruct (Referral.url_at (String c text)) eqn:E.
      * intros H. injection H as ->.
        destruct (url_at_sound _ _ E) as (A & B & P).
        split; [exact A |]. split; [exact B | now apply contains_prefix].
      * intros H. destruct (IH H) as (A & B & P).
        split; [exact A |]. split; [exact B | now apply contains_tail].
  - induction text as [| c text IH]; intros H1 H2.
    + reflexivity.
    + cbn [Referral.first_url]. unfold Referral.url_at, Py.startswith.
      rewrite (contains_no_prefix _ _ H1), (contains_no_prefix _ _ H2).
      cbn [andb Py.contains] in *.
      apply orb_false_elim in H1 as [_ H1].
      apply orb_false_elim in H2 as [_ H2]. now apply IH.
Qed.

Lemma first_url_sound_witness :
  Referral.first_url "join at https://example.com/r?id=7 today"
  = Some "https://example.com/r?id=7"
  /\ Py.contains "https://example.com/r?id=7"
       "join at https://example.com/r?id=7 today" = true
  /\ Referral.first_url "no link here" = None.
Proof.
  assert (H : Referral.first_url "join at https://example.com/r?id=7 today"
              = Some "https://example.com/r?id=7") by reflexivity.
  split; [exact H |].
  destruct (first_url_sound "join at https://example.com/r?id=7 today"
              "https://example.com/r?id=7") as [A _].
  destruct (first_url_sound "no link here" EmptyString) as [_ B].
  split; [exact (proj2 (proj2 (A H))) | exact (B eq_refl eq_refl)].
Defined.

(** ** The sets of processed ids *)

Section KeepsSets.

Lemma keeps_sets_ret {A} (a : A) : keeps_sets (ret a).
Proof. intros s. split; reflexivity. Qed.

Lemma keeps_sets_raise {A} (e : exn) : keeps_sets (@raise A e).
Proof. intros s. split; reflexivity. Qed.

Lemma keeps_sets_try_then {A B} (m : M A) (h : exn -> M B) (k : A -> M B) :
  keeps_sets m -> (forall a, keeps_sets (k a)) -> (forall e, keeps_sets (h e)) ->
  keeps_sets (try_then m h k).
Proof.
  intros Hm Hk Hh s. unfold try_then. destruct (Hm s) as [E1 E2].
  destruct (m s) as [[a | e |] s1]; simpl in *.
  - destruct (Hk a s1) as [F1 F2]. now rewrite F1, F2.
  - destruct (Hh e s1) as [F1 F2]. now rewrite F1, F2.
  - auto.
Qed.

Lemma keeps_sets_bind {A B} (m : M A) (k : A -> M B) :
  keeps_sets m -> (forall a, keeps_sets (k a)) -> keeps_sets (bind m k).
Proof.
  intros Hm Hk. apply (keeps_sets_try_then m raise k Hm Hk).
  intros e. apply keeps_sets_raise.
Qed.

Lemma keeps_sets_try_except {A} (m : M A) (h : exn -> M A) :
  keeps_sets m -> (forall e, keeps_sets (h e)) -> keeps_sets (try_except m h).
Proof.
  intros Hm Hh. apply keeps_sets_try_then; auto.
  intros a. apply keeps_sets_ret.
Qed.

Lemma keeps_sets_wait_for {A} (m : M A) : keeps_sets m -> keeps_sets (wait_for m).
Proof.
  intros Hm s. unfold wait_for. destruct (Hm s) as [E1 E2].
  destruct (m s) as [[a | e |] s1]; simpl in *; auto.
Qed.

Variable w : world.

Lemma keeps_sets_await {A} (c : call A) : keeps_sets (await w c).
Proof.
  intros s. unfold await. destruct (reply w A (log s) c); split; reflexivity.
Qed.

Lemma keeps_sets_await_within {A} (c : call A) : keeps_sets (await_within w c).
Proof.
  intros s. unfold await_within. destruct (deadline w A (log s) c);
    [split; reflexivity | apply keeps_sets_await].
Qed.

Lemma keeps_sets_sleep (d : Q) : keeps_sets (sleep d).
Proof. intros s. split; reflexivity. Qed.

Lemma keeps_sets_sleep_within (d : Q) : keeps_sets (sleep_within w d).
Proof.
  intros s. unfold sleep_within. destruct (deadline w unit (log s) (Sleep d));
    split; reflexivity.
Qed.

End KeepsSets.

(** One step of a proof that a coroutine keeps the sets: follow the
    structure of the coroutine. *)
Ltac keep_step :=
  match goal with
  | |- keeps_sets (ret _) => apply keeps_sets_ret
  | |- keeps_sets (raise _) => apply keeps_sets_raise
  | |- keeps_sets (bind _ _) => apply keeps_sets_bind; [| intros ?]
  | |- keeps_sets (try_then _ _ _) =>
      apply keeps_sets_try_then; [| intros ? | intros ?]
  | |- keeps_sets (try_except _ _) => apply keeps_sets_try_except; [| intros ?]
  | |- keeps_sets (wait_for _) => apply keeps_sets_wait_for
  | |- keeps_sets (await _ _) => apply keeps_sets_await
  | |- keeps_sets (await_within _ _) => apply keeps_sets_await_within
  | |- keeps_sets (sleep _) => apply keeps_sets_sleep
  | |- keeps_sets (sleep_within _ _) => apply keeps_sets_sleep_within
  | |- keeps_sets (if ?b then _ else _) => destruct b
  | |- keeps_sets (match ?x with _ => _ end) => destruct x
  | |- keeps_sets (let (_, _) := ?x in _) => destruct x
  end.

Ltac keep := repeat keep_step.

Lemma create_thread_keeps_sets (w : world) (k : kind) (parent : chan)
    (name : string) :
  keeps_sets (ThreadCreator.create_thread_with_retry w k parent name).
Proof.
  unfold ThreadCreator.create_thread_with_retry. simpl seq.
  unfold ThreadCreator.attempts, ThreadCreator.suppress_notification.
  keep.
Qed.

Lemma upload_pages_keeps_sets (w : world) (target : chan) (use_thread : bool)
    (start_idx : nat) (pages : list bool) (i : nat) :
  keeps_sets (Pdf.upload_pages w target use_thread start_idx i pages).
Proof.
  revert i. induction pages as [| renders rest IH]; intros i; simpl.
  - apply keeps_sets_ret.
  - apply keeps_sets_bind; [| intros _; apply IH].
    unfold Pdf.send_page. keep.
Qed.

(** X7.  Whatever way [process_pdf] ends, by returning or by an exception
    that leaves it, its [finally] clause has taken the message out of the
    set of messages being processed; the workflow touches nothing else in
    the two sets. *)
Theorem process_pdf_unmarks
    (w : world) (m : message) (a : attachment) (use_thread : bool) (s : state) :
  processed_pdf_messages (snd (Pdf.process_pdf w m a use_thread s))
  = processed_pdf_messages s ∖ {[msg_id m]}
  /\ processed_files (snd (Pdf.process_pdf w m a use_thread s))
     = processed_files s.
Proof.
  unfold Pdf.process_pdf, try_finally.
  match goal with |- context [?body s] =>
    assert (K : keeps_sets body); [| destruct (K s) as [E1 E2];
                                     destruct (body s) as [r s1] ]
  end.
  { unfold Pdf.resolve_target, Pdf.deliver, Pdf.on_error,
      Pdf.safe_edit_processing_msg, Pdf.convert_and_upload_pdf.
    keep; try apply create_thread_keeps_sets; try apply upload_pages_keeps_sets. }
  simpl in *. now rewrite E1, E2.
Qed.

Lemma missing_nil (checks : list (bool * string)) :
  missing checks = [] <-> forallb fst checks = true.
Proof.
  unfold missing. induction checks as [| [b n] l IH]; simpl; [tauto |].
  destruct b; simpl; [exact IH |]. split; discriminate.
Qed.

(** X8.  [handle_pdf] and the set of messages being processed.  A message
    that is in the set is answered [True] at once, with no call.  When
    the handler returns, the set holds what it held before, and the
    message besides exactly when its prompt was put up.  When an
    exception leaves the handler (a notice could not be sent, or the
    message has no guild), the message stays in the set. *)
Theorem handle_pdf_marks (w : world) (cfg : config) (m : message) (s : state) :
  let r := fst (Pdf.handle_pdf w cfg m s) in
  let s' := snd (Pdf.handle_pdf w cfg m s) in
  exists evs,
    log s' = log s ++ evs
    /\ processed_files s' = processed_files s
    /\ (msg_id m ∈ processed_pdf_messages s -> r = Ret true /\ s' = s)
    /\ (forall b id, r = Ret b ->
          id ∈ processed_pdf_messages s' <->
          id ∈ processed_pdf_messages s
          \/ (id = msg_id m /\ Bot.started evs = [pdf]))
    /\ (forall e, r = Raise e -> msg_id m ∈ processed_pdf_messages s').
Proof.
  cbv zeta. destruct (Pdf.handle_pdf w cfg m s) as [r s'] eqn:H.
  cbn [fst snd]. unfold Pdf.handle_pdf in H. run_in H.
  assert (N0 : forall k : kind, @nil kind <> [k]) by discriminate.
  destruct (bool_decide (msg_id m ∈ processed_pdf_messages s)) eqn:D.
  { apply bool_decide_eq_true in D. leaf H.
    repeat split; try discriminate; [tauto |].
    intros [K | [_ K]]; [exact K | discriminate]. }
  apply bool_decide_eq_false in D.
  assert (Hend : forall (A : Type) (P : Prop), msg_id m ∈ processed_pdf_messages s -> P)
    by (intros A P K; destruct (D K)).
  destruct (List.filter Pdf.is_pdf (attachments m)) as [| a l].
  { leaf H. repeat split; try discriminate; try (now apply (Hend unit)); [tauto |].
    intros [K | [_ K]]; [exact K | discriminate]. }
  run_in H.
  destruct (MAX_FILE_SIZE cfg <? size a)%N.
  { run_in H; leaf H;
      (split; [reflexivity |]); (split; [now apply (Hend unit) |]);
      (split; [intros b id Hb; try discriminate; simpl; in_set
              | intros e' He; try discriminate; in_set]). }
  destruct (bot_member m) as [p |];
    [destruct (missing (Pdf.checks p)) |].
  all: run_in H; leaf H;
      (split; [reflexivity |]); (split; [now apply (Hend unit) |]);
      (split; [intros b id Hb; try discriminate; simpl; in_set
              | intros e' He; try discriminate; in_set]).
Qed.

Lemma permitted_missing (m : message) (p : permissions)
    (checks : permissions -> list (bool * string)) :
  bot_member m = Some p ->
  permitted m checks <-> missing (checks p) = [].
Proof.
  intros Hp. unfold permitted. rewrite missing_nil. split.
  - intros (q & Hq & K). rewrite Hp in Hq. now injection Hq as <-.
  - intros K. now exists p.
Qed.

Lemma not_permitted_alone (m : message)
    (checks : permissions -> list (bool * string)) :
  bot_member m = None -> ~ permitted m checks.
Proof. intros Hn (q & Hq & _). rewrite Hn in Hq. discriminate. Qed.

(** X9.  [handle_pdf] puts up its prompt exactly when it returns [True]
    for a message that is not being processed already, whose first PDF
    attachment is within the size limit, posted in a guild in a channel
    where the bot has the four permissions it checks.  For a message of
    that kind posted outside a guild, where [channel.guild] is [None],
    the handler is left by an AttributeError, with no call made. *)
Theorem handle_pdf_prompt (w : world) (cfg : config) (m : message) (s : state) :
  exists evs,
    log (snd (Pdf.handle_pdf w cfg m s)) = log s ++ evs
    /\ (Bot.started evs = [pdf] <->
        fst (Pdf.handle_pdf w cfg m s) = Ret true
        /\ (msg_id m ∉ processed_pdf_messages s)
        /\ exists a,
             head (List.filter Pdf.is_pdf (attachments m)) = Some a
             /\ (size a <= MAX_FILE_SIZE cfg)%N
             /\ permitted m Pdf.checks)
    /\ (forall a,
          msg_id m ∉ processed_pdf_messages s ->
          head (List.filter Pdf.is_pdf (attachments m)) = Some a ->
          (size a <= MAX_FILE_SIZE cfg)%N ->
          bot_member m = None ->
          fst (Pdf.handle_pdf w cfg m s) = Raise no_guild /\ evs = []).
Proof.
  destruct (Pdf.handle_pdf w cfg m s) as [r s'] eqn:H.
  cbn [fst snd]. unfold Pdf.handle_pdf in H. run_in H.
  destruct (bool_decide (msg_id m ∈ processed_pdf_messages s)) eqn:D.
  { apply bool_decide_eq_true in D. leaf H.
    split; [split; [discriminate | intros (_ & K & _); now destruct K] |].
    intros a K. now destruct K. }
  apply bool_decide_eq_false in D.
  destruct (List.filter Pdf.is_pdf (attachments m)) as [| a l].
  { leaf H. split; [split; [discriminate | intros (K & _); discriminate] |].
    intros a _ K. discriminate. }
  run_in H.
  destruct (MAX_FILE_SIZE cfg <? size a)%N eqn:Z.
  { apply N.ltb_lt in Z.
    run_in H; leaf H;
      (split; [split; [discriminate |];
               intros (K & _ & a' & Ha & Hs & _); try discriminate;
               injection Ha as <-; lia
              | intros a' _ Ha Hs _; injection Ha as <-; lia]). }
  apply N.ltb_ge in Z.
  destruct (bot_member m) as [p |] eqn:Hp.
  - assert (P := permitted_missing m p Pdf.checks Hp).
    destruct (missing (Pdf.checks p)) as [| x l'].
    + run_in H; leaf H; (split; [| intros a' _ _ _ K; discriminate]).
      * split; [| reflexivity]. intros _.
        split; [reflexivity |]. split; [exact D |].
        exists a. split; [reflexivity |]. split; [exact Z | now apply P].
      * split; [discriminate | intros (K & _); discriminate].
      * split; [discriminate | intros (K & _); discriminate].
    + run_in H; leaf H; (split; [| intros a' _ _ _ K; discriminate]);
        (split; [discriminate |]);
        intros (K & _ & a' & _ & _ & Hc); try discriminate;
        apply P in Hc; discriminate.
  - run_in H. leaf H. split; [| intros a' _ _ _ _; now split].
    split; [discriminate | intros (K & _); discriminate].
Qed.

(** X10.  [handle_docx] puts up its prompt exactly when it returns [True]
    for a message whose first DOCX attachment has at most 8 MB, posted in
    a guild in a channel where the bot may send messages and attach
    files.  For a message of that kind posted outside a guild, where
    [channel.guild] is [None], the handler is left by an AttributeError,
    with no call made. *)
Theorem handle_docx_prompt (w : world) (m : message) (s : state) :
  exists evs,
    log (snd (Docx.handle_docx w m s)) = log s ++ evs
    /\ (Bot.started evs = [docx] <->
        fst (Docx.handle_docx w m s) = Ret true
        /\ exists a,
             head (List.filter Docx.is_docx (attachments m)) = Some a
             /\ (size a <= 8 * 1024 * 1024)%N
             /\ permitted m Docx.checks)
    /\ (forall a,
          head (List.filter Docx.is_docx (attachments m)) = Some a ->
          (size a <= 8 * 1024 * 1024)%N ->
          bot_member m = None ->
          fst (Docx.handle_docx w m s) = Raise no_guild /\ evs = []).
Proof.
  destruct (Docx.handle_docx w m s) as [r s'] eqn:H.
  cbn [fst snd]. unfold Docx.handle_docx in H.
  destruct (List.filter Docx.is_docx (attachments m)) as [| a l].
  { run_in H. leaf H.
    split; [split; [discriminate | intros (K & _); discriminate] |].
    intros a K. discriminate. }
  destruct (8 * 1024 * 1024 <? size a)%N eqn:Z.
  { apply N.ltb_lt in Z.
    run_in H; leaf H;
      (split; [split; [discriminate |];
               intros (K & a' & Ha & Hs & _); try discriminate;
               injection Ha as <-; lia
              | intros a' Ha Hs _; injection Ha as <-; lia]). }
  apply N.ltb_ge in Z.
  destruct (bot_member m) as [p |] eqn:Hp.
  - assert (P := permitted_missing m p Docx.checks Hp).
    destruct (missing (Docx.checks p)) as [| x l'].
    + run_in H; leaf H; (split; [| intros a' _ _ K; discriminate]).
      * split; [| reflexivity]. intros _. split; [reflexivity |].
        exists a. split; [reflexivity |]. split; [exact Z | now apply P].
      * split; [discriminate | intros (K & _); discriminate].
      * split; [discriminate | intros (K & _); discriminate].
    + run_in H; leaf H; (split; [| intros a' _ _ K; discriminate]);
        (split; [discriminate |]);
        intros (K & a' & _ & _ & Hc); try discriminate;
        apply P in Hc; discriminate.
  - run_in H. leaf H. split; [| intros a' _ _ _; now split].
    split; [discriminate | intros (K & _); discriminate].
Qed.

(** X11.  [handle_image_batch] returns [True] exactly when it has put up
    its prompt, and it does so only for a message with at least two
    images, posted in a guild in a channel where the bot may send
    messages, attach files and manage messages.  A batch it lacks a
    permission for gets one notice and starts nothing: the answer is
    [False], unless the notice is refused, and then the exception of the
    notice leaves the handler.  For a batch posted outside a guild, where
    [channel.guild] is [None], the handler is left by an AttributeError,
    with no call made. *)
Theorem handle_image_batch_prompt (w : world) (m : message) (s : state) :
  exists evs,
    log (snd (Image.handle_image_batch w m s)) = log s ++ evs
    /\ (Bot.started evs = [image_batch] <->
        fst (Image.handle_image_batch w m s) = Ret true)
    /\ (fst (Image.handle_image_batch w m s) = Ret true ->
        2 <= length (Image.image_attachments (os_path_nt w) m)
        /\ permitted m Image.checks)
    /\ (forall p,
          2 <= length (Image.image_attachments (os_path_nt w) m) ->
          bot_member m = Some p ->
          ~ permitted m Image.checks ->
          exists (notice : text) (a : answer unit),
            evs = [Called (Send (channel m) notice) a]
            /\ fst (Image.handle_image_batch w m s)
               = match a with
                 | Returns _ => Ret false
                 | Raises e => Raise e
                 end)
    /\ (2 <= length (Image.image_attachments (os_path_nt w) m) ->
        bot_member m = None ->
        fst (Image.handle_image_batch w m s) = Raise no_guild /\ evs = []).
Proof.
  destruct (Image.handle_image_batch w m s) as [r s'] eqn:H.
  cbn [fst snd]. unfold Image.handle_image_batch in H.
  destruct (attachments m) as [| a0 l0] eqn:Ha.
  { assert (K : length (Image.image_attachments (os_path_nt w) m) = 0)
      by (unfold Image.image_attachments; now rewrite Ha).
    run_in H. leaf H.
    split; [split; discriminate |]. split; [discriminate |].
    split; [intros p L; lia | intros L; lia]. }
  destruct (length (Image.image_attachments (os_path_nt w) m) <? 2)%nat eqn:Z.
  { apply Nat.ltb_lt in Z. run_in H. leaf H.
    split; [split; discriminate |]. split; [discriminate |].
    split; [intros p L; lia | intros L; lia]. }
  apply Nat.ltb_ge in Z.
  destruct (bot_member m) as [p |] eqn:Hp.
  - assert (P := permitted_missing m p Image.checks Hp).
    destruct (missing (Image.checks p)) as [| x l'].
    + assert (Q : permitted m Image.checks) by now apply P.
      run_in H; leaf H;
        (split; [split; try reflexivity; discriminate |]);
        (split; [first [discriminate | intros _; split; [exact Z | exact Q]] |]);
        (split; [intros q _ _ K; now destruct K | discriminate]).
    + run_in H; leaf H;
        (split; [split; discriminate |]); (split; [discriminate |]);
        (split; [| discriminate]); intros q _ _ _;
        eexists; eexists; (split; [reflexivity | reflexivity]).
  - run_in H. leaf H.
    split; [split; discriminate |]. split; [discriminate |].
    split; [discriminate | intros _ _; now split].
Qed.

(** ** Videos that were offered already *)

Lemma first_video_head (w : world) (m : message) (l : list attachment)
    (s : state) :
  Mp4.first_video w m l s
  = match List.filter Mp4.is_video l with
    | [] => (Ret false, s)
    | a :: _ => Mp4.first_video w m [a] s
    end.
Proof.
  induction l as [| a l IH]; [reflexivity |].
  cbn [List.filter Mp4.first_video].
  destruct (Mp4.is_video a) eqn:V; [| exact IH].
  cbn [Mp4.first_video]. now rewrite V.
Qed.

Lemma filter_head_true {A} (p : A -> bool) (l : list A) (a : A) :
  head (List.filter p l) = Some a -> p a = true.
Proof.
  intros H. destruct (List.filter p l) as [| b r] eqn:E; [discriminate |].
  injection H as ->.
  assert (K : In a (List.filter p l)) by (rewrite E; now left).
  now apply filter_In in K.
Qed.

(** What [handle_mp4] does, by the message and the set of processed
    files it finds. *)
Lemma handle_mp4_run (w : world) (m : message) (s : state) :
  exists evs,
    log (snd (Mp4.handle_mp4 w m s)) = log s ++ evs
    /\ processed_pdf_messages (snd (Mp4.handle_mp4 w m s))
       = processed_pdf_messages s
    /\ processed_files s ⊆ processed_files (snd (Mp4.handle_mp4 w m s))
    /\ (Bot.started evs = [video] ->
        author_is_bot m = false
        /\ bot_member m <> None
        /\ exists a,
             head (List.filter Mp4.is_video (attachments m)) = Some a
             /\ (att_id a ∉ processed_files s)
             /\ (size a <= Mp4.MAX_FILE_SIZE_BYTES)%N
             /\ processed_files (snd (Mp4.handle_mp4 w m s))
                = {[att_id a]} ∪ processed_files s)
    /\ (forall a,
          author_is_bot m = false ->
          bot_member m <> None ->
          head (List.filter Mp4.is_video (attachments m)) = Some a ->
          att_id a ∈ processed_files s ->
          Bot.started evs = []
          /\ processed_files (snd (Mp4.handle_mp4 w m s)) = processed_files s
          /\ exists r,
               evs = [Called (Reply [Lit "This video has already been processed recently."]) r]).
Proof.
  destruct (Mp4.handle_mp4 w m s) as [r s'] eqn:H.
  cbn [fst snd]. unfold Mp4.handle_mp4 in H.
  destruct (bot_member m) as [p |] eqn:Hp.
  2:{ run_in H. leaf H. split; [reflexivity |]. split; [reflexivity |].
      split; [discriminate | intros a _ K; now destruct K]. }
  assert (Hg : Some p <> None) by discriminate.
  destruct (author_is_bot m).
  { run_in H. leaf H. split; [reflexivity |]. split; [reflexivity |].
    split; [discriminate | intros a K; discriminate]. }
  rewrite first_video_head in H.
  destruct (List.filter Mp4.is_video (attachments m)) as [| a l] eqn:F.
  { leaf H. split; [reflexivity |]. split; [reflexivity |].
    split; [discriminate | intros a _ _ K; discriminate]. }
  assert (V : Mp4.is_video a = true)
    by (apply (filter_head_true _ (attachments m)); now rewrite F).
  cbn [Mp4.first_video] in H. rewrite V in H. run_in H.
  destruct (bool_decide (att_id a ∈ processed_files s)) eqn:D.
  { apply bool_decide_eq_true in D.
    run_in H; leaf H; (split; [reflexivity |]); (split; [reflexivity |]);
      (split; [discriminate |]); intros a' _ _ Ha _; injection Ha as <-;
      (split; [reflexivity |]); (split; [reflexivity |]); eexists;
      reflexivity. }
  apply bool_decide_eq_false in D.
  destruct (Mp4.MAX_FILE_SIZE_BYTES <? size a)%N eqn:Z.
  { run_in H; leaf H; (split; [reflexivity |]); (split; [reflexivity |]);
      (split; [discriminate |]); intros a' _ _ Ha K; injection Ha as <-;
      now destruct D. }
  apply N.ltb_ge in Z.
  run_in H; leaf H; (split; [reflexivity |]);
    (split; [apply union_subseteq_r |]);
    (split; [| intros a' _ _ Ha K; injection Ha as <-; now destruct D]);
    try discriminate.
  intros _. split; [reflexivity |]. split; [exact Hg |]. exists a. auto.
Qed.

(** X12.  [handle_mp4] and the set of processed files.  The handler takes
    nothing out of the set.  It puts up its prompt only for a message
    that is not of the bot, whose first video attachment is not in the
    set and has at most 500 MB; that attachment is then in the set. *)
Theorem handle_mp4_offers_new (w : world) (m : message) (s : state) :
  exists evs,
    log (snd (Mp4.handle_mp4 w m s)) = log s ++ evs
    /\ processed_pdf_messages (snd (Mp4.handle_mp4 w m s))
       = processed_pdf_messages s
    /\ processed_files s ⊆ processed_files (snd (Mp4.handle_mp4 w m s))
    /\ (Bot.started evs = [video] ->
        author_is_bot m = false
        /\ exists a,
             head (List.filter Mp4.is_video (attachments m)) = Some a
             /\ (att_id a ∉ processed_files s)
             /\ (size a <= Mp4.MAX_FILE_SIZE_BYTES)%N
             /\ processed_files (snd (Mp4.handle_mp4 w m s))
                = {[att_id a]} ∪ processed_files s).
Proof.
  destruct (handle_mp4_run w m s) as (evs & E & P & F & K & _).
  exists evs. split; [exact E |]. split; [exact P |]. split; [exact F |].
  intros St. destruct (K St) as (Hb & _ & Ha). now split.
Qed.

(** X13.  A video is offered once.  After [handle_mp4] has put up the
    prompt for a message, a later run of the handler on the same message,
    in any state whose set of processed files has kept what the first run
    left in it, puts up no prompt: it answers that the video was
    processed already. *)
Theorem video_not_offered_again
    (w w' : world) (m : message) (s s2 : state) (evs : list event) :
  log (snd (Mp4.handle_mp4 w m s)) = log s ++ evs ->
  Bot.started evs = [video] ->
  processed_files (snd (Mp4.handle_mp4 w m s)) ⊆ processed_files s2 ->
  exists r,
    log (snd (Mp4.handle_mp4 w' m s2))
    = log s2 ++ [Called (Reply [Lit "This video has already been processed recently."]) r]
    /\ processed_files (snd (Mp4.handle_mp4 w' m s2)) = processed_files s2.
Proof.
  intros E St Sub.
  destruct (handle_mp4_run w m s) as (evs1 & E1 & _ & _ & K & _).
  rewrite E in E1. apply app_inv_head in E1. subst evs1.
  destruct (K St) as (Hb & Hg & a & Ha & _ & _ & Hs).
  destruct (handle_mp4_run w' m s2) as (evs2 & E2 & _ & _ & _ & K2).
  assert (Hin : att_id a ∈ processed_files s2).
  { apply Sub. rewrite Hs. apply elem_of_union_l. now apply elem_of_singleton. }
  destruct (K2 a Hb Hg Ha Hin) as (_ & F2 & r & ->).
  exists r. split; [exact E2 | exact F2].
Qed.


Lemma video_not_offered_again_witness :
  let m := Samples.post EmptyString [Samples.clip] in
  let s1 := snd (Mp4.handle_mp4 Worlds.calm m initial) in
  Bot.started (log s1) = [video]
  /\ exists r,
       log (snd (Mp4.handle_mp4 Worlds.calm m s1))
       = log s1 ++ [Called (Reply [Lit "This video has already been processed recently."]) r]
       /\ processed_files (snd (Mp4.handle_mp4 Worlds.calm m s1))
          = processed_files s1.
Proof.
  cbv zeta.
  assert (H : Bot.started
                (log (snd (Mp4.handle_mp4 Worlds.calm
                             (Samples.post EmptyString [Samples.clip]) initial)))
              = [video]) by (vm_compute; reflexivity).
  split; [exact H |].
  apply (video_not_offered_again Worlds.calm Worlds.calm
           (Samples.post EmptyString [Samples.clip]) initial _
           (log (snd (Mp4.handle_mp4 Worlds.calm
                        (Samples.post EmptyString [Samples.clip]) initial)))).
  - reflexivity.
  - exact H.
  - reflexivity.
Defined.

Section FilesGrow.

Lemma keeps_grow {A} (m : M A) : keeps_sets m -> files_grow m.
Proof. intros K s. destruct (K s) as [_ ->]. reflexivity. Qed.

Lemma files_grow_try_then {A B} (m : M A) (h : exn -> M B) (k : A -> M B) :
  files_grow m -> (forall a, files_grow (k a)) -> (forall e, files_grow (h e)) ->
  files_grow (try_then m h k).
Proof.
  intros Hm Hk Hh s. unfold try_then. specialize (Hm s).
  destruct (m s) as [[a | e |] s1]; simpl in *.
  - etransitivity; [exact Hm | apply Hk].
  - etransitivity; [exact Hm | apply Hh].
  - exact Hm.
Qed.

Lemma files_grow_bind {A B} (m : M A) (k : A -> M B) :
  files_grow m -> (forall a, files_grow (k a)) -> files_grow (bind m k).
Proof.
  intros Hm Hk. apply (files_grow_try_then m raise k Hm Hk).
  intros e s. reflexivity.
Qed.

Lemma files_grow_ret {A} (a : A) : files_grow (ret a).
Proof. intros s. reflexivity. Qed.

Lemma files_grow_pdf_set (id : N) :
  files_grow (in_processed_pdf id) /\ files_grow (add_processed_pdf id)
  /\ files_grow (remove_processed_pdf id).
Proof. repeat split; intros s; reflexivity. Qed.

End FilesGrow.

Ltac grow_step :=
  match goal with
  | |- files_grow (ret _) => apply files_grow_ret
  | |- files_grow (raise _) => apply keeps_grow, keeps_sets_raise
  | |- files_grow (bind _ _) => apply files_grow_bind; [| intros ?]
  | |- files_grow (try_then _ _ _) =>
      apply files_grow_try_then; [| intros ? | intros ?]
  | |- files_grow (try_except _ _) =>
      apply files_grow_try_then; [| intros ? | intros ?]
  | |- files_grow (await _ _) => apply keeps_grow, keeps_sets_await
  | |- files_grow (sleep _) => apply keeps_grow, keeps_sets_sleep
  | |- files_grow (in_processed_pdf _) => apply files_grow_pdf_set
  | |- files_grow (add_processed_pdf _) => apply files_grow_pdf_set
  | |- files_grow (remove_processed_pdf _) => apply files_grow_pdf_set
  | |- files_grow (if ?b then _ else _) => destruct b
  | |- files_grow (match ?x with _ => _ end) => destruct x
  end.

Ltac grow := repeat grow_step.

Section DispatcherFiles.

Variable w : world.
Variable cfg : config.
Variable urlparse_netloc : string -> option string.

Lemma handle_image_batch_keeps (m : message) :
  keeps_sets (Image.handle_image_batch w m).
Proof. unfold Image.handle_image_batch. keep. Qed.

Lemma handle_docx_keeps (m : message) : keeps_sets (Docx.handle_docx w m).
Proof. unfold Docx.handle_docx. keep. Qed.

Lemma handle_youtube_keeps (m : message) :
  keeps_sets (Youtube.handle_youtube w m).
Proof. unfold Youtube.handle_youtube, Youtube.get_video_details. keep. Qed.

Lemma get_website_metadata_keeps (u : string) :
  keeps_sets (Referral.get_website_metadata w cfg urlparse_netloc u).
Proof.
  unfold Referral.get_website_metadata, Referral.fetch,
    Referral.extract_metadata_from_html.
  keep.
Qed.

Lemma handle_referral_keeps (m : message) (id : N) :
  keeps_sets (Referral.handle_referral w cfg urlparse_netloc m id).
Proof.
  unfold Referral.handle_referral. keep; apply get_website_metadata_keeps.
Qed.

Lemma handle_pdf_files_grow (m : message) : files_grow (Pdf.handle_pdf w cfg m).
Proof. unfold Pdf.handle_pdf. grow. Qed.

Lemma handle_mp4_files_grow (m : message) : files_grow (Mp4.handle_mp4 w m).
Proof.
  intros s. destruct (handle_mp4_run w m s) as (evs & _ & _ & F & _).
  exact F.
Qed.

Lemma process_video_keeps (m : message) (a : attachment) (use_thread : bool) :
  keeps_sets (Mp4.process_video w m a use_thread).
Proof.
  assert (U : forall file_name target segments i todo successful,
             keeps_sets (Mp4.upload_segments w file_name target segments i
                           todo successful)).
  { intros file_name target segments i todo. revert i.
    induction todo as [| todo IH]; intros i successful; simpl.
    - apply keeps_sets_ret.
    - unfold Mp4.edit. keep; apply IH. }
  assert (G : forall segments i todo,
             keeps_sets (Mp4.make_segments w segments i todo)).
  { intros segments i todo. revert i.
    induction todo as [| todo IH]; intros i; simpl.
    - apply keeps_sets_ret.
    - unfold Mp4.edit. keep; apply IH. }
  unfold Mp4.process_video, Mp4.convert, Mp4.resolve_and_upload, Mp4.upload,
    Mp4.on_error, Mp4.handle_large_video, Mp4.edit.
  keep; try apply create_thread_keeps_sets; try apply U; try apply G.
Qed.

End DispatcherFiles.

(** X14.  Nothing takes an id out of the set of processed files: the set
    only grows while the dispatcher handles a message, and the video
    workflow leaves it as it is, also when it fails. *)
Theorem processed_files_only_grow
    (w : world) (cfg : config) (urlparse_netloc : string -> option string)
    (m : message) (a : attachment) (use_thread : bool) (s : state) :
  processed_files s
    ⊆ processed_files (snd (Bot.on_message w cfg urlparse_netloc m s))
  /\ processed_files (snd (Mp4.process_video w m a use_thread s))
     = processed_files s.
Proof.
  split; [| apply process_video_keeps].
  revert s. change (files_grow (Bot.on_message w cfg urlparse_netloc m)).
  unfold Bot.on_message, Bot.dispatch_attachments, Bot.dispatch_links,
    Bot.process_commands, Bot.help_command.
  grow;
    first [ apply handle_pdf_files_grow
          | apply handle_mp4_files_grow
          | apply keeps_grow;
            first [ apply handle_image_batch_keeps
                  | apply handle_docx_keeps
                  | apply handle_youtube_keeps
                  | apply handle_referral_keeps ] ].
Qed.

(** ** The notification of a new thread *)

Section Notification.

Variable w : world.
Variable k : kind.
Variable parent : chan.

Lemma suppress_notification_one (name : string) :
  sat (ThreadCreator.suppress_notification w k parent name)
    (fun r evs =>
       r = Ret tt
       /\ (omap deleted_message evs = [] /\ length (omap history_read evs) <= 1
           \/ exists msgs hm,
                omap history_read evs = [msgs]
                /\ find (ThreadCreator.notification k name) (firstn 10 msgs)
                   = Some hm
                /\ omap deleted_message evs = [h_id hm])).
Proof.
  apply sat_intro. intros s r s' H.
  unfold ThreadCreator.suppress_notification in H. run_in H.
  - match type of H with context [find ?p ?l] =>
      destruct (find p l) as [hm |] eqn:F end.
    + run_in H; leaf H; (split; [reflexivity |]); right;
        eexists _, hm; (split; [reflexivity |]); split;
        [exact F | reflexivity | exact F | reflexivity].
    + run_in H. leaf H. split; [reflexivity |]. left. simpl.
      split; [reflexivity | lia].
  - leaf H. split; [reflexivity |]. left. simpl. split; [reflexivity | lia].
Qed.

Lemma attempts_one (name : string) (todo : list nat) (delay : Z) :
  sat (ThreadCreator.attempts w k parent name todo delay)
    (fun _ evs => one_notification k name evs).
Proof.
  revert delay. induction todo as [| attempt rest IH]; intros delay;
    cbn [ThreadCreator.attempts].
  - apply sat_ret. now left.
  - eapply sat_try_then with
      (T1 := fun (_ : res N) evs =>
               omap deleted_message evs = [] /\ omap history_read evs = []).
    + apply sat_await; intros; split; reflexivity.
    + intros id evs1 [D1 H1].
      eapply sat_bind with
        (T1 := fun (_ : res unit) evs =>
                 omap deleted_message evs = [] /\ omap history_read evs = []).
      * apply sat_sleep. split; reflexivity.
      * intros [] evs2 [D2 H2].
        eapply sat_bind; [apply suppress_notification_one | | |].
        -- intros [] evs3 [_ K]. apply sat_ret. rewrite app_nil_r.
           unfold one_notification. rewrite !omap_app, D1, D2, H1, H2.
           cbn [app].
           destruct K as [[K _] | K]; [now left | now right].
        -- intros e evs3 [K _]. discriminate.
        -- intros evs3 [K _]. discriminate.
      * intros e evs2 [D2 H2]. left. now rewrite omap_app, D1, D2.
      * intros evs2 [D2 H2]. left. now rewrite omap_app, D1, D2.
    + intros e evs1 [D1 H1].
      assert (Hnone : sat (@ret (option chan) None)
                        (fun _ evs2 => one_notification k name (evs1 ++ evs2))).
      { apply sat_ret. rewrite app_nil_r. now left. }
      destruct (isinstance e Forbidden); [| exact Hnone].
      destruct (attempt =? ThreadCreator.max_retries - 1)%nat; [exact Hnone |].
      eapply sat_bind with
        (T1 := fun (_ : res unit) evs =>
                 omap deleted_message evs = [] /\ omap history_read evs = []).
      * apply sat_sleep. split; reflexivity.
      * intros [] evs2 [D2 H2]. eapply sat_weaken; [apply IH |].
        intros r evs3 K. cbv beta. unfold one_notification in *.
        rewrite !omap_app, D1, D2, H1, H2. exact K.
      * intros e' evs2 [D2 H2]. left. now rewrite omap_app, D1, D2.
      * intros evs2 [D2 H2]. left. now rewrite omap_app, D1, D2.
    + intros evs1 [D1 H1]. now left.
Qed.

End Notification.

(** X15.  [create_thread_with_retry] deletes at most one message: the
    first notification among the ten messages of the one [history] it
    has read.  The view of a PDF takes for a notification only a message
    of a bot, later than the message with the attachment. *)
Theorem one_notification_deleted
    (w : world) (k : kind) (parent : chan) (name : string) (s : state) :
  exists evs,
    log (snd (ThreadCreator.create_thread_with_retry w k parent name s))
    = log s ++ evs
    /\ one_notification k name evs
    /\ (forall hm, ThreadCreator.notification pdf name hm = true ->
          h_author_bot hm = true /\ h_after hm = true).
Proof.
  destruct (attempts_one w k parent name (seq 0 ThreadCreator.max_retries) 2 s)
    as (evs & E & K).
  exists evs. split; [exact E |]. split; [exact K |].
  intros hm H. cbn in H. unfold ThreadCreator.is_notification_pdf in H.
  apply andb_prop in H as [H _]. now apply andb_prop in H.
Qed.

(** ** The strategies of the metadata fetch *)

Section Strategies.

Variable w : world.
Variable cfg : config.
Variable urlparse_netloc : string -> option string.

Lemma fetch_sat (st : strategy) (u : string) :
  sat (Referral.fetch w st u)
    (fun r evs =>
       exists ans,
         evs = [Called (Fetch st u) ans]
         /\ r = Ret (match ans with Returns h => Some h | Raises _ => None end)).
Proof.
  apply sat_intro. intros s r s' H. unfold Referral.fetch in H.
  run_in H; leaf H; eexists; split; reflexivity.
Qed.

Lemma extract_sat (html : option string) (dom u : string) :
  sat (Referral.extract_metadata_from_html w html dom u)
    (fun r evs =>
       (Referral.truthy html = false /\ evs = [] /\ r = Ret None)
       \/ (Referral.truthy html = true
           /\ exists ans,
                evs = [Called (Soup (Referral.or_else html EmptyString) u) ans]
                /\ r = Ret (match ans with
                            | Returns p =>
                                Some {| Referral.title := p_title p;
                                        Referral.description := p_description p;
                                        Referral.image := p_image p;
                                        Referral.favicon := p_favicon p;
                                        Referral.domain := dom;
                                        Referral.url := u;
                                        Referral.error := None |}
                            | Raises _ => None
                            end))).
Proof.
  apply sat_intro. intros s r s' H.
  unfold Referral.extract_metadata_from_html in H.
  destruct (Referral.truthy html) eqn:T.
  - run_in H; leaf H; right; (split; [reflexivity |]); eexists;
      split; reflexivity.
  - run_in H. leaf H. left. auto.
Qed.

(** The mobile round of lines 347-360, for what the standard round
    has given. *)
Lemma mobile_round (html : option string) (md : option Referral.metadata)
    (dom u : string) :
  sat (if Referral.incomplete html md then
         html <- Referral.fetch w Mobile u ;;
         mobile <- Referral.extract_metadata_from_html w html dom u ;;
         ret (html,
              match mobile with
              | Some mb =>
                  match md with
                  | None => Some mb
                  | Some d => Some (Referral.merge d mb)
                  end
              | None => md
              end)
       else ret (html, md))
    (fun r evs =>
       exists both,
         r = Ret both
         /\ ((Referral.incomplete html md = false
              /\ evs = [] /\ both = (html, md))
             \/ (Referral.incomplete html md = true
                 /\ omap fetch_tried evs = [Mobile]
                 /\ exists ans rest, evs = Called (Fetch Mobile u) ans :: rest))).
Proof.
  destruct (Referral.incomplete html md).
  - eapply sat_bind; [apply fetch_sat | | |].
    + intros html' evs1 (ans & -> & _).
      eapply sat_bind; [apply extract_sat | | |].
      * intros mobile evs2 K. apply sat_ret. rewrite app_nil_r.
        eexists. split; [reflexivity |]. right. split; [reflexivity |].
        split; [| eexists _, _; reflexivity].
        destruct K as [(_ & -> & _) | (_ & ans2 & -> & _)]; reflexivity.
      * intros e evs2 [(_ & _ & K) | (_ & ans2 & _ & K)]; discriminate.
      * intros evs2 [(_ & _ & K) | (_ & ans2 & _ & K)]; discriminate.
    + intros e evs1 (ans & _ & K). discriminate.
    + intros evs1 (ans & _ & K). discriminate.
  - apply sat_ret. eexists. split; [reflexivity |]. left. auto.
Qed.

(** The round of the headless browser, lines 363-370. *)
Lemma selenium_round (html : option string) (md : option Referral.metadata)
    (dom u : string) :
  sat (if Referral.incomplete html md && SELENIUM_AVAILABLE cfg then
         html <- Referral.fetch w Selenium u ;;
         sel <- Referral.extract_metadata_from_html w html dom u ;;
         ret (match sel with Some d => Some d | None => md end)
       else ret md)
    (fun r evs =>
       exists md', r = Ret md'
       /\ (evs = []
           \/ (Referral.incomplete html md = true
               /\ SELENIUM_AVAILABLE cfg = true
               /\ omap fetch_tried evs = [Selenium]))).
Proof.
  destruct (Referral.incomplete html md && SELENIUM_AVAILABLE cfg) eqn:C.
  - apply andb_prop in C as [C1 C2].
    eapply sat_bind; [apply fetch_sat | | |].
    + intros html' evs1 (ans & -> & _).
      eapply sat_bind; [apply extract_sat | | |].
      * intros sel evs2 K. apply sat_ret. rewrite app_nil_r.
        eexists. split; [reflexivity |]. right.
        split; [exact C1 |]. split; [exact C2 |].
        destruct K as [(_ & -> & _) | (_ & ans2 & -> & _)]; reflexivity.
      * intros e evs2 [(_ & _ & K) | (_ & ans2 & _ & K)]; discriminate.
      * intros evs2 [(_ & _ & K) | (_ & ans2 & _ & K)]; discriminate.
    + intros e evs1 (ans & _ & K). discriminate.
    + intros evs1 (ans & _ & K). discriminate.
  - apply sat_ret. eexists. split; [reflexivity |]. now left.
Qed.

Lemma get_website_metadata_strategies (u : string) :
  sat (Referral.get_website_metadata w cfg urlparse_netloc u)
    (fun _ evs =>
       (omap fetch_tried evs = [] /\ urlparse_netloc u = None
        \/ omap fetch_tried evs = [Standard]
        \/ omap fetch_tried evs = [Standard; Mobile]
        \/ omap fetch_tried evs = [Standard; Mobile; Selenium]
           /\ SELENIUM_AVAILABLE cfg = true)
       /\ (forall ev1 ev2 rest,
             evs = ev1 :: ev2 :: rest -> title_read ev2 = true -> rest = [])).
Proof.
  unfold Referral.get_website_metadata.
  destruct (urlparse_netloc u) as [dom |];
    [| apply sat_raise; split; [now left | discriminate]].
  eapply sat_bind; [apply fetch_sat | | |];
    [| intros e evs1 (ans & _ & K); discriminate
     | intros evs1 (ans & _ & K); discriminate].
  intros html evs1 (ans & -> & _).
  eapply sat_bind; [apply extract_sat | | |];
    [| intros e evs2 [(_ & _ & K) | (_ & ans2 & _ & K)]; discriminate
     | intros evs2 [(_ & _ & K) | (_ & ans2 & _ & K)]; discriminate].
  intros md evs2 K.
  eapply sat_bind; [apply mobile_round | | |];
    [| intros e evs3 (both & B & _); discriminate
     | intros evs3 (both & B & _); discriminate].
  intros both evs3 (both' & B & K3). injection B as <-.
  cbv zeta.
  eapply sat_bind; [apply selenium_round | | |];
    [| intros e evs4 (md' & B & _); discriminate
     | intros evs4 (md' & B & _); discriminate].
  intros md3 evs4 (md' & B & K4). injection B as <-.
  assert (Hfin : forall (T : res Referral.metadata -> list event -> Prop),
             (forall r, T r []) ->
             sat match md3 with
                 | Some d =>
                     if Referral.truthy (Referral.title d) then ret d
                     else ret (Referral.fallback dom u)
                 | None => ret (Referral.fallback dom u)
                 end T).
  { intros T HT. destruct md3 as [d |];
      [destruct (Referral.truthy (Referral.title d)) |]; apply sat_ret, HT. }
  apply Hfin. intros _. rewrite !app_nil_r.
  assert (T2 : omap fetch_tried evs2 = []).
  { destruct K as [(_ & -> & _) | (_ & ans2 & -> & _)]; reflexivity. }
  split.
  - rewrite !omap_app, T2. cbn [omap list_omap fetch_tried app].
    destruct K3 as [(I & -> & ->) | (I & -> & _)].
    + cbn [fst snd] in K4. rewrite I in K4.
      destruct K4 as [-> | (K4 & _)]; [| discriminate].
      right. now left.
    + destruct K4 as [-> | (_ & Sel & ->)].
      * right. right. now left.
      * right. right. right. auto.
  - intros ev1 ev2 rest E Ht.
    destruct K as [(F & -> & _) | (F & ans2 & -> & Emd)].
    + assert (I : Referral.incomplete html md = true)
        by (unfold Referral.incomplete; now rewrite F).
      destruct K3 as [(I' & _) | (_ & _ & ans3 & rest3 & ->)]; [congruence |].
      cbn [app] in E. injection E as _ <- _. discriminate Ht.
    + cbn [app] in E. injection E as _ <- <-.
      destruct ans2 as [p | e]; [| discriminate Ht].
      injection Emd as ->. cbn [title_read] in Ht.
      assert (I : Referral.incomplete html
                    (Some {| Referral.title := p_title p;
                             Referral.description := p_description p;
                             Referral.image := p_image p;
                             Referral.favicon := p_favicon p;
                             Referral.domain := dom;
                             Referral.url := u;
                             Referral.error := None |}) = false).
      { unfold Referral.incomplete. cbn [Referral.title]. now rewrite F, Ht. }
      destruct K3 as [(_ & -> & ->) | (I' & _)]; [| congruence].
      cbn [fst snd] in K4. rewrite I in K4.
      destruct K4 as [-> | (K4 & _)]; [reflexivity | discriminate].
Qed.

End Strategies.

(** X16.  [get_website_metadata] tries the strategies in the order
    standard, mobile, headless browser, each at most once, and the
    browser only when Selenium is installed.  It stops at the first page
    that gives a title: when a title is read in the page of the standard
    fetch, nothing else is fetched. *)
Theorem fetch_strategies_in_order
    (w : world) (cfg : config) (urlparse_netloc : string -> option string)
    (u : string) (s : state) :
  exists evs,
    log (snd (Referral.get_website_metadata w cfg urlparse_netloc u s))
    = log s ++ evs
    /\ (omap fetch_tried evs = [] /\ urlparse_netloc u = None
        \/ omap fetch_tried evs = [Standard]
        \/ omap fetch_tried evs = [Standard; Mobile]
        \/ omap fetch_tried evs = [Standard; Mobile; Selenium]
           /\ SELENIUM_AVAILABLE cfg = true)
    /\ (forall ev1 ev2 rest,
          evs = ev1 :: ev2 :: rest -> title_read ev2 = true -> rest = []).
Proof.
  destruct (get_website_metadata_strategies w cfg urlparse_netloc u s)
    as (evs & E & K1 & K2).
  exists evs. auto.
Qed.

(** ** The embed of a referral link *)

Section ReferralEmbed.

Variable w : world.
Variable cfg : config.
Variable urlparse_netloc : string -> option string.

Lemma get_website_metadata_before_embed (u : string) :
  obeys before_embed any (Referral.get_website_metadata w cfg urlparse_netloc u).
Proof.
  unfold Referral.get_website_metadata, Referral.fetch,
    Referral.extract_metadata_from_html.
  obey.
Qed.

Lemma before_embed_none (c : chan) (evs : list event) :
  forallb before_embed evs = true ->
  existsb (embed_sent c) evs = false /\ existsb Log.deletes_source evs = false.
Proof.
  induction evs as [| ev evs IH]; [auto |].
  cbn [forallb existsb]. intros H. apply andb_prop in H as [H1 H2].
  destruct (IH H2) as [-> ->].
  destruct ev as [A [] r | A []]; try discriminate H1; auto.
Qed.

Variable m : message.

Local Abbreviation embedded := (embedded_first (channel m)).

Lemma embedded_after (r : res bool) (pre evs : list event) :
  forallb before_embed pre = true -> embedded r evs -> embedded r (pre ++ evs).
Proof.
  intros H [K1 K2]. destruct (before_embed_none (channel m) pre H) as [N1 N2].
  unfold embedded_first. rewrite !existsb_app, N1, N2. auto.
Qed.

Lemma sat_after {A} (m0 : M A) (k : A -> M bool)
    (Q : res bool -> list event -> Prop) :
  obeys before_embed any m0 ->
  (forall a, sat (k a) Q) ->
  (forall r pre evs, forallb before_embed pre = true -> Q r evs -> Q r (pre ++ evs)) ->
  (forall e, Q (Raise e) []) -> Q Cancel [] ->
  sat (bind m0 k) Q.
Proof.
  intros Hm Hk Hpre He Hc.
  eapply sat_bind with (T1 := fun _ evs => forallb before_embed evs = true).
  - eapply sat_weaken; [apply obeys_sat, Hm |]. now intros r evs [K _].
  - intros a evs1 H1. eapply sat_weaken; [apply Hk |].
    intros r evs2 K. now apply Hpre.
  - intros e evs1 H1. rewrite <- (app_nil_r evs1). now apply Hpre.
  - intros evs1 H1. rewrite <- (app_nil_r evs1). now apply Hpre.
Qed.

Lemma handle_referral_run (id : N) :
  sat (Referral.handle_referral w cfg urlparse_netloc m id)
    (fun r evs =>
       embedded r evs
       /\ (chan_id (channel m) <> id \/ Referral.first_url (content m) = None ->
           r = Ret false /\ evs = [])).
Proof.
  unfold Referral.handle_referral.
  destruct (N.eqb (chan_id (channel m)) id) eqn:C; cbn [negb].
  2: { apply sat_ret. unfold embedded_first. repeat split; try discriminate. }
  apply N.eqb_eq in C.
  destruct (Referral.first_url (content m)) as [u |].
  2: { apply sat_ret. unfold embedded_first. repeat split; try discriminate. }
  assert (Hno : ~ (chan_id (channel m) <> id \/ Some u = None))
    by (intros [K | K]; [now destruct K | discriminate]).
  eapply sat_weaken with (T := embedded);
    [| intros r evs K; split; [exact K | intros K3; now destruct Hno]].
  assert (Hq : forall r : res bool, r <> Ret true -> embedded r []).
  { intros r Hr. split; [intros K; now destruct Hr | reflexivity]. }
  destruct (urlparse_netloc u) as [dom |];
    [| apply sat_raise, Hq; discriminate].
  apply sat_after;
    [obey | | apply embedded_after | intros; apply Hq; discriminate
     | apply Hq; discriminate].
  intros []. unfold try_except.
  eapply sat_try_then with
    (T1 := fun r evs => embedded r evs /\ r <> Ret false).
  - assert (Hpre : forall (r : res bool) pre evs,
               forallb before_embed pre = true ->
               embedded r evs /\ r <> Ret false ->
               embedded r (pre ++ evs) /\ r <> Ret false).
    { intros r pre evs H [K1 K2]. split; [now apply embedded_after | exact K2]. }
    assert (Hq' : forall r : res bool,
               r <> Ret true -> r <> Ret false ->
               embedded r [] /\ r <> Ret false) by (intros; split; auto).
    apply sat_after;
      [obey | | exact Hpre | intros; apply Hq'; discriminate
       | apply Hq'; discriminate].
    intros [].
    apply sat_after;
      [apply get_website_metadata_before_embed | | exact Hpre
       | intros; apply Hq'; discriminate | apply Hq'; discriminate].
    intros md. cbv zeta.
    apply sat_intro. intros s r s' H.
    destruct (Referral.error md) as [e |];
      [destruct (String.eqb e "403 Forbidden");
       [destruct (Py.contains "blofin.com" dom) |] |];
      run_in H; leaf H; unfold embedded_first;
      cbn [existsb embed_sent Log.deletes_source orb app];
      rewrite ?chan_neb_refl; cbn [negb orb];
      (split; [split |]); intros; try discriminate; try reflexivity;
      try congruence.
  - intros b evs1 [K Nf]. apply sat_ret. now rewrite app_nil_r.
  - intros e evs1 [[_ K] _].
    specialize (K ltac:(discriminate)).
    apply sat_intro. intros s r s' H. run_in H; leaf H;
      cbv beta; unfold embedded_first;
      rewrite !existsb_app, K; cbn [existsb Log.deletes_source orb];
      split; intros; try discriminate; try reflexivity.
  - intros evs1 [[_ K] _]. split; [discriminate |]. intros _.
    apply K. discriminate.
Qed.

End ReferralEmbed.

(** X17.  [handle_referral] looks at a message only in the referral
    channel and only when its text has a link: otherwise it returns
    [False] and makes no call.  It returns [True] only after the embed
    has reached the channel, and it deletes the message with the link
    only then. *)
Theorem referral_embed_before_delete
    (w : world) (cfg : config) (urlparse_netloc : string -> option string)
    (m : message) (id : N) (s : state) :
  exists evs,
    log (snd (Referral.handle_referral w cfg urlparse_netloc m id s))
    = log s ++ evs
    /\ (chan_id (channel m) <> id \/ Referral.first_url (content m) = None ->
        fst (Referral.handle_referral w cfg urlparse_netloc m id s) = Ret false
        /\ evs = [])
    /\ (fst (Referral.handle_referral w cfg urlparse_netloc m id s) = Ret true ->
        existsb (embed_sent (channel m)) evs = true)
    /\ (existsb Log.deletes_source evs = true ->
        fst (Referral.handle_referral w cfg urlparse_netloc m id s) = Ret true
        /\ existsb (embed_sent (channel m)) evs = true).
Proof.
  destruct (handle_referral_run w cfg urlparse_netloc m id s)
    as (evs & E & [K1 K2] & K3).
  exists evs. split; [exact E |]. split; [exact K3 |]. split; [exact K1 |].
  intros D.
  assert (R : fst (Referral.handle_referral w cfg urlparse_netloc m id s)
              = Ret true).
  { destruct (fst (Referral.handle_referral w cfg urlparse_netloc m id s))
      as [[] | e |]; try reflexivity;
      rewrite K2 in D by discriminate; discriminate. }
  split; [exact R | exact (K1 R)].
Qed.

(** ** Messages with nothing to handle *)

(** X18.  A message posted in a guild that does not invoke the help
    command, has no attachment, whose text has no video link, and that is
    not a link posted in the referral channel, is passed over:
    [on_message] makes no call and leaves the state as it is. *)
Theorem plain_message_ignored
    (w : world) (cfg : config) (urlparse_netloc : string -> option string)
    (m : message) (s : state) :
  command w m <> Some "help" ->
  bot_member m <> None ->
  attachments m = [] ->
  Youtube.first_video_id (content m) = None ->
  (forall id, REFERRAL_CHANNEL_ID cfg = Some id ->
     chan_id (channel m) <> id \/ Referral.first_url (content m) = None) ->
  Bot.on_message w cfg urlparse_netloc m s = (Ret tt, s).
Proof.
  intros Hc Hg Ha Hy Hr.
  assert (C : Bot.process_commands w m s = (Ret tt, s)).
  { unfold Bot.process_commands.
    destruct (command w m) as [name |]; [| reflexivity].
    destruct (String.eqb name "help") eqn:E; [| reflexivity].
    apply String.eqb_eq in E. now subst name. }
  unfold Bot.on_message. destruct (author_is_bot m) eqn:Hb; [reflexivity |].
  unfold bind at 1. rewrite C.
  unfold Bot.dispatch_attachments, Bot.dispatch_links,
    Mp4.handle_mp4, Youtube.handle_youtube, Referral.handle_referral.
  rewrite Ha, Hy, Hb. destruct (bot_member m) as [p |]; [| now destruct Hg].
  destruct (REFERRAL_CHANNEL_ID cfg) as [id |]; [| reflexivity].
  destruct (Hr id eq_refl) as [K | K].
  - apply N.eqb_neq in K. rewrite K. reflexivity.
  - rewrite K. destruct (chan_id (channel m) =? id)%N; reflexivity.
Qed.

Lemma plain_message_ignored_witness :
  Bot.on_message Worlds.calm default_config Samples.netloc
    (Samples.post "good morning" []) initial
  = (Ret tt, initial).
Proof.
  apply plain_message_ignored.
  - discriminate.
  - discriminate.
  - reflexivity.
  - reflexivity.
  - intros id H. discriminate H.
Defined.

(** ** The images of a batch *)

Lemma ascending_insert (a : attachment) (l : list attachment) :
  ascending (map filename l) = true ->
  ascending (map filename (ImageView.insert_by_name a l)) = true.
Proof.
  induction l as [| b l IH]; [reflexivity |].
  intros H. cbn [ImageView.insert_by_name].
  destruct (String.leb (filename a) (filename b)) eqn:L.
  - cbn [map ascending]. cbn [map] in H. now rewrite L.
  - assert (L' : String.leb (filename b) (filename a) = true).
    { destruct (String.leb_total (filename a) (filename b)); congruence. }
    cbn [map] in *.
    assert (Ht : ascending (map filename l) = true).
    { destruct l; [reflexivity |]. cbn [map ascending] in H.
      now apply andb_prop in H. }
    specialize (IH Ht).
    destruct l as [| c l]; cbn [ImageView.insert_by_name map ascending] in *.
    + now rewrite L'.
    + destruct (String.leb (filename a) (filename c)) eqn:L2;
        cbn [map ascending] in *.
      * rewrite L', L2. apply andb_prop in H as [_ H]. now rewrite H.
      * apply andb_prop in H as [H1 H2]. rewrite H1. exact IH.
Qed.

Lemma insert_permutation (a : attachment) (l : list attachment) :
  Permutation (ImageView.insert_by_name a l) (a :: l).
Proof.
  induction l as [| b l IH]; [reflexivity |].
  cbn [ImageView.insert_by_name].
  destruct (String.leb (filename a) (filename b)); [reflexivity |].
  rewrite IH. apply perm_swap.
Qed.

Lemma sorted_spec (l : list attachment) :
  ascending (map filename (ImageView.sorted l)) = true
  /\ Permutation (ImageView.sorted l) l.
Proof.
  induction l as [| a l [IH1 IH2]]; [split; reflexivity |].
  cbn [ImageView.sorted fold_right]. split.
  - now apply ascending_insert.
  - rewrite insert_permutation. now constructor.
Qed.

Lemma post_each_in_order (w : world) (target : chan) (l : list attachment) :
  sat (ImageView.post_each w target l)
    (files_in_order target (map filename l)).
Proof.
  induction l as [| a l IH]; cbn [ImageView.post_each map].
  - apply sat_ret. exists 0. repeat split; auto.
  - assert (Hstop : forall (r : res unit) evs,
               ~ returned r ->
               omap (Log.delivered_to target) evs = [] ->
               files_in_order target (filename a :: map filename l) r evs).
    { intros r evs Hr E. exists 0. split; [lia |]. split; [exact E |].
      intros K. now destruct Hr. }
    assert (Hraise : forall e : exn, ~ returned (@Raise unit e))
      by (intros e [u Hu]; discriminate).
    assert (Hcancel : ~ returned (@Cancel unit)) by (intros [u Hu]; discriminate).
    eapply sat_bind with
      (T1 := fun (_ : res unit) evs => omap (Log.delivered_to target) evs = []).
    + apply sat_await; intros; reflexivity.
    + intros [] evs1 E1.
      eapply sat_bind with
        (T1 := fun r evs =>
                 (r = Ret tt
                  /\ omap (Log.delivered_to target) evs = [filename a])
                 \/ (~ returned r
                     /\ omap (Log.delivered_to target) evs = [])).
      * apply sat_await.
        -- intros []. left. simpl. now rewrite chan_neb_refl.
        -- intros e. right. split; [apply Hraise | reflexivity].
      * intros [] evs2 [[_ E2] | [K _]]; [| destruct K; now exists tt].
        eapply sat_bind with
          (T1 := fun (r : res unit) evs =>
                   r = Ret tt /\ omap (Log.delivered_to target) evs = []).
        -- apply sat_sleep. split; reflexivity.
        -- intros [] evs3 [_ E3]. eapply sat_weaken; [apply IH |].
           intros r evs4 (n & Hn & E4 & R). exists (S n).
           split; [cbn [length]; lia |]. split.
           ++ rewrite !omap_app, E1, E2, E3, E4. reflexivity.
           ++ intros Hr. cbn [length]. f_equal. auto.
        -- intros e evs3 [K _]. discriminate.
        -- intros evs3 [K _]. discriminate.
      * intros e evs2 [[K _] | [_ E2]]; [discriminate |].
        apply Hstop; [apply Hraise | now rewrite omap_app, E1, E2].
      * intros evs2 [[K _] | [_ E2]]; [discriminate |].
        apply Hstop; [apply Hcancel | now rewrite omap_app, E1, E2].
    + intros e evs1 E1. now apply Hstop.
    + intros evs1 E1. now apply Hstop.
Qed.

(** X19.  [post_images] of an image batch sends the files in the order of
    their names, each of them once: the names of the files that reach
    the target are the first names of the sorted batch, all of them when
    the coroutine returns; the sorted batch is in ascending order of
    names and holds the attachments of the batch, no more and no less. *)
Theorem images_posted_by_name
    (w : world) (images : list attachment) (target : chan) (s : state) :
  exists evs,
    log (snd (ImageView.post_images w images target s)) = log s ++ evs
    /\ files_in_order target (map filename (ImageView.sorted images))
         (fst (ImageView.post_images w images target s)) evs
    /\ ascending (map filename (ImageView.sorted images)) = true
    /\ Permutation (ImageView.sorted images) images.
Proof.
  destruct (sorted_spec images) as [A P].
  assert (K : sat (ImageView.post_images w images target)
                (files_in_order target (map filename (ImageView.sorted images)))).
  { unfold ImageView.post_images, try_except.
    eapply sat_try_then; [apply post_each_in_order | | |].
    - intros u evs1 H. apply sat_ret. now rewrite app_nil_r.
    - intros e evs1 (n & Hn & E & _). apply sat_raise. rewrite app_nil_r.
      exists n. split; [exact Hn |]. split; [exact E |].
      intros [u Hu]. discriminate.
    - intros evs1 H. exact H. }
  destruct (K s) as (evs & E & H). exists evs. auto.
Qed.

(** ** The thread of a workflow that failed *)

Section Cleanup.

Variable w : world.

Lemma uneventful_none (heading : string) (evs : list event) :
  forallb (uneventful heading) evs = true ->
  (forall id, existsb (thread_created id) evs = false)
  /\ existsb (error_shown heading) evs = false.
Proof.
  induction evs as [| ev evs IH]; [auto |].
  cbn [forallb existsb]. intros H. apply andb_prop in H as [H1 H2].
  destruct (IH H2) as [K1 K2]. split.
  - intros id. rewrite K1, orb_false_r.
    destruct ev as [A [] r | A []]; try reflexivity; discriminate H1.
  - rewrite K2, orb_false_r.
    destruct ev as [A [] r | A []]; try reflexivity;
      try discriminate H1; cbn [uneventful] in H1;
      now apply negb_true_iff in H1.
Qed.

Lemma quiet_no_error (heading : string) (evs : list event) :
  forallb Log.quiet evs = true -> existsb (error_shown heading) evs = false.
Proof.
  induction evs as [| ev evs IH]; [auto |].
  cbn [forallb existsb]. intros H. apply andb_prop in H as [H1 H2].
  rewrite (IH H2), orb_false_r.
  destruct ev as [A [] r | A []]; try reflexivity; discriminate H1.
Qed.

(** A thread that was created is the one the method returns. *)
Lemma attempts_created (k : kind) (parent : chan) (name : string)
    (todo : list nat) (delay : Z) :
  sat (ThreadCreator.attempts w k parent name todo delay)
    (fun r evs =>
       forall id, existsb (thread_created id) evs = true ->
                  r = Ret (Some (Thread id))).
Proof.
  revert delay. induction todo as [| attempt rest IH]; intros delay;
    cbn [ThreadCreator.attempts].
  - apply sat_ret. discriminate.
  - eapply sat_try_then with
      (T1 := fun (r : res N) evs =>
               forall id, existsb (thread_created id) evs = true ->
                          r = Ret id).
    + apply sat_await.
      * intros id0 id H. cbn in H. rewrite orb_false_r in H.
        apply N.eqb_eq in H. now subst.
      * intros e id H. discriminate.
    + intros id0 evs1 H1.
      eapply sat_bind with
        (T1 := fun (r : res unit) evs =>
                 r = Ret tt /\ forall id, existsb (thread_created id) evs = false).
      * apply sat_sleep. split; [reflexivity |]. reflexivity.
      * intros [] evs2 [_ H2].
        eapply sat_bind with
          (T1 := fun (r : res unit) evs =>
                   r = Ret tt
                   /\ forall id, existsb (thread_created id) evs = false).
        -- apply sat_and.
           ++ eapply sat_weaken; [apply suppress_notification_one |].
              now intros r evs [K _].
           ++ eapply sat_weaken;
                [apply (obeys_sat (fun ev => negb (Log.is_upload ev)
                                            && match ev with
                                               | Called (CreateThread _ _) _ => false
                                               | _ => true
                                               end) any) |].
              { unfold ThreadCreator.suppress_notification. obey. }
              intros r evs [K _] id. cbv beta.
              induction evs as [| ev evs IHe]; [reflexivity |].
              cbn [forallb existsb] in *. apply andb_prop in K as [K1 K2].
              rewrite (IHe K2), orb_false_r.
              destruct ev as [A [] r0 | A []]; try reflexivity;
                discriminate K1.
        -- intros [] evs3 [_ H3]. apply sat_ret. rewrite app_nil_r.
           intros id H. rewrite !existsb_app, H2, H3, !orb_false_r in H.
           now injection (H1 id H) as ->.
        -- intros e evs3 [K _]. discriminate.
        -- intros evs3 [K _]. discriminate.
      * intros e evs2 [K _]. discriminate.
      * intros evs2 [K _]. discriminate.
    + intros e evs1 H1.
      assert (Hnone : sat (@ret (option chan) None)
                        (fun r evs2 =>
                           forall id,
                             existsb (thread_created id) (evs1 ++ evs2) = true ->
                             r = Ret (Some (Thread id)))).
      { apply sat_ret. rewrite app_nil_r. intros id H.
        specialize (H1 id H). discriminate. }
      destruct (isinstance e Forbidden); [| exact Hnone].
      destruct (attempt =? ThreadCreator.max_retries - 1)%nat; [exact Hnone |].
      eapply sat_bind with
        (T1 := fun (r : res unit) evs =>
                 r = Ret tt /\ forall id, existsb (thread_created id) evs = false).
      * apply sat_sleep. split; reflexivity.
      * intros [] evs2 [_ H2]. eapply sat_weaken; [apply IH |].
        intros r evs3 K id H. cbv beta in *.
        rewrite !existsb_app, H2 in H. cbn [orb] in H.
        apply orb_prop in H as [H | H]; [specialize (H1 id H); discriminate |].
        now apply K.
      * intros e' evs2 [K _]. discriminate.
      * intros evs2 [K _]. discriminate.
    + intros evs1 H1 id H. specialize (H1 id H). discriminate.
Qed.

Lemma attempts_returns (k : kind) (parent : chan) (name : string)
    (todo : list nat) (delay : Z) :
  sat (ThreadCreator.attempts w k parent name todo delay)
    (fun r _ => exists o, r = Ret o).
Proof.
  revert delay. induction todo as [| attempt rest IH]; intros delay;
    cbn [ThreadCreator.attempts].
  - apply sat_ret. now eexists.
  - eapply sat_try_then with (T1 := fun (r : res N) _ => r <> Cancel).
    + apply sat_await; intros; discriminate.
    + intros id evs1 _.
      eapply sat_bind with (T1 := fun (r : res unit) _ => r = Ret tt).
      * now apply sat_sleep.
      * intros [] evs2 _.
        eapply sat_bind with (T1 := fun (r : res unit) _ => r = Ret tt).
        -- eapply sat_weaken; [apply suppress_notification_one |].
           now intros r evs [K _].
        -- intros [] evs3 _. apply sat_ret. now eexists.
        -- intros e evs3 K. discriminate.
        -- intros evs3 K. discriminate.
      * intros e evs2 K. discriminate.
      * intros evs2 K. discriminate.
    + intros e evs1 _.
      destruct (isinstance e Forbidden); [| apply sat_ret; now eexists].
      destruct (attempt =? ThreadCreator.max_retries - 1)%nat;
        [apply sat_ret; now eexists |].
      eapply sat_bind with (T1 := fun (r : res unit) _ => r = Ret tt).
      * now apply sat_sleep.
      * intros [] evs2 _. eapply sat_weaken; [apply IH |]. auto.
      * intros e' evs2 K. discriminate.
      * intros evs2 K. discriminate.
    + intros evs1 K. now destruct K.
Qed.

Lemma create_thread_created (k : kind) (parent : chan) (name : string) :
  sat (ThreadCreator.create_thread_with_retry w k parent name)
    (fun r evs =>
       forallb Log.quiet evs = true
       /\ (forall hd, existsb (error_shown hd) evs = false)
       /\ (forall id, existsb (thread_created id) evs = true ->
                      r = Ret (Some (Thread id)))
       /\ exists o, r = Ret o).
Proof.
  apply sat_and.
  - eapply sat_weaken; [apply obeys_sat, create_thread_quiet |].
    now intros r evs [K _].
  - apply sat_and.
    + eapply sat_weaken; [apply obeys_sat, create_thread_quiet |].
      intros r evs [K _] hd. now apply quiet_no_error.
    + apply sat_and; [apply attempts_created | apply attempts_returns].
Qed.

End Cleanup.

Lemma no_thread_cleaned_up (heading : string) (evs : list event) :
  (forall id, existsb (thread_created id) evs = false) ->
  cleaned_up heading evs.
Proof. intros H id K. rewrite H in K. discriminate. Qed.

Section ImageCleanup.

Variable w : world.
Variable m : message.
Variable images : list attachment.

Local Abbreviation heading := "❌ Error processing images: ".

Lemma image_post_each_uneventful (target : chan) (l : list attachment) :
  obeys (uneventful heading) any (ImageView.post_each w target l).
Proof.
  induction l as [| a l IH]; cbn [ImageView.post_each]; [obey |].
  obey. exact IH.
Qed.

Lemma image_deliver_uneventful (target : chan) (fm : option text) :
  fm = None \/ fm = Some [Mention target]
  \/ fm = Some ImageView.fallback_warning ->
  obeys (uneventful heading) any (ImageView.deliver w images target fm).
Proof.
  unfold ImageView.deliver, ImageView.post_images.
  intros [-> | [-> | ->]]; obey; apply image_post_each_uneventful.
Qed.

Lemma image_on_error_cleans (target : option chan) (e : exn) :
  sat (ImageView.on_error w true target e)
    (fun _ evs =>
       (forall id, existsb (thread_created id) evs = false)
       /\ (forall id, target = Some (Thread id) ->
             existsb (error_shown heading) evs = true ->
             existsb (Log.deletes_thread (Thread id)) evs = true)).
Proof.
  apply sat_intro. intros s r s' H. unfold ImageView.on_error in H.
  destruct (isinstance e Forbidden).
  - run_in H; leaf H; (split; [reflexivity |]); intros id _ K; discriminate K.
  - destruct target as [[c | t] |]; cbn [andb is_thread] in H;
      run_in H; leaf H; (split; [reflexivity |]); intros id Ht K;
      try discriminate Ht; try discriminate K.
    + injection Ht as ->. cbn. now rewrite chan_neb_refl.
    + injection Ht as ->. cbn. now rewrite chan_neb_refl.
Qed.

Lemma image_resolve_created :
  sat (ImageView.resolve_target w m images true)
    (fun r evs =>
       existsb (error_shown heading) evs = false
       /\ (forall id, existsb (thread_created id) evs = true ->
             r = Ret (Thread id, Some [Mention (Thread id)]))
       /\ (forall target fm, r = Ret (target, fm) ->
             fm = None \/ fm = Some [Mention target]
             \/ fm = Some ImageView.fallback_warning)).
Proof.
  unfold ImageView.resolve_target.
  destruct (ImageView.batch_thread_name (map filename images)) as [name |].
  2: { apply sat_raise. repeat split; try discriminate. }
  unfold try_except.
  eapply sat_try_then with
    (T1 := fun r evs =>
             existsb (error_shown heading) evs = false
             /\ (forall id, existsb (thread_created id) evs = true ->
                   r = Ret (Thread id, Some [Mention (Thread id)]))
             /\ (forall target fm, r = Ret (target, fm) ->
                   fm = None \/ fm = Some [Mention target]
                   \/ fm = Some ImageView.fallback_warning)
             /\ exists x, r = Ret x).
  - eapply sat_bind; [apply create_thread_created | | |].
    + intros t evs1 (Q & E & C & _).
      assert (K : forall (r : res (chan * option text)),
                 (forall id, t = Some (Thread id) ->
                    r = Ret (Thread id, Some [Mention (Thread id)])) ->
                 (forall target fm, r = Ret (target, fm) ->
                    fm = None \/ fm = Some [Mention target]
                    \/ fm = Some ImageView.fallback_warning) ->
                 (exists x, r = Ret x) ->
                 existsb (error_shown heading) (evs1 ++ []) = false
                 /\ (forall id, existsb (thread_created id) (evs1 ++ []) = true ->
                       r = Ret (Thread id, Some [Mention (Thread id)]))
                 /\ (forall target fm, r = Ret (target, fm) ->
                       fm = None \/ fm = Some [Mention target]
                       \/ fm = Some ImageView.fallback_warning)
                 /\ exists x, r = Ret x).
      { intros r K1 K2 K3. rewrite app_nil_r. split; [apply E |].
        split; [| split; [exact K2 | exact K3]].
        intros id H. apply K1. specialize (C id H). now injection C. }
      destruct t as [t |]; apply sat_ret; apply K.
      * intros id Ht. now injection Ht as ->.
      * intros target fm Hr. injection Hr as <- <-. auto.
      * now eexists.
      * discriminate.
      * intros target fm Hr. injection Hr as <- <-. auto.
      * now eexists.
    + intros e evs1 (_ & _ & _ & o & K). discriminate.
    + intros evs1 (_ & _ & _ & o & K). discriminate.
  - intros a evs1 (K1 & K2 & K3 & _). apply sat_ret. rewrite app_nil_r. auto.
  - intros e evs1 (_ & _ & _ & o & K). discriminate.
  - intros evs1 (_ & _ & _ & o & K). discriminate.
Qed.

End ImageCleanup.

Lemma cleaned_up_after (heading : string) (pre evs : list event) :
  forallb (uneventful heading) pre = true ->
  cleaned_up heading evs -> cleaned_up heading (pre ++ evs).
Proof.
  intros H K id. destruct (uneventful_none heading pre H) as [N1 N2].
  rewrite !existsb_app, N1, N2. cbn [orb]. intros H1 H2.
  rewrite (K id H1 H2). apply orb_true_r.
Qed.

Lemma no_error_cleaned_up (heading : string) (evs : list event) :
  existsb (error_shown heading) evs = false -> cleaned_up heading evs.
Proof. intros H id _ K. rewrite H in K. discriminate. Qed.

(** The last two stages of a workflow, for what the creation of the
    thread has left. *)
Lemma cleaned_up_stages (heading : string) (target : chan)
    (evs2 evs3 evs4 : list event) :
  existsb (error_shown heading) evs2 = false ->
  (forall id, existsb (thread_created id) evs2 = true -> target = Thread id) ->
  forallb (uneventful heading) evs3 = true ->
  (forall id, existsb (thread_created id) evs4 = false) ->
  (forall id, Some target = Some (Thread id) ->
     existsb (error_shown heading) evs4 = true ->
     existsb (Log.deletes_thread (Thread id)) evs4 = true) ->
  cleaned_up heading (evs2 ++ evs3 ++ evs4).
Proof.
  intros E2 C2 U3 C4 D4 id.
  destruct (uneventful_none heading evs3 U3) as [N1 N2].
  rewrite !existsb_app, E2, N1, N2, C4, !orb_false_r. cbn [orb].
  intros H1 H2. rewrite (D4 id); [now rewrite !orb_true_r | | exact H2].
  now rewrite (C2 id H1).
Qed.

(** X20.  The image workflow that was asked for a thread: when it has
    shown the error "Error processing images" after it had created the
    thread, it has asked for the deletion of that thread. *)
Theorem image_thread_cleaned_up
    (w : world) (m : message) (images : list attachment) (s : state) :
  exists evs,
    log (snd (ImageView.process_images w m images true s)) = log s ++ evs
    /\ cleaned_up "❌ Error processing images: " evs.
Proof.
  revert s.
  change (sat (ImageView.process_images w m images true)
            (fun _ evs => cleaned_up "❌ Error processing images: " evs)).
  unfold ImageView.process_images. cbv zeta.
  eapply sat_try_then with
    (T1 := fun _ evs =>
             forallb (uneventful "❌ Error processing images: ") evs = true).
  - apply sat_await; intros; reflexivity.
  - intros [] evs1 U1.
    eapply sat_weaken with
      (T := fun _ evs => cleaned_up "❌ Error processing images: " evs);
      [| intros r evs K; now apply cleaned_up_after].
    eapply sat_try_then; [apply image_resolve_created | | |].
    + intros [target fm] evs2 (E2 & C2 & F2). unfold try_except.
      eapply sat_try_then with
        (T1 := fun _ evs =>
                 forallb (uneventful "❌ Error processing images: ") evs = true).
      * eapply sat_weaken;
          [apply obeys_sat, image_deliver_uneventful; now apply F2 |].
        now intros r evs [K _].
      * intros [] evs3 U3. apply sat_ret. rewrite app_nil_r.
        apply no_error_cleaned_up.
        destruct (uneventful_none _ evs3 U3) as [_ N].
        now rewrite existsb_app, E2, N.
      * intros e evs3 U3.
        eapply sat_weaken; [apply image_on_error_cleans |].
        intros r evs4 [C4 D4]. cbv beta.
        apply (cleaned_up_stages _ target); auto.
        intros id H. specialize (C2 id H). now injection C2.
      * intros evs3 U3. apply no_error_cleaned_up.
        destruct (uneventful_none _ evs3 U3) as [_ N].
        now rewrite existsb_app, E2, N.
    + intros e evs2 (E2 & C2 & _).
      eapply sat_weaken; [apply image_on_error_cleans |].
      intros r evs4 [C4 _]. cbv beta. apply no_thread_cleaned_up.
      intros id. rewrite existsb_app, C4, orb_false_r.
      destruct (existsb (thread_created id) evs2) eqn:K; [| reflexivity].
      specialize (C2 id K). discriminate.
    + intros evs2 (E2 & C2 & _). apply no_thread_cleaned_up.
      intros id. destruct (existsb (thread_created id) evs2) eqn:K; [| reflexivity].
      specialize (C2 id K). discriminate.
  - intros e evs1 U1.
    eapply sat_weaken; [apply image_on_error_cleans |].
    intros r evs4 [C4 _]. cbv beta. apply no_thread_cleaned_up.
    intros id. destruct (uneventful_none _ evs1 U1) as [N _].
    now rewrite existsb_app, N, C4.
  - intros evs1 U1. apply no_thread_cleaned_up.
    now destruct (uneventful_none _ evs1 U1) as [N _].
Qed.

Section DocxCleanup.

Variable w : world.
Variable m : message.
Variable a : attachment.

Local Abbreviation heading := "❌ Error processing DOCX: ".

Lemma docx_post_rest_uneventful (target : chan) (n i : nat) :
  obeys (uneventful heading) any (Docx.post_rest w target i n).
Proof.
  revert i. induction n as [| n IH]; intros i; cbn [Docx.post_rest]; [obey |].
  obey. apply IH.
Qed.

Lemma docx_deliver_uneventful (k : nat) (target : chan) (fm : option text) :
  fm = None \/ fm = Some [Mention target]
  \/ fm = Some Docx.fallback_warning ->
  obeys (uneventful heading) any (Docx.deliver w true k target fm).
Proof.
  unfold Docx.deliver, Docx.post_images.
  intros [-> | [-> | ->]]; obey; apply docx_post_rest_uneventful.
Qed.

Lemma docx_on_error_cleans (target : option chan) (e : exn) :
  sat (Docx.on_error w true target e)
    (fun _ evs =>
       (forall id, existsb (thread_created id) evs = false)
       /\ (forall id, target = Some (Thread id) ->
             existsb (error_shown heading) evs = true ->
             existsb (Log.deletes_thread (Thread id)) evs = true)).
Proof.
  apply sat_intro. intros s r s' H. unfold Docx.on_error in H.
  destruct (isinstance e Forbidden).
  - run_in H; leaf H; (split; [reflexivity |]); intros id _ K; discriminate K.
  - destruct target as [[c | t] |]; cbn [andb is_thread] in H;
      run_in H; leaf H; (split; [reflexivity |]); intros id Ht K;
      try discriminate Ht; try discriminate K.
    + injection Ht as ->. cbn. now rewrite chan_neb_refl.
    + injection Ht as ->. cbn. now rewrite chan_neb_refl.
Qed.

Lemma docx_resolve_created :
  sat (Docx.resolve_target w m a true)
    (fun r evs =>
       existsb (error_shown heading) evs = false
       /\ (forall id, existsb (thread_created id) evs = true ->
             r = Ret (Thread id, Some [Mention (Thread id)]))
       /\ (forall target fm, r = Ret (target, fm) ->
             fm = None \/ fm = Some [Mention target]
             \/ fm = Some Docx.fallback_warning)).
Proof.
  unfold Docx.resolve_target, try_except.
  eapply sat_try_then with
    (T1 := fun r evs =>
             existsb (error_shown heading) evs = false
             /\ (forall id, existsb (thread_created id) evs = true ->
                   r = Ret (Thread id, Some [Mention (Thread id)]))
             /\ (forall target fm, r = Ret (target, fm) ->
                   fm = None \/ fm = Some [Mention target]
                   \/ fm = Some Docx.fallback_warning)
             /\ exists x, r = Ret x).
  - eapply sat_bind; [apply create_thread_created | | |].
    + intros t evs1 (Q & E & C & _).
      assert (K : forall (r : res (chan * option text)),
                 (forall id, t = Some (Thread id) ->
                    r = Ret (Thread id, Some [Mention (Thread id)])) ->
                 (forall target fm, r = Ret (target, fm) ->
                    fm = None \/ fm = Some [Mention target]
                    \/ fm = Some Docx.fallback_warning) ->
                 (exists x, r = Ret x) ->
                 existsb (error_shown heading) (evs1 ++ []) = false
                 /\ (forall id, existsb (thread_created id) (evs1 ++ []) = true ->
                       r = Ret (Thread id, Some [Mention (Thread id)]))
                 /\ (forall target fm, r = Ret (target, fm) ->
                       fm = None \/ fm = Some [Mention target]
                       \/ fm = Some Docx.fallback_warning)
                 /\ exists x, r = Ret x).
      { intros r K1 K2 K3. rewrite app_nil_r. split; [apply E |].
        split; [| split; [exact K2 | exact K3]].
        intros id H. apply K1. specialize (C id H). now injection C. }
      destruct t as [t |]; apply sat_ret; apply K.
      * intros id Ht. now injection Ht as ->.
      * intros target fm Hr. injection Hr as <- <-. auto.
      * now eexists.
      * discriminate.
      * intros target fm Hr. injection Hr as <- <-. auto.
      * now eexists.
    + intros e evs1 (_ & _ & _ & o & K). discriminate.
    + intros evs1 (_ & _ & _ & o & K). discriminate.
  - intros x evs1 (K1 & K2 & K3 & _). apply sat_ret. rewrite app_nil_r. auto.
  - intros e evs1 (_ & _ & _ & o & K). discriminate.
  - intros evs1 (_ & _ & _ & o & K). discriminate.
Qed.

End DocxCleanup.

(** X21.  The DOCX workflow that was asked for a thread: when it has
    shown the error "Error processing DOCX" after it had created the
    thread, it has asked for the deletion of that thread. *)
Theorem docx_thread_cleaned_up
    (w : world) (m : message) (a : attachment) (s : state) :
  exists evs,
    log (snd (Docx.process_docx w m a true s)) = log s ++ evs
    /\ cleaned_up "❌ Error processing DOCX: " evs.
Proof.
  revert s.
  change (sat (Docx.process_docx w m a true)
            (fun _ evs => cleaned_up "❌ Error processing DOCX: " evs)).
  unfold Docx.process_docx.
  eapply sat_try_then with
    (T1 := fun _ evs =>
             forallb (uneventful "❌ Error processing DOCX: ") evs = true).
  - eapply sat_weaken;
      [apply (obeys_sat (uneventful "❌ Error processing DOCX: ") any) |].
    + unfold Docx.convert. obey.
    + now intros r evs [K _].
  - intros k evs1 U1.
    eapply sat_weaken with
      (T := fun _ evs => cleaned_up "❌ Error processing DOCX: " evs);
      [| intros r evs K; now apply cleaned_up_after].
    eapply sat_try_then; [apply docx_resolve_created | | |].
    + intros [target fm] evs2 (E2 & C2 & F2). unfold try_except.
      eapply sat_try_then with
        (T1 := fun _ evs =>
                 forallb (uneventful "❌ Error processing DOCX: ") evs = true).
      * eapply sat_weaken;
          [apply obeys_sat, docx_deliver_uneventful; now apply F2 |].
        now intros r evs [K _].
      * intros [] evs3 U3. apply sat_ret. rewrite app_nil_r.
        apply no_error_cleaned_up.
        destruct (uneventful_none _ evs3 U3) as [_ N].
        now rewrite existsb_app, E2, N.
      * intros e evs3 U3.
        eapply sat_weaken; [apply docx_on_error_cleans |].
        intros r evs4 [C4 D4]. cbv beta.
        apply (cleaned_up_stages _ target); auto.
        intros id H. specialize (C2 id H). now injection C2.
      * intros evs3 U3. apply no_error_cleaned_up.
        destruct (uneventful_none _ evs3 U3) as [_ N].
        now rewrite existsb_app, E2, N.
    + intros e evs2 (E2 & C2 & _).
      eapply sat_weaken; [apply docx_on_error_cleans |].
      intros r evs4 [C4 _]. cbv beta. apply no_thread_cleaned_up.
      intros id. rewrite existsb_app, C4, orb_false_r.
      destruct (existsb (thread_created id) evs2) eqn:K; [| reflexivity].
      specialize (C2 id K). discriminate.
    + intros evs2 (E2 & C2 & _). apply no_thread_cleaned_up.
      intros id. destruct (existsb (thread_created id) evs2) eqn:K; [| reflexivity].
      specialize (C2 id K). discriminate.
  - intros e evs1 U1.
    eapply sat_weaken; [apply docx_on_error_cleans |].
    intros r evs4 [C4 _]. cbv beta. apply no_thread_cleaned_up.
    intros id. destruct (uneventful_none _ evs1 U1) as [N _].
    now rewrite existsb_app, N, C4.
  - intros evs1 U1. apply no_thread_cleaned_up.
    now destruct (uneventful_none _ evs1 U1) as [N _].
Qed.

(** ** Falling back to the channel: DOCX and images *)

Section MoreFallback.

Variable w : world.
Hypothesis no_thread : creation_fails w.
Variable m : message.

Lemma docx_deliver_fallback (k : nat) :
  obeys (Log.fallback_ok (channel m)) any
    (Docx.deliver w true k (channel m) (Some Docx.fallback_warning)).
Proof.
  assert (R : forall n i,
             obeys (Log.fallback_ok (channel m)) any
               (Docx.post_rest w (channel m) i n)).
  { intros n. induction n as [| n IH]; intros i; cbn [Docx.post_rest]; [obey |].
    obey. apply IH. }
  unfold Docx.deliver, Docx.post_images. obey; apply R.
Qed.

Lemma docx_on_error_fallback (target : option chan) (e : exn) :
  obeys (Log.fallback_ok (channel m)) any (Docx.on_error w true target e).
Proof. unfold Docx.on_error. obey. Qed.

Lemma docx_on_error_keeps_source (target : option chan) (e : exn) :
  obeys Log.keeps_source any (Docx.on_error w true target e).
Proof. unfold Docx.on_error. obey. Qed.

Lemma docx_resolve_fallback (a : attachment) (P : event -> bool) :
  (forall ev, Log.quiet ev = true -> P ev = true) ->
  obeys P (fun r => r = (channel m, Some Docx.fallback_warning))
    (Docx.resolve_target w m a true).
Proof.
  intros HP. unfold Docx.resolve_target.
  eapply obeys_try_except; [| intros e; now apply obeys_ret].
  eapply obeys_bind.
  - eapply obeys_mono; [exact HP | now apply create_thread_fails].
  - intros o ->. now apply obeys_ret.
Qed.

Lemma docx_fallback_obeys (a : attachment) :
  obeys (Log.fallback_ok (channel m)) any (Docx.process_docx w m a true).
Proof.
  unfold Docx.process_docx.
  eapply (obeys_try_then _ any).
  - unfold Docx.convert. obey.
  - intros e. apply docx_on_error_fallback.
  - intros k _. eapply obeys_try_then.
    + apply docx_resolve_fallback, quiet_fallback_ok.
    + intros e. apply docx_on_error_fallback.
    + intros [target fm] E. injection E as -> ->.
      apply obeys_try_except; [apply docx_deliver_fallback |].
      intros e. apply docx_on_error_fallback.
Qed.

(** A delivery that ends with the edit of the status to [t] and the
    deletion of the source message. *)
Lemma edit_then_delete_final (t : text) :
  sat (await w (EditStatus (Some t) KeepView) ;;
       try_except (await w DeleteSource) (fun _ => ret tt))
    (fun r evs =>
       match r with
       | Ret _ => Log.final_status evs = Some (Some t)
       | _ => forallb Log.keeps_source evs = true
       end).
Proof.
  apply sat_intro. intros s r s' H. run_in H; leaf H; reflexivity.
Qed.

Lemma docx_deliver_final (k : nat) :
  sat (Docx.deliver w true k (channel m) (Some Docx.fallback_warning))
    (fun r evs =>
       match r with
       | Ret _ => Log.final_status evs = Some (Some Docx.fallback_warning)
       | _ => forallb Log.keeps_source evs = true
       end).
Proof.
  assert (R : forall n i,
             obeys Log.keeps_source any (Docx.post_rest w (channel m) i n)).
  { intros n. induction n as [| n IH]; intros i; cbn [Docx.post_rest]; [obey |].
    obey. apply IH. }
  unfold Docx.deliver.
  eapply sat_bind with
    (T1 := fun _ evs => forallb Log.keeps_source evs = true).
  - eapply sat_weaken; [apply (obeys_sat Log.keeps_source any) |].
    + unfold Docx.post_images. obey; apply R.
    + now intros r evs [K _].
  - intros [] evs1 H1.
    eapply sat_weaken; [apply edit_then_delete_final |].
    intros r evs K. cbv beta. destruct r; [now apply final_status_app | |];
      now rewrite forallb_app, H1, K.
  - auto.
  - auto.
Qed.

Lemma docx_fallback_final (a : attachment) :
  sat (Docx.process_docx w m a true)
    (fun _ evs =>
       forallb Log.keeps_source evs = true
       \/ Log.final_status evs = Some (Some Docx.fallback_warning)).
Proof.
  unfold Docx.process_docx.
  eapply sat_try_then with
    (T1 := fun _ evs => forallb Log.keeps_source evs = true).
  - eapply sat_weaken; [apply (obeys_sat Log.keeps_source any) |].
    + unfold Docx.convert. obey.
    + now intros r evs [H _].
  - intros k evs1 H1.
    eapply sat_try_then with
      (T1 := fun r evs =>
               forallb Log.keeps_source evs = true
               /\ forall x, r = Ret x -> x = (channel m, Some Docx.fallback_warning)).
    + apply obeys_sat, docx_resolve_fallback, quiet_keeps_source.
    + intros [target fm] evs2 [H2 R].
      specialize (R _ eq_refl). injection R as -> ->.
      unfold try_except.
      eapply sat_try_then; [apply docx_deliver_final | | |].
      * intros u evs3 H3. apply sat_ret. rewrite app_nil_r.
        right. now apply final_status_app, final_status_app.
      * intros e evs3 H3.
        apply sat_keeps_source; [apply docx_on_error_keeps_source |].
        intros r evs H. left. now rewrite !forallb_app, H1, H2, H3, H.
      * intros evs3 H3. left. now rewrite !forallb_app, H1, H2, H3.
    + intros e evs2 [H2 _].
      apply sat_keeps_source; [apply docx_on_error_keeps_source |].
      intros r evs H. left. now rewrite !forallb_app, H1, H2, H.
    + intros evs2 [H2 _]. left. now rewrite forallb_app, H1, H2.
  - intros e evs1 H1.
    apply sat_keeps_source; [apply docx_on_error_keeps_source |].
    intros r evs H. left. now rewrite forallb_app, H1, H.
  - intros evs1 H1. now left.
Qed.

End MoreFallback.

(** X22.  The DOCX workflow that was asked for a thread, when no thread
    can be created: every page goes to the channel of the message, no
    status the workflow asks for mentions a thread, and a run that
    reaches the deletion of the source message leaves the fallback
    warning as the status. *)
Theorem docx_fallback_to_channel
    (w : world) (m : message) (a : attachment) (s : state) :
  creation_fails w ->
  exists evs,
    log (snd (Docx.process_docx w m a true s)) = log s ++ evs
    /\ forallb (Log.fallback_ok (channel m)) evs = true
    /\ (existsb Log.deletes_source evs = true ->
        Log.final_status evs = Some (Some Docx.fallback_warning)).
Proof.
  intros Hw.
  destruct (docx_fallback_obeys w Hw m a s) as (evs & E & F & _).
  destruct (docx_fallback_final w Hw m a s) as (evs' & E' & H).
  rewrite E in E'. apply app_inv_head in E'. subst evs'.
  exists evs. repeat split; auto.
  intros Hd. destruct H as [H | H]; [| exact H].
  destruct (forallb_negb_existsb _ _ H Hd).
Qed.

Lemma docx_fallback_to_channel_witness :
  let m := Samples.post EmptyString [Samples.minutes] in
  exists evs,
    log (snd (Docx.process_docx Worlds.no_threads m Samples.minutes true initial))
    = log initial ++ evs
    /\ forallb (Log.fallback_ok (channel m)) evs = true
    /\ (existsb Log.deletes_source evs = true ->
        Log.final_status evs = Some (Some Docx.fallback_warning)).
Proof.
  cbv zeta.
  apply (docx_fallback_to_channel Worlds.no_threads
           (Samples.post EmptyString [Samples.minutes]) Samples.minutes initial).
  intros l parent name. eexists. reflexivity.
Defined.

Section ImageFallback.

Variable w : world.
Hypothesis no_thread : creation_fails w.
Variable m : message.
Variable images : list attachment.

Lemma image_post_each_obeys (P : event -> bool) (l : list attachment) :
  (forall a r, P (Called (ReadVideo a) r) = true) ->
  (forall f r, P (Called (SendFile (channel m) [] f) r) = true) ->
  (forall d, P (Called (Sleep d) (Returns tt)) = true) ->
  obeys P any (ImageView.post_each w (channel m) l).
Proof.
  intros H1 H2 H3.
  induction l as [| a l IH]; cbn [ImageView.post_each];
    [now apply obeys_ret |].
  eapply (obeys_bind P any); [apply obeys_await; apply H1 |]. intros _ _.
  eapply (obeys_bind P any); [apply obeys_await; apply H2 |]. intros _ _.
  eapply (obeys_bind P any); [apply obeys_sleep; apply H3 |]. intros _ _.
  exact IH.
Qed.

Lemma image_deliver_fallback :
  obeys (Log.fallback_ok (channel m)) any
    (ImageView.deliver w images (channel m) (Some ImageView.fallback_warning)).
Proof.
  unfold ImageView.deliver, ImageView.post_images.
  obey; apply image_post_each_obeys; call_ok.
Qed.

Lemma image_on_error_fallback (target : option chan) (e : exn) :
  obeys (Log.fallback_ok (channel m)) any (ImageView.on_error w true target e).
Proof. unfold ImageView.on_error. obey. Qed.

Lemma image_on_error_keeps_source (target : option chan) (e : exn) :
  obeys Log.keeps_source any (ImageView.on_error w true target e).
Proof. unfold ImageView.on_error. obey. Qed.

Lemma image_resolve_fallback (P : event -> bool) :
  (forall ev, Log.quiet ev = true -> P ev = true) ->
  obeys P (fun r => r = (channel m, Some ImageView.fallback_warning))
    (ImageView.resolve_target w m images true).
Proof.
  intros HP. unfold ImageView.resolve_target.
  destruct (ImageView.batch_thread_name (map filename images));
    [| apply obeys_raise].
  eapply obeys_try_except; [| intros e; now apply obeys_ret].
  eapply obeys_bind.
  - eapply obeys_mono; [exact HP | now apply create_thread_fails].
  - intros o ->. now apply obeys_ret.
Qed.

Lemma image_fallback_obeys :
  obeys (Log.fallback_ok (channel m)) any
    (ImageView.process_images w m images true).
Proof.
  unfold ImageView.process_images. cbv zeta.
  eapply (obeys_try_then _ any).
  - obey.
  - intros e. apply image_on_error_fallback.
  - intros k _. eapply obeys_try_then.
    + apply image_resolve_fallback, quiet_fallback_ok.
    + intros e. apply image_on_error_fallback.
    + intros [target fm] E. injection E as -> ->.
      apply obeys_try_except; [apply image_deliver_fallback |].
      intros e. apply image_on_error_fallback.
Qed.

Lemma image_deliver_final :
  sat (ImageView.deliver w images (channel m) (Some ImageView.fallback_warning))
    (fun r evs =>
       match r with
       | Ret _ => Log.final_status evs = Some (Some ImageView.fallback_warning)
       | _ => forallb Log.keeps_source evs = true
       end).
Proof.
  unfold ImageView.deliver.
  eapply sat_bind with
    (T1 := fun _ evs => forallb Log.keeps_source evs = true).
  - eapply sat_weaken; [apply (obeys_sat Log.keeps_source any) |].
    + unfold ImageView.post_images. obey.
      apply image_post_each_obeys; call_ok.
    + now intros r evs [K _].
  - intros [] evs1 H1.
    eapply sat_weaken; [apply edit_then_delete_final |].
    intros r evs K. cbv beta. destruct r; [now apply final_status_app | |];
      now rewrite forallb_app, H1, K.
  - auto.
  - auto.
Qed.

Lemma image_fallback_final :
  sat (ImageView.process_images w m images true)
    (fun _ evs =>
       forallb Log.keeps_source evs = true
       \/ Log.final_status evs = Some (Some ImageView.fallback_warning)).
Proof.
  unfold ImageView.process_images. cbv zeta.
  eapply sat_try_then with
    (T1 := fun _ evs => forallb Log.keeps_source evs = true).
  - eapply sat_weaken; [apply (obeys_sat Log.keeps_source any); obey |].
    now intros r evs [H _].
  - intros k evs1 H1.
    eapply sat_try_then with
      (T1 := fun r evs =>
               forallb Log.keeps_source evs = true
               /\ forall x, r = Ret x ->
                            x = (channel m, Some ImageView.fallback_warning)).
    + apply obeys_sat, image_resolve_fallback, quiet_keeps_source.
    + intros [target fm] evs2 [H2 R].
      specialize (R _ eq_refl). injection R as -> ->.
      unfold try_except.
      eapply sat_try_then; [apply image_deliver_final | | |].
      * intros u evs3 H3. apply sat_ret. rewrite app_nil_r.
        right. now apply final_status_app, final_status_app.
      * intros e evs3 H3.
        apply sat_keeps_source; [apply image_on_error_keeps_source |].
        intros r evs H. left. now rewrite !forallb_app, H1, H2, H3, H.
      * intros evs3 H3. left. now rewrite !forallb_app, H1, H2, H3.
    + intros e evs2 [H2 _].
      apply sat_keeps_source; [apply image_on_error_keeps_source |].
      intros r evs H. left. now rewrite !forallb_app, H1, H2, H.
    + intros evs2 [H2 _]. left. now rewrite forallb_app, H1, H2.
  - intros e evs1 H1.
    apply sat_keeps_source; [apply image_on_error_keeps_source |].
    intros r evs H. left. now rewrite forallb_app, H1, H.
  - intros evs1 H1. now left.
Qed.

End ImageFallback.

(** X23.  The image workflow that was asked for a thread, when no thread
    can be created: every image goes to the channel of the message, no
    status the workflow asks for mentions a thread, and a run that
    reaches the deletion of the source message leaves the fallback
    warning as the status. *)
Theorem image_fallback_to_channel
    (w : world) (m : message) (images : list attachment) (s : state) :
  creation_fails w ->
  exists evs,
    log (snd (ImageView.process_images w m images true s)) = log s ++ evs
    /\ forallb (Log.fallback_ok (channel m)) evs = true
    /\ (existsb Log.deletes_source evs = true ->
        Log.final_status evs = Some (Some ImageView.fallback_warning)).
Proof.
  intros Hw.
  destruct (image_fallback_obeys w Hw m images s) as (evs & E & F & _).
  destruct (image_fallback_final w Hw m images s) as (evs' & E' & H).
  rewrite E in E'. apply app_inv_head in E'. subst evs'.
  exists evs. repeat split; auto.
  intros Hd. destruct H as [H | H]; [| exact H].
  destruct (forallb_negb_existsb _ _ H Hd).
Qed.

Lemma image_fallback_to_channel_witness :
  let m := Samples.post EmptyString [Samples.photo 1; Samples.photo 2] in
  exists evs,
    log (snd (ImageView.process_images Worlds.no_threads m
                [Samples.photo 1; Samples.photo 2] true initial))
    = log initial ++ evs
    /\ forallb (Log.fallback_ok (channel m)) evs = true
    /\ (existsb Log.deletes_source evs = true ->
        Log.final_status evs = Some (Some ImageView.fallback_warning)).
Proof.
  cbv zeta.
  apply (image_fallback_to_channel Worlds.no_threads
           (Samples.post EmptyString [Samples.photo 1; Samples.photo 2])
           [Samples.photo 1; Samples.photo 2] initial).
  intros l parent name. eexists. reflexivity.
Defined.

(** ** The pages of a document, in order *)

(** X24.  The delivery of the PDF workflow, in any world: when the target
    is not a thread the message itself was posted in, and the first page
    of a document sent to a thread can be rendered, the files that reach
    the target are page_1.png, page_2.png, ... in this order, each of
    them once, and all the pages of the document when the delivery
    returns. *)
Theorem pdf_pages_in_order
    (w : world) (m : message) (use_thread : bool) (pages : list bool)
    (target : chan) (fm : option text) (s : state) :
  (use_thread && is_thread target = true ->
   chan_neb target (channel m) = true /\ hd true pages = true) ->
  exists evs,
    log (snd (Pdf.deliver w m use_thread (Some pages) target fm s)) = log s ++ evs
    /\ pages_in_order returned target 1 (length pages)
         (fst (Pdf.deliver w m use_thread (Some pages) target fm s)) evs.
Proof.
  intros H. exact (pdf_deliver_in_order w m use_thread pages target fm H s).
Qed.

Lemma pdf_pages_in_order_witness :
  let m := Samples.post EmptyString [Samples.report] in
  exists evs,
    log (snd (Pdf.deliver Worlds.calm m true (Some [true; true]) (Thread 7000)
                (Some [Mention (Thread 7000)]) initial))
    = log initial ++ evs
    /\ pages_in_order returned (Thread 7000) 1 2
         (fst (Pdf.deliver Worlds.calm m true (Some [true; true]) (Thread 7000)
                 (Some [Mention (Thread 7000)]) initial))
         evs.
Proof.
  cbv zeta.
  apply (pdf_pages_in_order Worlds.calm
           (Samples.post EmptyString [Samples.report]) true [true; true]
           (Thread 7000) (Some [Mention (Thread 7000)]) initial).
  intros _. split; reflexivity.
Defined.

(** X25.  [post_images] of the DOCX workflow, in any world and for every
    target: the files that reach the target are page_1.png, page_2.png,
    ... in this order, each of them once, and all of them when the
    coroutine returns. *)
Theorem docx_pages_in_order
    (w : world) (target : chan) (k : nat) (use_thread : bool) (s : state) :
  exists evs,
    log (snd (Docx.post_images w target k use_thread s)) = log s ++ evs
    /\ pages_in_order returned target 1 k
         (fst (Docx.post_images w target k use_thread s)) evs.
Proof. exact (post_images_in_order w target k use_thread s). Qed.
